(** * Gradewise: the LLM response pipeline of [utils/grading.py]

    A shallow embedding of [GradingSystem], of the library calls it relies
    on ([re], [json], [str.strip], [float]) and of the two endpoints of
    [utils/api.py] that stand in front of it.

    Conventions.
    - A Python [str] is a list of Unicode code points ([N]).
    - A Python exception is a value of [exn]; a computation that may raise
      has type [E A] ([Raise e] or [Ret a]).  Only [Exception] subclasses are
      modelled: [KeyboardInterrupt] and the like are asynchronous and are not
      raised by any statement of the file.
    - Network calls are oracles supplied with each operation (the record
      [world]): they give what the outside world answers, including the
      exceptions it raises; a method also logs the calls it makes.
    - [\d] of [re] and [float] read the decimal digits of every script, as
      Python does ([decimal_zeros]); [json.loads] reads the ASCII digits
      only.
    - [json.loads] raises where the interpreter's limits are met: on
      nesting deeper than the recursion limit allows and on an integer of
      more digits than [sys.get_int_max_str_digits()].  The limits are a
      component of [world] ([interpreter]). *)

From Stdlib Require Import String Ascii NArith ZArith QArith Bool Lia Arith List.
Import ListNotations.

Set Implicit Arguments.
Local Open Scope N_scope.
Local Open Scope list_scope.

(* ===================================================================== *)
(** ** Text *)

Definition char := N.
Definition str := list char.

(** An ASCII literal as a [str]. *)
Definition lit (x : string) : str :=
  map N_of_ascii (list_ascii_of_string x).

Definition dquote : char := 34.
Definition newline : char := 10.
Definition nl : str := [newline].

(** A literal in which every apostrophe stands for a double quote. *)
Definition litq (x : string) : str :=
  map (fun c => if c =? 39 then dquote else c) (lit x).

Fixpoint str_eqb (a b : str) : bool :=
  match a, b with
  | [], [] => true
  | x :: a', y :: b' => (x =? y) && str_eqb a' b'
  | _, _ => false
  end.

(** [x in l] for a list of strings. *)
Definition str_in (x : str) (l : list str) : bool := existsb (str_eqb x) l.

(** [a.startswith(p)] *)
Fixpoint startswith (p a : str) : bool :=
  match p, a with
  | [], _ => true
  | x :: p', y :: a' => (x =? y) && startswith p' a'
  | _ :: _, [] => false
  end.

(** [p in a] for strings: [p] occurs as a substring of [a]. *)
Fixpoint contains (p a : str) : bool :=
  startswith p a ||
  match a with
  | [] => false
  | _ :: a' => contains p a'
  end.

(** Python's [str.isspace] table for one code point; [\s] of [re] and
    [str.strip()] both use it. *)
Definition isspace (c : char) : bool :=
  ((9 <=? c) && (c <=? 13)) || ((28 <=? c) && (c <=? 32)) ||
  (c =? 133) || (c =? 160) || (c =? 5760) ||
  ((8192 <=? c) && (c <=? 8202)) || (c =? 8232) || (c =? 8233) ||
  (c =? 8239) || (c =? 8287) || (c =? 12288).

(** An ASCII digit: the digits of a JSON number and of the syntax of a
    pattern.  What [\d] matches is [isdecimal], below. *)
Definition isdigit (c : char) : bool := (48 <=? c) && (c <=? 57).

(** The code points of the digit zero of every script (Unicode 14.0, the
    table of CPython 3.11): each is followed by its digits one to nine. *)
Definition decimal_zeros : list N :=
  [ 48; 1632; 1776; 1984; 2406; 2534; 2662; 2790; 2918; 3046; 3174; 3302;
    3430; 3558; 3664; 3792; 3872; 4160; 4240; 6112; 6160; 6470; 6608; 6784;
    6800; 6992; 7088; 7232; 7248; 42528; 43216; 43264; 43472; 43504; 43600;
    44016; 65296; 66720; 68912; 69734; 69872; 69942; 70096; 70384; 70736;
    70864; 71248; 71360; 71472; 71904; 72016; 72784; 73040; 73120; 92768;
    92864; 93008; 120782; 120792; 120802; 120812; 120822; 123200; 123632;
    125264; 130032 ].

(** The value of a decimal digit of any script: [\d] of [re] matches
    exactly these characters, and [float] reads them with this value. *)
Definition digit_value (c : char) : option N :=
  match find (fun z => (z <=? c) && (c <=? z + 9)) decimal_zeros with
  | Some z => Some (c - z)
  | None => None
  end.

Definition isdecimal (c : char) : bool :=
  match digit_value c with Some _ => true | None => false end.

Fixpoint lstrip (a : str) : str :=
  match a with
  | c :: a' => if isspace c then lstrip a' else a
  | [] => []
  end.

Definition rstrip (a : str) : str := rev (lstrip (rev a)).

(** [a.strip()] *)
Definition strip (a : str) : str := rstrip (lstrip a).

(** ASCII letters: the case pair of a code point. *)
Definition ascii_lower (c : char) : char :=
  if (65 <=? c) && (c <=? 90) then c + 32 else c.

(** [s.lower()], on the ASCII letters.  It is only compared with the
    provider tags, which are ASCII and hold no letter that a character
    outside ASCII is lower-cased to. *)
Definition lower (a : str) : str := map ascii_lower a.

(** Decimal rendering of a natural number, for messages. *)
Fixpoint digits_fuel (fuel : nat) (n : N) (acc : str) : str :=
  match fuel with
  | O => acc
  | S f =>
      let acc' := (48 + n mod 10) :: acc in
      if n <? 10 then acc' else digits_fuel f (n / 10) acc'
  end.

Definition str_of_N (n : N) : str := digits_fuel (S (N.to_nat (N.log2 n))) n [].

(* ===================================================================== *)
(** ** Exceptions *)

Inductive exn_class :=
| JSONDecodeError      (* json.JSONDecodeError, a ValueError *)
| ReError              (* re.error *)
| ValueError
| TypeError
| KeyError
| RecursionError
| RequestException     (* requests.exceptions.RequestException and subclasses *)
| OtherException.      (* any other Exception subclass *)

Record exn := mk_exn { exn_cls : exn_class; exn_msg : str }.

(** [str(e)] *)
Definition str_of_exn (e : exn) : str := exn_msg e.

Definition exn_class_eqb (a b : exn_class) : bool :=
  match a, b with
  | JSONDecodeError, JSONDecodeError | ReError, ReError
  | ValueError, ValueError | TypeError, TypeError | KeyError, KeyError
  | RecursionError, RecursionError
  | RequestException, RequestException
  | OtherException, OtherException => true
  | _, _ => false
  end.

(** [isinstance(e, cls)]: [JSONDecodeError] derives from [ValueError]. *)
Definition isinstance (e : exn) (cls : exn_class) : bool :=
  exn_class_eqb (exn_cls e) cls ||
  match exn_cls e, cls with
  | JSONDecodeError, ValueError => true
  | _, _ => false
  end.

Inductive E (A : Type) :=
| Raise (e : exn)
| Ret (a : A).
Arguments Raise {A} e.
Arguments Ret {A} a.

Definition bindE {A B} (m : E A) (f : A -> E B) : E B :=
  match m with
  | Raise e => Raise e
  | Ret a => f a
  end.

Declare Scope exn_scope.
Delimit Scope exn_scope with exn.
Notation "x <- m ;; k" := (bindE m (fun x => k))
  (at level 61, m at next level, right associativity) : exn_scope.

(** [try: body  except cls as e: handler(e)] *)
Definition try_except {A} (body : E A) (cls : exn_class) (handler : exn -> E A) : E A :=
  match body with
  | Raise e => if isinstance e cls then handler e else Raise e
  | Ret a => Ret a
  end.

(** [try: body  except Exception as e: handler(e)] *)
Definition try_except_Exception {A} (body : E A) (handler : exn -> E A) : E A :=
  match body with
  | Raise e => handler e
  | Ret a => Ret a
  end.

(* ===================================================================== *)
(** ** Regular expressions: the part of Python's [re] the file uses *)

Inductive set_item :=
| SChar (c : char)
| SSpace               (* \s *)
| SDigit.              (* \d *)

Inductive regex :=
| REmpty
| RLit (c : char)
| RAny                              (* . *)
| RSet (neg : bool) (items : list set_item)
| RCat (a b : regex)
| RAlt (a b : regex)
| RStar (greedy : bool) (a : regex)
| RGroup (i : nat) (a : regex)      (* capturing group number i *)
| RLook (neg : bool) (a : regex)    (* (?=...) and (?!...) *)
| REnd.                             (* $ *)

Record flags := mk_flags { IGNORECASE : bool; DOTALL : bool }.

Definition no_flags := mk_flags false false.
Definition re_DOTALL := mk_flags false true.
Definition re_IGNORECASE := mk_flags true false.

(** Equality of a pattern character and a text character.  With
    IGNORECASE an ASCII letter also matches its other case and the four
    code points Python folds onto ASCII letters (U+0130, U+0131 for i,
    U+017F for s, U+212A for k). *)
Definition fold_char (c : char) : char :=
  if (c =? 304) || (c =? 305) then 105
  else if c =? 383 then 115
  else if c =? 8490 then 107
  else ascii_lower c.

Definition char_match (f : flags) (p x : char) : bool :=
  if IGNORECASE f then fold_char p =? fold_char x else p =? x.

Definition item_match (f : flags) (it : set_item) (x : char) : bool :=
  match it with
  | SChar c => char_match f c x
  | SSpace => isspace x
  | SDigit => isdecimal x
  end.

Definition set_match (f : flags) (neg : bool) (items : list set_item) (x : char) : bool :=
  xorb neg (existsb (fun it => item_match f it x) items).

(** Captured groups, most recent binding first. *)
Definition caps := list (nat * str).

Fixpoint cap_get (c : caps) (i : nat) : option str :=
  match c with
  | [] => None
  | (j, v) :: c' => if Nat.eqb i j then Some v else cap_get c' i
  end.

(** The part of [s] consumed when [rest] is what remains of it. *)
Definition consumed (s rest : str) : str :=
  firstn (length s - length rest) s.

(** Backtracking matcher: [rmatch f r s c k] matches [r] at the head of
    [s] and hands the remaining text to the continuation [k]; alternatives
    are tried in the order in which Python's engine tries them.  An
    iteration of a star that consumes nothing is not repeated. *)
Fixpoint rmatch (f : flags) (r : regex) (s : str) (c : caps)
    (k : str -> caps -> option (str * caps)) {struct r} : option (str * caps) :=
  match r with
  | REmpty => k s c
  | RLit p =>
      match s with
      | x :: s' => if char_match f p x then k s' c else None
      | [] => None
      end
  | RAny =>
      match s with
      | x :: s' => if DOTALL f || negb (x =? newline) then k s' c else None
      | [] => None
      end
  | RSet neg items =>
      match s with
      | x :: s' => if set_match f neg items x then k s' c else None
      | [] => None
      end
  | RCat a b => rmatch f a s c (fun s' c' => rmatch f b s' c' k)
  | RAlt a b =>
      match rmatch f a s c k with
      | Some res => Some res
      | None => rmatch f b s c k
      end
  | RStar greedy a =>
      (fix loop (n : nat) (s : str) (c : caps) {struct n} : option (str * caps) :=
         match n with
         | O => k s c
         | S n' =>
             if greedy then
               match rmatch f a s c
                       (fun s' c' =>
                          if (length s' <? length s)%nat then loop n' s' c' else None) with
               | Some res => Some res
               | None => k s c
               end
             else
               match k s c with
               | Some res => Some res
               | None =>
                   rmatch f a s c
                     (fun s' c' =>
                        if (length s' <? length s)%nat then loop n' s' c' else None)
               end
         end) (length s) s c
  | RGroup i a =>
      rmatch f a s c (fun s' c' => k s' ((i, consumed s s') :: c'))
  | RLook neg a =>
      match rmatch f a s c (fun s' c' => Some (s', c')) with
      | Some (_, c') => if neg then None else k s c'
      | None => if neg then k s c else None
      end
  | REnd =>
      match s with
      | [] => k s c
      | [x] => if x =? newline then k s c else None
      | _ => None
      end
  end.

(** A match object: the text before the match, the matched text
    ([group(0)]), the text after it, and the groups. *)
Record rmatch_obj := mk_match
  { m_before : str; m_group0 : str; m_after : str; m_caps : caps }.

(** [m.group(i)] for [i >= 1]; a group that did not take part gives [None]. *)
Definition group (m : rmatch_obj) (i : nat) : option str := cap_get (m_caps m) i.

(** A match starting exactly at the head of [s]. *)
Definition match_here (f : flags) (r : regex) (s : str) : option (str * caps) :=
  rmatch f r s [] (fun s' c' => Some (s', c')).

(** Leftmost match in [s], [before] being the text already passed
    (reversed). *)
Fixpoint search_from (f : flags) (r : regex) (before : str) (s : str) : option rmatch_obj :=
  match match_here f r s with
  | Some (rest, c) => Some (mk_match (rev before) (consumed s rest) rest c)
  | None =>
      match s with
      | [] => None
      | x :: s' => search_from f r (x :: before) s'
      end
  end.

(** All non-overlapping matches, left to right.  After an empty match the
    scan moves on by one character. *)
Fixpoint finditer_fuel (fuel : nat) (f : flags) (r : regex) (before : str) (s : str)
  : list rmatch_obj :=
  match fuel with
  | O => []
  | S fuel' =>
      match search_from f r before s with
      | None => []
      | Some m =>
          m ::
          match m_group0 m, m_after m with
          | [], [] => []
          | [], x :: rest =>
              finditer_fuel fuel' f r (x :: rev (m_before m)) rest
          | g, rest =>
              finditer_fuel fuel' f r (rev g ++ rev (m_before m)) rest
          end
      end
  end.

Definition finditer_re (f : flags) (r : regex) (s : str) : list rmatch_obj :=
  finditer_fuel (S (length s)) f r [] s.

(* --------------------------------------------------------------------- *)
(** *** Compiling a pattern

    [re_compile] follows Python's pattern parser on the constructs the
    file's patterns are written with.  A construct Python accepts but this
    model does not cover is reported apart ([not_modelled]); none of the
    file's patterns reaches it. *)

Definition re_error (msg : str) (pos : N) : exn :=
  mk_exn ReError (msg ++ lit " at position " ++ str_of_N pos).

Definition not_modelled : exn :=
  mk_exn OtherException (lit "pattern construct outside the model").

Definition is_alnum (c : char) : bool :=
  isdigit c || ((65 <=? c) && (c <=? 90)) || ((97 <=? c) && (c <=? 122)) || (c =? 95).

Definition rcat (a b : regex) : regex :=
  match b with
  | REmpty => a
  | _ => RCat a b
  end.

(** The characters that may follow [(?] in Python besides [:], [=], [!]. *)
Definition other_extension (c : char) : bool :=
  existsb (N.eqb c) (lit "P#<(>aiLmsux-").

(** An escape outside a set. *)
Definition parse_escape (x : char) (pos : N) : E regex :=
  if x =? 110 then Ret (RLit 10)             (* \n *)
  else if x =? 116 then Ret (RLit 9)         (* \t *)
  else if x =? 114 then Ret (RLit 13)        (* \r *)
  else if x =? 115 then Ret (RSet false [SSpace])
  else if x =? 100 then Ret (RSet false [SDigit])
  else if is_alnum x then Raise not_modelled
  else Ret (RLit x).

(** An escape inside a set. *)
Definition parse_set_escape (x : char) : E set_item :=
  if x =? 110 then Ret (SChar 10)
  else if x =? 116 then Ret (SChar 9)
  else if x =? 114 then Ret (SChar 13)
  else if x =? 115 then Ret SSpace
  else if x =? 100 then Ret SDigit
  else if is_alnum x then Raise not_modelled
  else Ret (SChar x).

(** The items of a set up to the closing bracket; [start] is the position
    of the opening bracket.  A bracket that comes first is an ordinary
    character; ranges are outside the model. *)
Fixpoint parse_set_items (p : str) (pos start : N) (first : bool) (acc : list set_item)
  : E (list set_item * str * N) :=
  match p with
  | [] => Raise (re_error (lit "unterminated character set") start)
  | c :: p' =>
      if (c =? 93) && negb first then Ret (rev acc, p', pos + 1)
      else if c =? 92 then
        match p' with
        | [] => Raise (re_error (lit "unterminated character set") start)
        | x :: p'' =>
            match parse_set_escape x with
            | Raise e => Raise e
            | Ret it =>
                match p'' with
                | 45 :: y :: _ =>
                    if y =? 93 then parse_set_items p'' (pos + 2) start false (it :: acc)
                    else Raise not_modelled
                | _ => parse_set_items p'' (pos + 2) start false (it :: acc)
                end
            end
        end
      else
        match p' with
        | 45 :: y :: _ =>
            if y =? 93 then parse_set_items p' (pos + 1) start false (SChar c :: acc)
            else Raise not_modelled
        | _ => parse_set_items p' (pos + 1) start false (SChar c :: acc)
        end
  end.

Definition is_quant (c : char) : bool := (c =? 42) || (c =? 43) || (c =? 63).

(** A quantifier after the item [a], if there is one. *)
Definition parse_quant (a : regex) (p : str) (pos : N) : E (regex * str * N) :=
  match p with
  | q :: p1 =>
      if is_quant q then
        let '(greedy, p2, pos2) :=
          match p1 with
          | 63 :: p2 => (false, p2, pos + 2)
          | _ => (true, p1, pos + 1)
          end in
        match p2 with
        | 43 :: _ => Raise not_modelled
        | _ =>
            if match p2 with x :: _ => is_quant x | [] => false end
            then Raise (re_error (lit "multiple repeat") pos2)
            else
              let r :=
                if q =? 42 then RStar greedy a
                else if q =? 43 then RCat a (RStar greedy a)
                else if greedy then RAlt a REmpty else RAlt REmpty a in
              Ret (r, p2, pos2)
        end
      else if q =? 123 then Raise not_modelled
      else Ret (a, p, pos)
  | [] => Ret (a, p, pos)
  end.

(** [parse_alt] reads an alternation, [parse_seq] a sequence of quantified
    items and [parse_atom] one item; [g] counts the capturing groups opened
    so far.  The fuel bounds the nesting and the length of the pattern. *)
Fixpoint parse_alt (fuel : nat) (p : str) (pos : N) (g : nat) {struct fuel}
  : E (regex * str * N * nat) :=
  match fuel with
  | O => Raise not_modelled
  | S fuel' =>
      match parse_seq fuel' p pos g with
      | Raise e => Raise e
      | Ret (r1, p1, pos1, g1) =>
          match p1 with
          | 124 :: p2 =>
              match parse_alt fuel' p2 (pos1 + 1) g1 with
              | Raise e => Raise e
              | Ret (r2, p3, pos3, g3) => Ret (RAlt r1 r2, p3, pos3, g3)
              end
          | _ => Ret (r1, p1, pos1, g1)
          end
      end
  end
with parse_seq (fuel : nat) (p : str) (pos : N) (g : nat) {struct fuel}
  : E (regex * str * N * nat) :=
  match fuel with
  | O => Raise not_modelled
  | S fuel' =>
      match p with
      | [] => Ret (REmpty, p, pos, g)
      | c :: _ =>
          if (c =? 124) || (c =? 41) then Ret (REmpty, p, pos, g)
          else
            match parse_atom fuel' p pos g with
            | Raise e => Raise e
            | Ret (a, p1, pos1, g1) =>
                match parse_quant a p1 pos1 with
                | Raise e => Raise e
                | Ret (a', p2, pos2) =>
                    match parse_seq fuel' p2 pos2 g1 with
                    | Raise e => Raise e
                    | Ret (r, p3, pos3, g3) => Ret (rcat a' r, p3, pos3, g3)
                    end
                end
            end
      end
  end
with parse_atom (fuel : nat) (p : str) (pos : N) (g : nat) {struct fuel}
  : E (regex * str * N * nat) :=
  match fuel with
  | O => Raise not_modelled
  | S fuel' =>
      let close (wrap : regex -> regex) (body : E (regex * str * N * nat)) :=
        match body with
        | Raise e => Raise e
        | Ret (r, 41 :: p', pos', g') => Ret (wrap r, p', pos' + 1, g')
        | Ret _ => Raise (re_error (lit "missing ), unterminated subpattern") pos)
        end in
      match p with
      | [] => Raise not_modelled
      | c :: p1 =>
          if c =? 46 then Ret (RAny, p1, pos + 1, g)
          else if c =? 36 then Ret (REnd, p1, pos + 1, g)
          else if c =? 94 then Raise not_modelled
          else if is_quant c then Raise (re_error (lit "nothing to repeat") pos)
          else if c =? 92 then
            match p1 with
            | [] => Raise (re_error (lit "bad escape (end of pattern)") pos)
            | x :: p2 =>
                match parse_escape x pos with
                | Raise e => Raise e
                | Ret r => Ret (r, p2, pos + 2, g)
                end
            end
          else if c =? 91 then
            let '(neg, p2, pos2) :=
              match p1 with
              | 94 :: p2 => (true, p2, pos + 2)
              | _ => (false, p1, pos + 1)
              end in
            match parse_set_items p2 pos2 pos true [] with
            | Raise e => Raise e
            | Ret (items, p3, pos3) => Ret (RSet neg items, p3, pos3, g)
            end
          else if c =? 40 then
            match p1 with
            | 63 :: [] => Raise (re_error (lit "unexpected end of pattern") (pos + 2))
            | 63 :: x :: p2 =>
                if x =? 58 then close (fun r => r) (parse_alt fuel' p2 (pos + 3) g)
                else if x =? 61 then close (RLook false) (parse_alt fuel' p2 (pos + 3) g)
                else if x =? 33 then close (RLook true) (parse_alt fuel' p2 (pos + 3) g)
                else if other_extension x then Raise not_modelled
                else Raise (re_error (lit "unknown extension ?" ++ [x]) (pos + 1))
            | _ => close (RGroup (S g)) (parse_alt fuel' p1 (pos + 1) (S g))
            end
          else Ret (RLit c, p1, pos + 1, g)
      end
  end.

(** [re.compile(pattern)] *)
Definition re_compile (pattern : str) : E regex :=
  match parse_alt (3 * length pattern + 3) pattern 0 0%nat with
  | Raise e => Raise e
  | Ret (r, [], _, _) => Ret r
  | Ret (_, _ :: _, pos, _) => Raise (re_error (lit "unbalanced parenthesis") pos)
  end.

(* --------------------------------------------------------------------- *)
(** *** The functions of [re] *)

(** [re.search(pattern, s, flags)] *)
Definition re_search (pattern : str) (s : str) (f : flags) : E (option rmatch_obj) :=
  match re_compile pattern with
  | Raise e => Raise e
  | Ret r => Ret (search_from f r [] s)
  end.

(** [re.finditer(pattern, s, flags)]: the pattern is compiled when the call
    is made, the matches are then produced left to right. *)
Definition re_finditer (pattern : str) (s : str) (f : flags) : E (list rmatch_obj) :=
  match re_compile pattern with
  | Raise e => Raise e
  | Ret r => Ret (finditer_re f r s)
  end.

(** [re.findall] for a pattern with two groups: the pairs of groups. *)
Definition re_findall2 (pattern : str) (s : str) (f : flags) : E (list (str * str)) :=
  match re_finditer pattern s f with
  | Raise e => Raise e
  | Ret ms =>
      Ret (map (fun m => (match group m 1 with Some g => g | None => [] end,
                          match group m 2 with Some g => g | None => [] end)) ms)
  end.

(** A replacement template: text and group references. *)
Inductive titem := TLit (c : char) | TGroup (i : nat).

(** A template in which a backslash is only followed by a group digit. *)
Fixpoint parse_template (t : str) : list titem :=
  match t with
  | [] => []
  | c :: t' =>
      match t' with
      | d :: t'' =>
          if (c =? 92) && (49 <=? d) && (d <=? 57)
          then TGroup (N.to_nat (d - 48)) :: parse_template t''
          else TLit c :: parse_template t'
      | [] => [TLit c]
      end
  end.

Fixpoint expand (t : list titem) (m : rmatch_obj) : str :=
  match t with
  | [] => []
  | TLit c :: t' => c :: expand t' m
  | TGroup i :: t' =>
      match group m i with Some g => g | None => [] end ++ expand t' m
  end.

(** Replace every match, left to right; the scan resumes after each match
    (one character further after an empty one).  The file's patterns look
    at the text ahead only, so the scan may restart on the remaining text. *)
Fixpoint sub_fuel (fuel : nat) (f : flags) (r : regex) (t : list titem) (s : str) : str :=
  match fuel with
  | O => s
  | S fuel' =>
      match search_from f r [] s with
      | None => s
      | Some m =>
          m_before m ++ expand t m ++
          match m_group0 m, m_after m with
          | [], [] => []
          | [], x :: rest => x :: sub_fuel fuel' f r t rest
          | _, rest => sub_fuel fuel' f r t rest
          end
      end
  end.

(** [re.sub(pattern, repl, s, flags=f)] *)
Definition re_sub (pattern repl : str) (s : str) (f : flags) : E str :=
  match re_compile pattern with
  | Raise e => Raise e
  | Ret r => Ret (sub_fuel (S (length s)) f r (parse_template repl) s)
  end.

(** The pieces of [s] between the matches. *)
Fixpoint split_fuel (fuel : nat) (f : flags) (r : regex) (s : str) : list str :=
  match fuel with
  | O => [s]
  | S fuel' =>
      match search_from f r [] s with
      | None => [s]
      | Some m =>
          match m_group0 m, m_after m with
          | [], [] => [s]
          | [], x :: rest =>
              match split_fuel fuel' f r rest with
              | piece :: more => (m_before m ++ x :: piece) :: more
              | [] => [m_before m ++ [x]]
              end
          | _, rest => m_before m :: split_fuel fuel' f r rest
          end
      end
  end.

(** [re.split(pattern, s)] for a pattern without groups. *)
Definition re_split (pattern : str) (s : str) : E (list str) :=
  match re_compile pattern with
  | Raise e => Raise e
  | Ret r => Ret (split_fuel (S (length s)) no_flags r s)
  end.

(* ===================================================================== *)
(** ** Python values *)

(** A float is kept as the decimal text it was read from: [FDec neg m e]
    is the double that [float] returns for the decimal [(-1)^neg * m * 10^e]. *)
Inductive pyfloat :=
| FDec (neg : bool) (m : N) (e : Z)
| FInf (neg : bool)
| FNaN.

#[warnings="-register-all"]
Inductive pyval :=
| PNone
| PBool (b : bool)
| PInt (z : Z)
| PFloat (x : pyfloat)
| PStr (s : str)
| PList (l : list pyval)
| PDict (d : list (str * pyval)).   (* in insertion order, keys distinct *)

(** A Python [dict] with text keys, in insertion order. *)
Definition odict (V : Type) := list (str * V).
Definition dict := odict pyval.

(** [d[k] = v]: an existing key keeps its place. *)
Fixpoint dict_set {V} (d : odict V) (k : str) (v : V) : odict V :=
  match d with
  | [] => [(k, v)]
  | (k', v') :: d' =>
      if str_eqb k k' then (k, v) :: d' else (k', v') :: dict_set d' k v
  end.

(** [d.get(k)] *)
Fixpoint dict_get {V} (d : odict V) (k : str) : option V :=
  match d with
  | [] => None
  | (k', v) :: d' => if str_eqb k k' then Some v else dict_get d' k
  end.

(** A dictionary display [{k1: v1, ...}] and a dict comprehension: the
    entries are written in turn. *)
Definition dict_of {V} (kvs : list (str * V)) : odict V :=
  fold_left (fun d kv => dict_set d (fst kv) (snd kv)) kvs [].

(* ===================================================================== *)
(** ** [json.loads]

    The grammar of Python's decoder: RFC 8259 with the constants [NaN],
    [Infinity] and [-Infinity]; a repeated key keeps its last value; digits
    are the ASCII ones.  The message of a [JSONDecodeError] is not
    reproduced.  The decoder meets two limits of the interpreter, which
    make it raise on texts that are valid JSON. *)

(** The limits of the interpreter where a function runs: [json_depth] is
    the number of arrays and objects, one inside the other, that
    [json.loads] may enter there before the recursion limit is reached (it
    depends on [sys.getrecursionlimit()] and on the depth of the call
    stack); [int_max_str_digits] is [sys.get_int_max_str_digits()], 4300
    unless it was changed, 0 for no limit. *)
Record interpreter := mk_interpreter
  { json_depth : nat; int_max_str_digits : nat }.

(** The limits one call further down the stack. *)
Definition deeper (py : interpreter) : interpreter :=
  mk_interpreter (pred (json_depth py)) (int_max_str_digits py).

Definition json_error : exn := mk_exn JSONDecodeError (lit "Expecting value").

Definition recursion_error (what : str) : exn :=
  mk_exn RecursionError
    (lit "maximum recursion depth exceeded while decoding a JSON " ++ what
       ++ lit " from a unicode string").

Definition int_limit_error (limit digits : nat) : exn :=
  mk_exn ValueError
    (lit "Exceeds the limit (" ++ str_of_N (N.of_nat limit)
       ++ lit " digits) for integer string conversion: value has "
       ++ str_of_N (N.of_nat digits)
       ++ lit " digits; use sys.set_int_max_str_digits() to increase the limit").

(** Never raised: the fuel of the decoder covers every text. *)
Definition out_of_fuel : exn := mk_exn OtherException (lit "decoder out of fuel").

Definition json_ws (c : char) : bool :=
  (c =? 32) || (c =? 9) || (c =? 10) || (c =? 13).

Fixpoint skip_ws (s : str) : str :=
  match s with
  | c :: s' => if json_ws c then skip_ws s' else s
  | [] => []
  end.

Definition strip_prefix (p s : str) : option str :=
  if startswith p s then Some (skipn (length p) s) else None.

Fixpoint span_digits (s : str) : str * str :=
  match s with
  | c :: s' =>
      if isdigit c then let '(d, r) := span_digits s' in (c :: d, r) else ([], s)
  | [] => ([], [])
  end.

(** The number a string of ASCII digits denotes. *)
Definition N_of_digits (d : str) : N :=
  fold_left (fun acc c => 10 * acc + (c - 48)) d 0.

(** A JSON number at the head of [s]: an optional minus sign, an integer
    part without leading zero, an optional fraction (a dot and digits), an
    optional exponent (e or E, a sign, digits).  It is an [int] without
    fraction and exponent, a [float] otherwise.  An [int] of more digits
    than [max_digits] (when that is not 0) raises [ValueError]. *)
Definition scan_number (max_digits : nat) (s : str) : option (E pyval * str) :=
  let '(neg, s1) :=
    match s with
    | c :: s' => if c =? 45 then (true, s') else (false, s)
    | [] => (false, s)
    end in
  let int_part : option (str * str) :=
    match s1 with
    | c :: s' =>
        if c =? 48 then Some ([c], s')
        else if isdigit c then Some (span_digits s1)
        else None
    | [] => None
    end in
  match int_part with
  | None => None
  | Some (ip, s2) =>
      let '(frac, s3) :=
        match s2 with
        | c :: s' =>
            if c =? 46 then
              match span_digits s' with
              | ([], _) => ([], s2)
              | (fd, r) => (fd, r)
              end
            else ([], s2)
        | [] => ([], s2)
        end in
      let '(ex, s4) :=
        match s3 with
        | c :: s' =>
            if (c =? 101) || (c =? 69) then
              let '(eneg, s'') :=
                match s' with
                | x :: r => if x =? 45 then (true, r)
                            else if x =? 43 then (false, r) else (false, s')
                | [] => (false, s')
                end in
              match span_digits s'' with
              | ([], _) => (@None Z, s3)
              | (ed, r) =>
                  let v := Z.of_N (N_of_digits ed) in
                  (Some (if eneg then (- v)%Z else v), r)
              end
            else (None, s3)
        | [] => (None, s3)
        end in
      match frac, ex with
      | [], None =>
          if (0 <? max_digits)%nat && (max_digits <? length ip)%nat
          then Some (Raise (int_limit_error max_digits (length ip)), s4)
          else
            let v := Z.of_N (N_of_digits ip) in
            Some (Ret (PInt (if neg then (- v)%Z else v)), s4)
      | _, _ =>
          let e := match ex with Some e => e | None => 0%Z end in
          Some (Ret (PFloat (FDec neg (N_of_digits (ip ++ frac))
                               (e - Z.of_nat (length frac)))), s4)
      end
  end.

Definition hex_digit (c : char) : option N :=
  if isdigit c then Some (c - 48)
  else if (97 <=? c) && (c <=? 102) then Some (c - 87)
  else if (65 <=? c) && (c <=? 70) then Some (c - 55)
  else None.

(** Four hexadecimal digits at the head of [s]. *)
Definition hex4 (s : str) : option (N * str) :=
  match s with
  | a :: b :: c :: d :: r =>
      match hex_digit a, hex_digit b, hex_digit c, hex_digit d with
      | Some x, Some y, Some z, Some w => Some (4096 * x + 256 * y + 16 * z + w, r)
      | _, _, _, _ => None
      end
  | _ => None
  end.

(** The body of a string literal after its opening quote. *)
Fixpoint scan_string (fuel : nat) (s : str) (acc : str) : option (str * str) :=
  match fuel with
  | O => None
  | S fuel' =>
      match s with
      | [] => None
      | c :: s' =>
          if c =? dquote then Some (rev acc, s')
          else if c <? 32 then None
          else if c =? 92 then
            match s' with
            | [] => None
            | x :: s'' =>
                if x =? 117 then
                  match hex4 s'' with
                  | None => None
                  | Some (u, r) =>
                      let pair :=
                        if (55296 <=? u) && (u <=? 56319) then
                          match r with
                          | b :: v :: r' =>
                              if (b =? 92) && (v =? 117) then
                                match hex4 r' with
                                | Some (u2, r'') =>
                                    if (56320 <=? u2) && (u2 <=? 57343)
                                    then Some (65536 + (u - 55296) * 1024 + (u2 - 56320), r'')
                                    else None
                                | None => None
                                end
                              else None
                          | _ => None
                          end
                        else None in
                      match pair with
                      | Some (cp, r'') => scan_string fuel' r'' (cp :: acc)
                      | None => scan_string fuel' r (u :: acc)
                      end
                  end
                else
                  let simple : option char :=
                    if x =? dquote then Some dquote
                    else if x =? 92 then Some 92
                    else if x =? 47 then Some 47
                    else if x =? 98 then Some 8
                    else if x =? 102 then Some 12
                    else if x =? 110 then Some 10
                    else if x =? 114 then Some 13
                    else if x =? 116 then Some 9
                    else None in
                  match simple with
                  | Some d => scan_string fuel' s'' (d :: acc)
                  | None => None
                  end
            end
          else scan_string fuel' s' (c :: acc)
      end
  end.

(** One JSON value at the head of [s] (no leading white space), with the
    text that follows it.  [parse_items] reads the rest of an array after
    an element, [parse_members] the rest of an object after a member.
    [depth] is the number of arrays and objects that may still be entered,
    one inside the other; the decoder checks it when it meets the opening
    bracket or brace. *)
Fixpoint parse_value (fuel : nat) (max_digits depth : nat) (s : str) {struct fuel}
  : E (pyval * str) :=
  match fuel with
  | O => Raise out_of_fuel
  | S fuel' =>
      match s with
      | [] => Raise json_error
      | c :: s' =>
          if c =? dquote then
            match scan_string (S (length s')) s' [] with
            | Some (v, r) => Ret (PStr v, r)
            | None => Raise json_error
            end
          else if c =? 123 then
            match depth with
            | O => Raise (recursion_error (lit "object"))
            | S depth' =>
                match skip_ws s' with
                | [] => Raise json_error
                | x :: r =>
                    if x =? 125 then Ret (PDict [], r)
                    else
                      match parse_members fuel' max_digits depth' (x :: r) [] with
                      | Raise e => Raise e
                      | Ret (d, r') => Ret (PDict d, r')
                      end
                end
            end
          else if c =? 91 then
            match depth with
            | O => Raise (recursion_error (lit "array"))
            | S depth' =>
                match skip_ws s' with
                | [] => Raise json_error
                | x :: r =>
                    if x =? 93 then Ret (PList [], r)
                    else
                      match parse_items fuel' max_digits depth' (x :: r) [] with
                      | Raise e => Raise e
                      | Ret (l, r') => Ret (PList l, r')
                      end
                end
            end
          else
            match strip_prefix (lit "null") s with
            | Some r => Ret (PNone, r)
            | None =>
            match strip_prefix (lit "true") s with
            | Some r => Ret (PBool true, r)
            | None =>
            match strip_prefix (lit "false") s with
            | Some r => Ret (PBool false, r)
            | None =>
            match strip_prefix (lit "NaN") s with
            | Some r => Ret (PFloat FNaN, r)
            | None =>
            match strip_prefix (lit "Infinity") s with
            | Some r => Ret (PFloat (FInf false), r)
            | None =>
            match strip_prefix (lit "-Infinity") s with
            | Some r => Ret (PFloat (FInf true), r)
            | None =>
            match scan_number max_digits s with
            | Some (Ret v, r) => Ret (v, r)
            | Some (Raise e, _) => Raise e
            | None => Raise json_error
            end end end end end end end
      end
  end
with parse_items (fuel : nat) (max_digits depth : nat) (s : str) (acc : list pyval)
    {struct fuel} : E (list pyval * str) :=
  match fuel with
  | O => Raise out_of_fuel
  | S fuel' =>
      match parse_value fuel' max_digits depth s with
      | Raise e => Raise e
      | Ret (v, r) =>
          match skip_ws r with
          | [] => Raise json_error
          | x :: r' =>
              if x =? 93 then Ret (rev (v :: acc), r')
              else if x =? 44
              then parse_items fuel' max_digits depth (skip_ws r') (v :: acc)
              else Raise json_error
          end
      end
  end
with parse_members (fuel : nat) (max_digits depth : nat) (s : str) (acc : dict)
    {struct fuel} : E (dict * str) :=
  match fuel with
  | O => Raise out_of_fuel
  | S fuel' =>
      match s with
      | [] => Raise json_error
      | q :: s' =>
          if q =? dquote then
            match scan_string (S (length s')) s' [] with
            | None => Raise json_error
            | Some (k, r) =>
                match skip_ws r with
                | [] => Raise json_error
                | x :: r1 =>
                    if x =? 58 then
                      match parse_value fuel' max_digits depth (skip_ws r1) with
                      | Raise e => Raise e
                      | Ret (v, r2) =>
                          match skip_ws r2 with
                          | [] => Raise json_error
                          | y :: r3 =>
                              if y =? 125 then Ret (dict_set acc k v, r3)
                              else if y =? 44
                              then parse_members fuel' max_digits depth (skip_ws r3)
                                     (dict_set acc k v)
                              else Raise json_error
                          end
                      end
                    else Raise json_error
                end
            end
          else Raise json_error
      end
  end.

(** [json.loads(s)] under the limits [py]: one value, white space allowed
    around it, nothing else.  A text that starts with a byte order mark is
    refused. *)
Definition json_loads (py : interpreter) (s : str) : E pyval :=
  match s with
  | 65279 :: _ => Raise json_error
  | _ =>
      match parse_value (2 * length s + 2) (int_max_str_digits py) (json_depth py)
              (skip_ws s) with
      | Raise e => Raise e
      | Ret (v, r) =>
          match skip_ws r with
          | [] => Ret v
          | _ :: _ => Raise json_error
          end
      end
  end.

(* ===================================================================== *)
(** ** [float] and [min] *)

(** The longest prefix of decimal digits, of any script. *)
Fixpoint span_decimal (s : str) : str * str :=
  match s with
  | c :: s' =>
      if isdecimal c then let '(d, r) := span_decimal s' in (c :: d, r) else ([], s)
  | [] => ([], [])
  end.

(** The number a string of decimal digits denotes. *)
Definition N_of_decimals (d : str) : N :=
  fold_left (fun acc c => 10 * acc + match digit_value c with Some v => v | None => 0 end)
    d 0.

(** [float(s)] for a text of decimal digits with an optional fraction, the
    shape of the groups the parser converts. *)
Definition py_float (s : str) : E pyfloat :=
  let bad := mk_exn ValueError (lit "could not convert string to float") in
  let '(ip, rest) := span_decimal s in
  match ip with
  | [] => Raise bad
  | _ :: _ =>
      match rest with
      | [] => Ret (FDec false (N_of_decimals ip) 0)
      | c :: r =>
          let '(fd, rest') := span_decimal r in
          match fd, rest' with
          | _ :: _, [] =>
              if c =? 46
              then Ret (FDec false (N_of_decimals (ip ++ fd)) (- Z.of_nat (length fd)))
              else Raise bad
          | _, _ => Raise bad
          end
      end
  end.

(** [20 < x] for a float [x].  The double nearest to a decimal exceeds 20
    exactly when the decimal exceeds 20 + 2^-49, the midpoint between 20
    and the next double (a tie rounds to 20). *)
Definition float_gt_20 (x : pyfloat) : bool :=
  match x with
  | FDec true _ _ => false
  | FDec false m e =>
      let bound := (20 * 2 ^ 49 + 1)%Z in
      if (0 <=? e)%Z
      then (bound <? Z.of_N m * 10 ^ e * 2 ^ 49)%Z
      else (bound * 10 ^ (- e) <? Z.of_N m * 2 ^ 49)%Z
  | FInf neg => negb neg
  | FNaN => false
  end.

(** [min(x, 20)]: the int 20 when [20 < x], else [x] itself. *)
Definition min_20 (x : pyfloat) : pyval :=
  if float_gt_20 x then PInt 20 else PFloat x.

(* ===================================================================== *)
(** ** The response parser of [GradingSystem] *)

(** [_sanitize_json_text] *)
Definition _sanitize_json_text (text : str) : E str :=
  (text <- re_sub (lit "```(?:json)?\n?(.*?)```") (lit "\1") text re_DOTALL ;;
   text <- re_sub (lit "//.*?\n|/\*.*?\*/") (lit "") text re_DOTALL ;;
   Ret (strip text))%exn.

(** The [patterns] of [_extract_json_object]. *)
Definition patterns : list str :=
  [ lit "\{(?:[^{}]|(?R))*\}";
    lit "\{[^}]+\}";
    lit "\{.*?\}(?=\s|$)" ].

(** The inner loop [for match in matches]: the first match that
    [json.loads] accepts is returned; a [JSONDecodeError] moves on to the
    next match. *)
Fixpoint first_valid (py : interpreter) (matches : list rmatch_obj) : E (option str) :=
  match matches with
  | [] => Ret None
  | m :: rest =>
      match try_except
              (let json_str := m_group0 m in
               _ <- json_loads py json_str ;; Ret (Some json_str))%exn
              JSONDecodeError (fun _ => Ret None) with
      | Raise e => Raise e
      | Ret (Some json_str) => Ret (Some json_str)
      | Ret None => first_valid py rest
      end
  end.

(** The outer loop [for pattern in patterns]. *)
Fixpoint try_patterns (py : interpreter) (ps : list str) (text : str) : E (option str) :=
  match ps with
  | [] => Ret None
  | pattern :: ps' =>
      (matches <- re_finditer pattern text re_DOTALL ;;
       found <- first_valid py matches ;;
       match found with
       | Some json_str => Ret (Some json_str)
       | None => try_patterns py ps' text
       end)%exn
  end.

(** [_extract_json_object], [py] being the limits where it runs. *)
Definition _extract_json_object (py : interpreter) (text : str) : E (option str) :=
  try_patterns py patterns text.

Definition score_patterns : list str :=
  [ lit "(?:score|grade|marks?)[:\s]+(\d+(?:\.\d+)?)";
    lit "(\d+(?:\.\d+)?)\s*(?:/|\s*out\s*of\s*" ++ lit ")(?:20|twenty)" ].

(** The loop over [score_patterns]: the first pattern that is found sets
    the score and ends the loop. *)
Fixpoint extract_score (ps : list str) (cleaned_text : str) (extracted : dict) : E dict :=
  match ps with
  | [] => Ret extracted
  | pattern :: ps' =>
      (found <- re_search pattern cleaned_text re_IGNORECASE ;;
       match found with
       | Some m =>
           x <- py_float (match group m 1 with Some g => g | None => [] end) ;;
           Ret (dict_set extracted (lit "score") (min_20 x))
       | None => extract_score ps' cleaned_text extracted
       end)%exn
  end.

(** The pattern that cuts the improvements; its second alternative is the
    three characters U+00E2 U+20AC U+00A2 of the source. *)
Definition split_pattern : str :=
  lit "(?:\d+\.|" ++ [226; 8364; 162] ++ lit "|-|\n)+".

(** The fallback of [_parse_json_response]: "structured extraction". *)
Definition structured_extraction (response cleaned_text : str) : E pyval :=
  (let extracted :=
     dict_of [ (lit "score", PInt 0);
               (lit "feedback", PStr []);
               (lit "improvements", PList []);
               (lit "breakdown", PDict []);
               (lit "raw_llm_output", PStr response) ] in
   extracted <- extract_score score_patterns cleaned_text extracted ;;
   feedback_match <-
     re_search (lit "(?:feedback|comments?)[:\s]+([^\n]+)") cleaned_text re_IGNORECASE ;;
   let extracted :=
     match feedback_match with
     | Some m =>
         dict_set extracted (lit "feedback")
           (PStr (strip (match group m 1 with Some g => g | None => [] end)))
     | None => extracted
     end in
   improvements_section <-
     re_search (lit "(?:improvements?|suggestions?)[:\s]+((?:[^\n]+\n?)+)")
       cleaned_text re_IGNORECASE ;;
   extracted <-
     match improvements_section with
     | Some m =>
         improvements <-
           re_split split_pattern (match group m 1 with Some g => g | None => [] end) ;;
         Ret (dict_set extracted (lit "improvements")
                (PList (map (fun imp => PStr (strip imp))
                          (filter (fun imp => negb (str_eqb (strip imp) [])) improvements))))
     | None => Ret extracted
     end ;;
   breakdown_matches <-
     re_findall2 (lit "(?:question|part|section)\s*(\d+)[:\s]+(\d+(?:\.\d+)?)")
       cleaned_text re_IGNORECASE ;;
   extracted <-
     match breakdown_matches with
     | [] => Ret extracted
     | _ :: _ =>
         kvs <-
           fold_right
             (fun qs acc =>
                x <- py_float (snd qs) ;;
                rest <- acc ;;
                Ret ((lit "question" ++ fst qs, PFloat x) :: rest))
             (Ret []) breakdown_matches ;;
         Ret (dict_set extracted (lit "breakdown") (PDict (dict_of kvs)))
     end ;;
   Ret (PDict extracted))%exn.

(** The record the parser returns when anything inside it raised. *)
Definition parse_error_record (e : exn) (response : str) : pyval :=
  PDict (dict_of
    [ (lit "score", PInt 0);
      (lit "feedback", PStr (lit "Error parsing model response"));
      (lit "improvements", PList [PStr (lit "Unable to parse model response")]);
      (lit "breakdown", PDict (dict_of [(lit "error", PStr (str_of_exn e))]));
      (lit "raw_llm_output", PStr response) ]).

(** The body of the outer [try] of [_parse_json_response]. *)
Definition parse_body (py : interpreter) (response : str) : E pyval :=
  (cleaned_text <- _sanitize_json_text response ;;
   try_except (json_loads py cleaned_text) JSONDecodeError
     (fun _ =>
        json_str <- _extract_json_object (deeper py) cleaned_text ;;
        match json_str with
        | Some ((_ :: _) as j) => json_loads py j
        | _ => structured_extraction response cleaned_text
        end))%exn.

(** [_parse_json_response], [py] being the limits where it runs. *)
Definition _parse_json_response (py : interpreter) (response : str) : E pyval :=
  try_except_Exception (parse_body py response)
    (fun e => Ret (parse_error_record e response)).

(* ===================================================================== *)
(** ** The state of a [GradingSystem] and the outside world *)

(** The attributes set by [__init__].  A client object is represented by
    the API key it was built with. *)
Record GradingSystem := mk_GradingSystem
  { local_models : list str;
    online_models : odict (list str);
    openai_client : option str;
    claude_client : option str;
    groq_api_key : option str }.

(** What [requests.get] / [requests.post] returns: [response.ok] and what
    reading the payload gives. *)
Record response (A : Type) := mk_response { ok : bool; payload : E A }.

(** The reply of the Claude messages call. *)
Inductive claude_reply :=
| ClaudeContent (text : str)        (* response.content[0].text *)
| ClaudeCompletion (completion : str)
| ClaudeNeither.

(** The reply of the Groq chat call: [ok], [response.text] and the content
    of the first choice (with its default). *)
Record groq_reply := mk_groq_reply
  { g_ok : bool; g_text : str; g_content : E str }.

(** What iterating the Ollama stream gives: chunks, possibly ended by an
    exception. *)
Inductive stream_item :=
| ChunkMessage (content : str)      (* a dict with a "message" *)
| ChunkOther                        (* any other chunk *)
| StreamRaise (e : exn).

(** The answers of the outside world during one method call.  A network
    endpoint is consulted at most once by a method; the two client
    constructors make no network call and give the same answer each time
    they are given the same key.  The replies of the models are texts. *)
Record world := mk_world
  { environ : str -> option str;                       (* os.environ *)
    openai_Client : str -> E unit;                     (* openai.Client(api_key=k) *)
    anthropic_Client : str -> E unit;                  (* anthropic.Client(api_key=k) *)
    get_ollama_tags : E (response (list str));         (* names of the models *)
    get_anthropic_models : str -> E (response (list str));
    get_groq_models : str -> E (response (list (str * bool)));  (* id, active *)
    openai_models_list : str -> E (list str);          (* ids of response.data *)
    openai_chat : str -> str -> str -> E (option str); (* key, model, prompt *)
    claude_messages : str -> str -> str -> E claude_reply;
    post_groq_chat : str -> str -> str -> E groq_reply;
    ollama_chat : str -> str -> E (list stream_item);  (* model, prompt *)
    interp : interpreter }.       (* the limits where the parser runs *)

(** The network calls a method makes, with the credential each one sends. *)
Inductive endpoint :=
| OllamaTags | OpenAIModels | AnthropicModels | GroqModels
| OpenAIChat | ClaudeMessages | GroqChat | OllamaChat.

Record net_call := mk_call { call_to : endpoint; credential : option str }.

(** A method: it reads and writes the attributes, makes network calls, and
    returns or raises.  The attributes written before an exception stay
    written. *)
Definition M (A : Type) := GradingSystem -> GradingSystem * list net_call * E A.

Definition retM {A} (a : A) : M A := fun gs => (gs, [], Ret a).
Definition raiseM {A} (e : exn) : M A := fun gs => (gs, [], Raise e).

Definition bindM {A B} (m : M A) (f : A -> M B) : M B :=
  fun gs =>
    match m gs with
    | (gs1, log1, Raise e) => (gs1, log1, Raise e)
    | (gs1, log1, Ret a) =>
        let '(gs2, log2, r) := f a gs1 in (gs2, log1 ++ log2, r)
    end.

Declare Scope method_scope.
Delimit Scope method_scope with M.
Notation "x <- m ;; k" := (bindM m (fun x => k))
  (at level 61, m at next level, right associativity) : method_scope.
Notation "m ;;; k" := (bindM m (fun _ => k))
  (at level 61, right associativity) : method_scope.

Definition self {A} (f : GradingSystem -> A) : M A := fun gs => (gs, [], Ret (f gs)).
Definition assign (f : GradingSystem -> GradingSystem) : M unit :=
  fun gs => (f gs, [], Ret tt).
Definition liftE {A} (r : E A) : M A := fun gs => (gs, [], r).
Definition net {A} (c : net_call) (r : E A) : M A := fun gs => (gs, [c], r).

(** [try: body  except cls as e: handler(e)] for methods. *)
Definition tryM {A} (body : M A) (cls : exn_class) (handler : exn -> M A) : M A :=
  fun gs =>
    match body gs with
    | (gs1, log1, Raise e) =>
        if isinstance e cls
        then let '(gs2, log2, r) := handler e gs1 in (gs2, log1 ++ log2, r)
        else (gs1, log1, Raise e)
    | res => res
    end.

(** [try: body  except Exception as e: handler(e)] for methods. *)
Definition tryM_Exception {A} (body : M A) (handler : exn -> M A) : M A :=
  fun gs =>
    match body gs with
    | (gs1, log1, Raise e) =>
        let '(gs2, log2, r) := handler e gs1 in (gs2, log1 ++ log2, r)
    | res => res
    end.

Definition state_of {A} (r : GradingSystem * list net_call * E A) : GradingSystem :=
  fst (fst r).
Definition calls_of {A} (r : GradingSystem * list net_call * E A) : list net_call :=
  snd (fst r).
Definition result_of {A} (r : GradingSystem * list net_call * E A) : E A := snd r.

Definition set_local_models (v : list str) (gs : GradingSystem) :=
  mk_GradingSystem v (online_models gs) (openai_client gs) (claude_client gs) (groq_api_key gs).
Definition set_online_models (v : odict (list str)) (gs : GradingSystem) :=
  mk_GradingSystem (local_models gs) v (openai_client gs) (claude_client gs) (groq_api_key gs).
Definition set_openai_client (v : option str) (gs : GradingSystem) :=
  mk_GradingSystem (local_models gs) (online_models gs) v (claude_client gs) (groq_api_key gs).
Definition set_claude_client (v : option str) (gs : GradingSystem) :=
  mk_GradingSystem (local_models gs) (online_models gs) (openai_client gs) v (groq_api_key gs).
Definition set_groq_api_key (v : option str) (gs : GradingSystem) :=
  mk_GradingSystem (local_models gs) (online_models gs) (openai_client gs) (claude_client gs) v.

(** [self.online_models[k] = v] *)
Definition set_online (k : str) (v : list str) (gs : GradingSystem) :=
  set_online_models (dict_set (online_models gs) k v) gs.

(* ===================================================================== *)
(** ** Credentials and the model registry *)

(** [_validate_api_key] *)
Definition _validate_api_key (w : world) (api_key provider : str) : M bool :=
  tryM_Exception
    (if str_eqb (lower provider) (lit "groq") then
       (response <- net (mk_call GroqModels (Some api_key)) (get_groq_models w api_key) ;;
        retM (ok response))%M
     else if str_eqb (lower provider) (lit "anthropic") then
       (response <- net (mk_call AnthropicModels (Some api_key)) (get_anthropic_models w api_key) ;;
        retM (ok response))%M
     else if str_eqb (lower provider) (lit "openai") then
       (liftE (openai_Client w api_key) ;;;
        net (mk_call OpenAIModels (Some api_key)) (openai_models_list w api_key) ;;;
        retM true)%M
     else retM false)
    (fun _ => retM false).

(** A text is true when it is not empty; [None] is false. *)
Definition truthy (k : option str) : bool :=
  match k with
  | Some (_ :: _) => true
  | _ => false
  end.

(** [_init_api_clients] *)
Definition _init_api_clients (w : world) : M unit :=
  (let openai_key := environ w (lit "OPENAI_API_KEY") in
   (match openai_key with
    | Some ((_ :: _) as k) =>
        valid <- _validate_api_key w k (lit "openai") ;;
        if valid then
          tryM_Exception
            (liftE (openai_Client w k) ;;; assign (set_openai_client (Some k)))
            (fun _ => assign (set_openai_client None))
        else retM tt
    | _ => retM tt
    end) ;;;
   let anthropic_key := environ w (lit "ANTHROPIC_API_KEY") in
   (match anthropic_key with
    | Some ((_ :: _) as k) =>
        valid <- _validate_api_key w k (lit "anthropic") ;;
        if valid then
          tryM_Exception
            (liftE (anthropic_Client w k) ;;; assign (set_claude_client (Some k)))
            (fun _ => assign (set_claude_client None))
        else retM tt
    | _ => retM tt
    end) ;;;
   let groq_key := environ w (lit "GROQ_API_KEY") in
   match groq_key with
   | Some ((_ :: _) as k) =>
       valid <- _validate_api_key w k (lit "groq") ;;
       if valid then assign (set_groq_api_key groq_key)
       else assign (set_groq_api_key None)
   | _ => assign (set_groq_api_key None)
   end)%M.

(** The loop of [_get_provider_from_model] over [online_models.items()]. *)
Fixpoint first_provider (items : odict (list str)) (model : str) : option str :=
  match items with
  | [] => None
  | (provider, models) :: rest =>
      if str_in model models then Some provider else first_provider rest model
  end.

(** [_get_provider_from_model] *)
Definition _get_provider_from_model (gs : GradingSystem) (model : str) : str :=
  if str_in model (local_models gs) then lit "local"
  else
    match first_provider (online_models gs) model with
    | Some provider => provider
    | None => lit "local"
    end.

(** The statements inside the outer [try] of [refresh_available_models]. *)
Definition refresh_local (w : world) : M unit :=
  tryM
    (response <- net (mk_call OllamaTags None) (get_ollama_tags w) ;;
     if ok response then
       (names <- liftE (payload response) ;;
        assign (set_local_models names))
     else retM tt)%M
    RequestException
    (fun _ => assign (set_local_models [])).

Definition refresh_openai (w : world) : M unit :=
  (client <- self openai_client ;;
   match client with
   | Some k =>
       ids <- net (mk_call OpenAIModels (Some k)) (openai_models_list w k) ;;
       assign (set_online (lit "openai")
                 (filter (fun id => startswith (lit "gpt-3") id || startswith (lit "gpt-4") id)
                    ids))
   | None => retM tt
   end)%M.

Definition refresh_claude (w : world) : M unit :=
  (client <- self claude_client ;;
   match client with
   | Some _ =>
       key <- liftE (match environ w (lit "ANTHROPIC_API_KEY") with
                     | Some k => Ret k
                     | None => Raise (mk_exn KeyError (lit "'ANTHROPIC_API_KEY'"))
                     end) ;;
       response <- net (mk_call AnthropicModels (Some key)) (get_anthropic_models w key) ;;
       if ok response then
         (ids <- liftE (payload response) ;;
          assign (set_online (lit "claude") ids))
       else retM tt
   | None => retM tt
   end)%M.

Definition refresh_groq (w : world) : M unit :=
  (key <- self groq_api_key ;;
   match key with
   | Some ((_ :: _) as k) =>
       response <- net (mk_call GroqModels (Some k)) (get_groq_models w k) ;;
       if ok response then
         (data <- liftE (payload response) ;;
          assign (set_online (lit "groq") (map fst (filter snd data))))
       else retM tt
   | _ => retM tt
   end)%M.

Definition refresh_body (w : world) : M unit :=
  (refresh_local w ;;; refresh_openai w ;;; refresh_claude w ;;; refresh_groq w)%M.

(** [refresh_available_models] *)
Definition refresh_available_models (w : world) : M unit :=
  tryM_Exception (refresh_body w)
    (fun _ => (assign (set_local_models []) ;;; assign (set_online_models []))%M).

(** [__init__]: the attributes, then the two calls, each with the world
    as it is when the call is made. *)
Definition GradingSystem_new : GradingSystem :=
  mk_GradingSystem [] [] None None None.

Definition GradingSystem_init (w_clients w_refresh : world) : M unit :=
  (_init_api_clients w_clients ;;; refresh_available_models w_refresh)%M.

(** [get_available_models] *)
Definition get_available_models (w : world) (provider : str) : M (list str) :=
  tryM_Exception
    (if str_eqb provider (lit "Local Only") then
       (found <-
          tryM (response <- net (mk_call OllamaTags None) (get_ollama_tags w) ;;
                if ok response then
                  (names <- liftE (payload response) ;; retM (Some names))
                else retM None)%M
            RequestException (fun _ => retM None) ;;
        match found with
        | Some names => retM names
        | None => retM []
        end)%M
     else
       (online <- self online_models ;;
        match dict_get online (lower provider) with
        | Some models => retM models
        | None => retM []
        end)%M)
    (fun _ => retM []).

(* ===================================================================== *)
(** ** The provider gateway *)

(** The caller's progress callback: it is handed a dict and may raise. *)
Definition callback := pyval -> E unit.

(** [_call_openai_api] *)
Definition _call_openai_api (w : world) (prompt model : str) : M str :=
  (client <- self openai_client ;;
   match client with
   | None => raiseM (mk_exn ValueError (lit "OpenAI client not initialized"))
   | Some k =>
       tryM_Exception
         (content <- net (mk_call OpenAIChat (Some k)) (openai_chat w k model prompt) ;;
          retM (match content with
                | Some ((_ :: _) as c) => c
                | _ => lit "{}"
                end))
         (fun e => raiseM e)
   end)%M.

(** [_call_claude_api] *)
Definition _call_claude_api (w : world) (prompt model : str) : M str :=
  (client <- self claude_client ;;
   match client with
   | None => raiseM (mk_exn ValueError (lit "Claude client not initialized"))
   | Some k =>
       tryM_Exception
         (reply <- net (mk_call ClaudeMessages (Some k))
                     (claude_messages w k model
                        (lit "You are a grading assistant. Respond with JSON only."
                           ++ nl ++ nl ++ prompt)) ;;
          retM (match reply with
                | ClaudeContent text => text
                | ClaudeCompletion completion => completion
                | ClaudeNeither => lit "{}"
                end))
         (fun e => raiseM e)
   end)%M.

(** [_call_groq_api] *)
Definition _call_groq_api (w : world) (prompt model : str) : M str :=
  (key <- self groq_api_key ;;
   match key with
   | Some ((_ :: _) as k) =>
       tryM_Exception
         (reply <- net (mk_call GroqChat (Some k)) (post_groq_chat w k model prompt) ;;
          if g_ok reply then liftE (g_content reply)
          else raiseM (mk_exn OtherException (lit "Groq API error: " ++ g_text reply)))
         (fun e => raiseM e)
   | _ => raiseM (mk_exn ValueError (lit "Groq API key not configured"))
   end)%M.

(** The loop [for chunk in response] of [_call_ollama_api]. *)
Fixpoint consume_stream (chunks : list stream_item) (update_callback : option callback)
    (full_response : str) : E str :=
  match chunks with
  | [] => Ret full_response
  | StreamRaise e :: _ => Raise e
  | ChunkOther :: rest => consume_stream rest update_callback full_response
  | ChunkMessage content :: rest =>
      let full_response := full_response ++ content in
      match update_callback with
      | Some cb =>
          match cb (PDict (dict_of [ (lit "raw_output", PStr full_response);
                                     (lit "status", PStr (lit "streaming")) ])) with
          | Raise e => Raise e
          | Ret _ => consume_stream rest update_callback full_response
          end
      | None => consume_stream rest update_callback full_response
      end
  end.

(** [_call_ollama_api] *)
Definition _call_ollama_api (w : world) (prompt model : str)
    (update_callback : option callback) : M str :=
  tryM_Exception
    (chunks <- net (mk_call OllamaChat None) (ollama_chat w model prompt) ;;
     liftE (consume_stream chunks update_callback []))%M
    (fun e => raiseM e).

(* ===================================================================== *)
(** ** [evaluate_submission] *)

Record request := mk_request
  { student_solution : str;
    ideal_solution : str;
    grading_instructions : str;
    model : str;
    update_callback : option callback;
    api_key : option str }.

Definition json_format_prompts : odict str :=
  dict_of
    [ (lit "openai", nl ++ lit "Respond with a valid JSON object only, no additional text.");
      (lit "claude", nl ++ lit "Provide response as a JSON object, no other text.");
      (lit "groq", nl ++ lit "Output only a valid JSON object, nothing else.");
      (lit "local", nl ++ lit "Format response as valid JSON.") ].

Definition lines (ls : list str) : str :=
  match ls with
  | [] => []
  | l :: rest => l ++ concat (map (fun x => nl ++ x) rest)
  end.

(** The prompt of the f-string. *)
Definition build_prompt (r : request) (provider : str) : str :=
  lines
    [ lit "Grade this student solution following these instructions:";
      [];
      lit "GRADING INSTRUCTIONS:";
      grading_instructions r;
      [];
      lit "IDEAL SOLUTION:";
      ideal_solution r;
      [];
      lit "STUDENT SOLUTION:";
      student_solution r;
      [];
      lit "Respond with a JSON object containing:";
      lit "{";
      litq "    'score': <number between 0-20>,";
      litq "    'feedback': '<detailed feedback>',";
      litq "    'improvements': ['<specific improvement suggestions>'],";
      litq "    'breakdown': {";
      litq "        'question1': <score>,";
      litq "        'question2': <score>,";
      lit "        ...";
      lit "    }";
      lit "}";
      [];
      match dict_get json_format_prompts provider with
      | Some suffix => suffix
      | None => []
      end ].

(** The name Python gives the type of a value in its messages. *)
Definition type_name (v : pyval) : str :=
  match v with
  | PNone => lit "NoneType"
  | PBool _ => lit "bool"
  | PInt _ => lit "int"
  | PFloat _ => lit "float"
  | PStr _ => lit "str"
  | PList _ => lit "list"
  | PDict _ => lit "dict"
  end.

(** [result[key] = value] with a text key. *)
Definition setitem (result : pyval) (key : str) (value : pyval) : E pyval :=
  match result with
  | PDict d => Ret (PDict (dict_set d key value))
  | PList _ =>
      Raise (mk_exn TypeError (lit "list indices must be integers or slices, not str"))
  | _ =>
      Raise (mk_exn TypeError
               (lit "'" ++ type_name result ++ lit "' object does not support item assignment"))
  end.

(** The record returned when the call of the model or what follows it
    raised. *)
Definition api_error_record (e : exn) : pyval :=
  PDict (dict_of
    [ (lit "score", PInt 0);
      (lit "feedback", PStr (lit "Error calling API: " ++ str_of_exn e));
      (lit "improvements", PList [PStr (lit "API call failed")]);
      (lit "breakdown", PDict (dict_of [(lit "error", PStr (str_of_exn e))]));
      (lit "raw_llm_output", PStr (str_of_exn e)) ]).

(** The record returned when anything before the call of the model
    raised. *)
Definition system_error_record (e : exn) : pyval :=
  PDict (dict_of
    [ (lit "score", PInt 0);
      (lit "feedback", PStr (lit "Error during grading: " ++ str_of_exn e));
      (lit "improvements", PList [PStr (lit "System error occurred")]);
      (lit "breakdown", PDict (dict_of [(lit "error", PStr (str_of_exn e))]));
      (lit "raw_llm_output", PStr (str_of_exn e)) ]).

(** [online_models.get(tag, [])] *)
Definition online_get (gs : GradingSystem) (tag : str) : list str :=
  match dict_get (online_models gs) tag with
  | Some models => models
  | None => []
  end.

(** The first statement of the outer [try]: the override key. *)
Definition use_api_key (w : world) (r : request) : M unit :=
  match api_key r with
  | Some ((_ :: _) as k) =>
      (provider <- self (fun gs => _get_provider_from_model gs (model r)) ;;
       valid <- _validate_api_key w k provider ;;
       if valid then
         if str_eqb provider (lit "groq") then assign (set_groq_api_key (Some k))
         else if str_eqb provider (lit "anthropic") then
           (liftE (anthropic_Client w k) ;;; assign (set_claude_client (Some k)))
         else if str_eqb provider (lit "openai") then
           (liftE (openai_Client w k) ;;; assign (set_openai_client (Some k)))
         else retM tt
       else raiseM (mk_exn ValueError (lit "Invalid API key for " ++ provider)))%M
  | _ => retM tt
  end.

(** The [if]/[elif] chain of the inner [try]: the call of the model that
    the registry [gs] selects. *)
Definition gateway_call (w : world) (r : request) (prompt : str) (gs : GradingSystem)
  : M str :=
  if str_in (model r) (online_get gs (lit "openai"))
  then _call_openai_api w prompt (model r)
  else if str_in (model r) (online_get gs (lit "claude"))
  then _call_claude_api w prompt (model r)
  else if str_in (model r) (online_get gs (lit "groq"))
  then _call_groq_api w prompt (model r)
  else _call_ollama_api w prompt (model r) (update_callback r).

(** The body of the inner [try]: the call of the model, the parser, the
    callback. *)
Definition call_and_parse_body (w : world) (r : request) (prompt : str) : M pyval :=
  (gs <- self (fun gs => gs) ;;
   response <- gateway_call w r prompt gs ;;
   result <- liftE (_parse_json_response (interp w) response) ;;
   result <- liftE (setitem result (lit "raw_llm_output") (PStr response)) ;;
   match update_callback r with
   | Some cb =>
       liftE (cb (PDict (dict_of [ (lit "raw_output", PStr response);
                                   (lit "parsed_result", result);
                                   (lit "status", PStr (lit "completed")) ]))) ;;;
       retM result
   | None => retM result
   end)%M.

(** The inner [try] with its handler. *)
Definition call_and_parse (w : world) (r : request) (prompt : str) : M pyval :=
  tryM_Exception (call_and_parse_body w r prompt)
    (fun e => retM (api_error_record e)).

(** The body of the outer [try]. *)
Definition evaluate_body (w : world) (r : request) : M pyval :=
  (use_api_key w r ;;;
   provider <- self (fun gs => _get_provider_from_model gs (model r)) ;;
   call_and_parse w r (build_prompt r provider))%M.

(** [evaluate_submission] *)
Definition evaluate_submission (w : world) (r : request) : M pyval :=
  tryM_Exception (evaluate_body w r)
    (fun e => retM (system_error_record e)).

(* ===================================================================== *)
(** ** The life of a [GradingSystem] *)

(** What a client of the class does with an instance once it is built. *)
Inductive op :=
| Refresh (w : world)                  (* refresh_available_models() *)
| Evaluate (w : world) (r : request).  (* evaluate_submission(...) *)

Definition step (o : op) (gs : GradingSystem) : GradingSystem :=
  match o with
  | Refresh w => state_of (refresh_available_models w gs)
  | Evaluate w r => state_of (evaluate_submission w r gs)
  end.

Definition run (ops : list op) (gs : GradingSystem) : GradingSystem :=
  fold_left (fun g o => step o g) ops gs.

(** The states an instance can be in: built by [__init__], then used. *)
Inductive reachable : GradingSystem -> Prop :=
| reach_init w_clients w_refresh :
    reachable (state_of (GradingSystem_init w_clients w_refresh GradingSystem_new))
| reach_step o gs : reachable gs -> reachable (step o gs).

(** An operation that supplies no override key. *)
Definition no_override (o : op) : bool :=
  match o with
  | Refresh _ => true
  | Evaluate _ r => negb (truthy (api_key r))
  end.

(** A float between 0 and 20. *)
Definition float_in_range (x : pyfloat) : bool :=
  match x with
  | FDec neg m e => (negb neg || (m =? 0)) && negb (float_gt_20 x)
  | _ => false
  end.

(** A record whose [score] is present, a number, and between 0 and 20. *)
Definition score_ok (v : pyval) : bool :=
  match v with
  | PDict d =>
      match dict_get d (lit "score") with
      | Some (PInt z) => (0 <=? z)%Z && (z <=? 20)%Z
      | Some (PFloat x) => float_in_range x
      | _ => false
      end
  | _ => false
  end.

(* ===================================================================== *)
(** ** The compiled forms of the sanitizer's patterns *)

(** The fence pattern of [_sanitize_json_text], as [re_compile] reads it:
    three backticks, an optional [json], an optional newline, a lazy
    group, three backticks. *)
Definition fence_re : regex :=
  RCat (RLit 96) (RCat (RLit 96) (RCat (RLit 96)
    (RCat (RAlt (RCat (RLit 106) (RCat (RLit 115) (RCat (RLit 111) (RLit 110)))) REmpty)
       (RCat (RAlt (RLit 10) REmpty)
          (RCat (RGroup 1 (RStar false RAny))
             (RCat (RLit 96) (RCat (RLit 96) (RLit 96)))))))).

(** The comment pattern: a line comment up to its newline, or a block
    comment. *)
Definition comment_re : regex :=
  RAlt (RCat (RLit 47) (RCat (RLit 47) (RCat (RStar false RAny) (RLit 10))))
       (RCat (RLit 47) (RCat (RLit 42) (RCat (RStar false RAny) (RCat (RLit 42) (RLit 47))))).

(** The end of the fence pattern: the lazy group and the closing
    backticks. *)
Definition tail_re : regex :=
  RCat (RGroup 1 (RStar false RAny)) (RCat (RLit 96) (RCat (RLit 96) (RLit 96))).

(** The loop [rmatch] runs for a lazy star over any character. *)
Definition lazy_any (f : flags) (k : str -> caps -> option (str * caps)) :=
  fix loop (n : nat) (s : str) (c : caps) {struct n} : option (str * caps) :=
    match n with
    | O => k s c
    | S n' =>
        match k s c with
        | Some res => Some res
        | None =>
            rmatch f RAny s c
              (fun s' c' => if (length s' <? length s)%nat then loop n' s' c' else None)
        end
    end.

(** A text without backtick. *)
Definition no_backtick (body : str) : bool := forallb (fun x => negb (x =? 96)) body.

(** The exception [re] raises on the first pattern of
    [_extract_json_object]. *)
Definition unknown_extension_R : exn :=
  re_error (lit "unknown extension ?R") 12.

(* ===================================================================== *)
(** ** The HTTP endpoints of [api.py] *)

(** [Config.DEFAULT_MODEL] *)
Definition DEFAULT_MODEL : str := lit "llama2:3.2".

(** The body of a request to [/api/grade]; [model] defaults to
    [DEFAULT_MODEL]. *)
Record GradingRequest := mk_GradingRequest
  { request_student_solution : str;
    request_ideal_solution : str;
    request_grading_instructions : str;
    request_model : str }.

Record APIResponse := mk_APIResponse
  { status : str; data : dict; message : str }.

(** What an endpoint can raise: a Python exception, or the framework's
    [HTTPException], which is an [Exception] too. *)
Inductive api_exn :=
| Py (e : exn)
| HTTPException (status_code : N) (detail : str).

Inductive R (A : Type) :=
| Fail (e : api_exn)
| Done (a : A).
Arguments Fail {A} e.
Arguments Done {A} a.

Definition bindR {A B} (m : R A) (f : A -> R B) : R B :=
  match m with
  | Fail e => Fail e
  | Done a => f a
  end.

Definition liftR {A} (m : E A) : R A :=
  match m with
  | Raise e => Fail (Py e)
  | Ret a => Done a
  end.

(** [try: body  except Exception as e: handler(e)] in an endpoint. *)
Definition try_except_R {A} (body : R A) (handler : api_exn -> R A) : R A :=
  match body with
  | Fail e => handler e
  | Done a => Done a
  end.

(** What [requests.get] returns to [list_models]. *)
Record tags_response := mk_tags_response
  { tags_ok : bool; tags_status_code : N; tags_json : E pyval }.

Section Endpoints.

(** The validation of a field declared [Dict]: a dict is accepted as it
    is. *)
Variable validate_Dict : pyval -> E dict.

(** [str(e)] for an [HTTPException] with the given status code and
    detail; it depends on the version of the framework. *)
Variable str_of_HTTPException : N -> str -> str.

Definition str_of_api_exn (e : api_exn) : str :=
  match e with
  | Py e => str_of_exn e
  | HTTPException status_code detail => str_of_HTTPException status_code detail
  end.

(** [APIResponse(status=..., data=..., message=...)] *)
Definition APIResponse_new (status : str) (data : pyval) (message : str)
  : E APIResponse :=
  (d <- validate_Dict data ;; Ret (mk_APIResponse status d message))%exn.

(** [grade_submission], on the module's [grading_system]. *)
Definition grade_submission (w : world) (request : GradingRequest)
    (grading_system : GradingSystem) : GradingSystem * list net_call * R APIResponse :=
  let '(gs, log, result) :=
    evaluate_submission w
      (mk_request (request_student_solution request) (request_ideal_solution request)
         (request_grading_instructions request) (request_model request) None None)
      grading_system in
  (gs, log,
   try_except_R
     (bindR (liftR result) (fun grading_result =>
        liftR (APIResponse_new (lit "success") grading_result
                 (lit "Grading completed successfully"))))
     (fun e => Fail (HTTPException 500 (lit "Grading failed: " ++ str_of_api_exn e)))).

(** [list_models]; [get] is what [requests.get] gives. *)
Definition list_models (get : E tags_response) : R pyval :=
  try_except_R
    (bindR (liftR get) (fun response =>
       if negb (tags_ok response) then
         Fail (HTTPException (tags_status_code response) (lit "Failed to fetch models"))
       else liftR (tags_json response)))
    (fun e => Fail (HTTPException 500 (lit "Failed to fetch models: " ++ str_of_api_exn e))).

End Endpoints.

(* ===================================================================== *)
(** ** Sample worlds and requests *)

Definition connection_refused : exn :=
  mk_exn RequestException (lit "connection refused").

(** The default limits, met some hundred calls down the stack. *)
Definition python_default : interpreter := mk_interpreter 900 4300.

(** Nothing answers: no key in the environment, every network call fails. *)
Definition world_offline : world :=
  mk_world (fun _ => None) (fun _ => Ret tt) (fun _ => Ret tt)
    (Raise connection_refused)
    (fun _ => Raise connection_refused)
    (fun _ => Raise connection_refused)
    (fun _ => Raise connection_refused)
    (fun _ _ _ => Raise connection_refused)
    (fun _ _ _ => Raise connection_refused)
    (fun _ _ _ => Raise connection_refused)
    (fun _ _ => Raise connection_refused)
    python_default.

(** Ollama serves [llama3]; OpenAI accepts every key, lists two models
    and answers a chat with a JSON object; the environment holds an OpenAI
    key. *)
Definition world_openai : world :=
  mk_world
    (fun name => if str_eqb name (lit "OPENAI_API_KEY") then Some (lit "env-key") else None)
    (fun _ => Ret tt) (fun _ => Ret tt)
    (Ret (mk_response true (Ret [lit "llama3"])))
    (fun _ => Raise connection_refused)
    (fun _ => Raise connection_refused)
    (fun _ => Ret [lit "gpt-4"; lit "whisper-1"])
    (fun _ _ _ => Ret (Some (litq "{'score': 18, 'feedback': 'Good'}")))
    (fun _ _ _ => Raise connection_refused)
    (fun _ _ _ => Raise connection_refused)
    (fun _ _ => Raise connection_refused)
    python_default.

(** As [world_openai], but the OpenAI listing now fails. *)
Definition world_openai_down : world :=
  mk_world (environ world_openai) (fun _ => Ret tt) (fun _ => Ret tt)
    (get_ollama_tags world_openai)
    (fun _ => Raise connection_refused)
    (fun _ => Raise connection_refused)
    (fun _ => Raise (mk_exn OtherException (lit "Connection error.")))
    (fun _ _ _ => Raise connection_refused)
    (fun _ _ _ => Raise connection_refused)
    (fun _ _ _ => Raise connection_refused)
    (fun _ _ => Raise connection_refused)
    python_default.

(** As [world_openai], but the Ollama server cannot be reached. *)
Definition world_no_ollama : world :=
  mk_world (environ world_openai) (fun _ => Ret tt) (fun _ => Ret tt)
    (Raise connection_refused)
    (fun _ => Raise connection_refused)
    (fun _ => Raise connection_refused)
    (openai_models_list world_openai)
    (openai_chat world_openai)
    (fun _ _ _ => Raise connection_refused)
    (fun _ _ _ => Raise connection_refused)
    (fun _ _ => Raise connection_refused)
    python_default.

(** Ollama streams a JSON object in two message chunks around a chunk of
    another kind; the Groq endpoint refuses every chat request. *)
Definition world_streaming : world :=
  mk_world (fun _ => None) (fun _ => Ret tt) (fun _ => Ret tt)
    (Ret (mk_response true (Ret [lit "llama3"])))
    (fun _ => Raise connection_refused)
    (fun _ => Raise connection_refused)
    (fun _ => Raise connection_refused)
    (fun _ _ _ => Raise connection_refused)
    (fun _ _ _ => Raise connection_refused)
    (fun _ _ _ => Ret (mk_groq_reply false (lit "rate limit exceeded") (Ret (lit "{}"))))
    (fun _ _ => Ret [ChunkMessage (litq "{'score'"); ChunkOther; ChunkMessage (lit ": 7}")])
    python_default.

(** An instance that holds a Groq key and nothing else. *)
Definition gs_groq : GradingSystem :=
  mk_GradingSystem [] [(lit "groq", [lit "llama2-70b"])] None None (Some (lit "gsk-1")).

(** A request for [model], with an optional override key. *)
Definition sample_request (model : str) (api_key : option str) : request :=
  mk_request (lit "x = 2") (lit "x = 2") (lit "One mark for the value of x.")
    model None api_key.

(* ===================================================================== *)
(** ** Framing of methods *)

(** A method is framed at [gs] by [P] when, started in [gs], it leaves the
    attributes as they are and every network call it makes satisfies
    [P gs]. *)
Definition frame_at A (P : GradingSystem -> net_call -> Prop) (m : M A)
    (gs : GradingSystem) : Prop :=
  state_of (m gs) = gs /\ Forall (P gs) (calls_of (m gs)).

(** A chat call carries the credential the instance holds for that
    provider; the other calls are not constrained. *)
Definition stored_credential (gs : GradingSystem) (c : net_call) : Prop :=
  match call_to c with
  | OpenAIChat => credential c = openai_client gs
  | ClaudeMessages => credential c = claude_client gs
  | GroqChat => credential c = groq_api_key gs
  | _ => True
  end.

(** A method preserves an observation [f] of the attributes. *)
Definition preserves A X (f : GradingSystem -> X) (m : M A) : Prop :=
  forall gs, f (state_of (m gs)) = f gs.

(** A method that makes no network call. *)
Definition silent A (m : M A) : Prop := forall gs, calls_of (m gs) = [].

(** A method that never raises. *)
Definition total A (m : M A) : Prop := forall gs, exists a, result_of (m gs) = Ret a.

(** The contents of the message chunks of a stream, in order. *)
Fixpoint message_contents (chunks : list stream_item) : list str :=
  match chunks with
  | [] => []
  | ChunkMessage content :: rest => content :: message_contents rest
  | _ :: rest => message_contents rest
  end.

(** A stream that ends without an exception. *)
Fixpoint stream_ends (chunks : list stream_item) : bool :=
  match chunks with
  | [] => true
  | StreamRaise _ :: _ => false
  | _ :: rest => stream_ends rest
  end.

(** The list cached under a provider tag, if any. *)
Definition cached (tag : str) (gs : GradingSystem) : option (list str) :=
  dict_get (online_models gs) tag.

(** What holds of the registry of every instance: its tags are the three
    the refresh writes; without an OpenAI client there is no [openai]
    entry; with one, the [openai] entry, if the registry is not empty, is
    the first. *)
Definition registry_ok (gs : GradingSystem) : Prop :=
  (forall p l, In (p, l) (online_models gs) ->
     p = lit "openai" \/ p = lit "claude" \/ p = lit "groq") /\
  (openai_client gs = None -> cached (lit "openai") gs = None) /\
  (openai_client gs <> None ->
     online_models gs = [] \/
     exists l rest, online_models gs = (lit "openai", l) :: rest).

(** The same between the OpenAI step of a refresh and its end: with a
    client, the [openai] entry is there, and first. *)
Definition registry_mid (gs : GradingSystem) : Prop :=
  (forall p l, In (p, l) (online_models gs) ->
     p = lit "openai" \/ p = lit "claude" \/ p = lit "groq") /\
  (openai_client gs = None -> cached (lit "openai") gs = None) /\
  (openai_client gs <> None ->
     exists l rest, online_models gs = (lit "openai", l) :: rest).

(** What holds of the credentials of every instance: a [claude] or a
    [groq] list is cached only when the client or the key is held. *)
Definition registry_creds (gs : GradingSystem) : Prop :=
  (claude_client gs = None -> cached (lit "claude") gs = None) /\
  (truthy (groq_api_key gs) = false -> cached (lit "groq") gs = None).

(** The instance built in [world_openai]. *)
Definition gs_openai : GradingSystem :=
  state_of (GradingSystem_init world_openai world_openai GradingSystem_new).

(* ===================================================================== *)
(** * Properties *)

(** ** Texts *)

Lemma str_eqb_spec a b : reflect (a = b) (str_eqb a b).
Proof.
  revert b; induction a as [|x a IH]; intros [|y b]; simpl;
    try (constructor; congruence).
  destruct (N.eqb_spec x y); simpl.
  - destruct (IH b); constructor; congruence.
  - constructor; congruence.
Qed.

Lemma str_eqb_refl a : str_eqb a a = true.
Proof. destruct (str_eqb_spec a a); congruence. Qed.

Lemma str_eqb_eq a b : str_eqb a b = true <-> a = b.
Proof. destruct (str_eqb_spec a b); split; congruence. Qed.

Lemma str_in_In x l : str_in x l = true <-> In x l.
Proof.
  unfold str_in. rewrite existsb_exists. split.
  - intros [y [Hy He]]. apply str_eqb_eq in He. now subst.
  - intros H. exists x. split; [assumption | apply str_eqb_refl].
Qed.

Lemma lstrip_app_last a c :
  lstrip (a ++ [c]) = match lstrip a with [] => lstrip [c] | r => r ++ [c] end.
Proof.
  induction a as [|x a IH]; simpl; [reflexivity|].
  destruct (isspace x); [exact IH | reflexivity].
Qed.

Lemma rstrip_cons c l :
  rstrip (c :: l) =
  match rstrip l with
  | [] => if isspace c then [] else [c]
  | r => c :: r
  end.
Proof.
  unfold rstrip. simpl rev. rewrite lstrip_app_last.
  destruct (lstrip (rev l)) as [|x r] eqn:H.
  - simpl. destruct (isspace c); reflexivity.
  - rewrite rev_app_distr. simpl.
    destruct (rev r ++ [x]) eqn:H'; [|reflexivity].
    apply app_eq_nil in H'. destruct H' as [_ H']. discriminate.
Qed.

Lemma lstrip_idem l : lstrip (lstrip l) = lstrip l.
Proof.
  induction l as [|c l IH]; simpl; [reflexivity|].
  destruct (isspace c) eqn:Hc; [exact IH|].
  simpl. rewrite Hc. reflexivity.
Qed.

Lemma rstrip_idem l : rstrip (rstrip l) = rstrip l.
Proof. unfold rstrip. rewrite rev_involutive, lstrip_idem. reflexivity. Qed.

Lemma lstrip_rstrip l : lstrip (rstrip l) = rstrip (lstrip l).
Proof.
  induction l as [|c l IH]; [reflexivity|].
  rewrite rstrip_cons. simpl lstrip at 2.
  destruct (isspace c) eqn:Hc.
  - rewrite <- IH. destruct (rstrip l); simpl; [reflexivity|].
    rewrite Hc. reflexivity.
  - rewrite rstrip_cons. destruct (rstrip l); simpl; rewrite Hc; reflexivity.
Qed.

(** Stripping a stripped text changes nothing. *)
Lemma strip_idem l : strip (strip l) = strip l.
Proof.
  unfold strip. rewrite lstrip_rstrip, rstrip_idem, lstrip_idem. reflexivity.
Qed.

(** ** The sanitizer *)

Lemma compile_fence : re_compile (lit "```(?:json)?\n?(.*?)```") = Ret fence_re.
Proof. vm_compute. reflexivity. Qed.

Lemma compile_comment : re_compile (lit "//.*?\n|/\*.*?\*/") = Ret comment_re.
Proof. vm_compute. reflexivity. Qed.

(** [_sanitize_json_text] never raises: both patterns compile, and the
    result is the stripped text after the two substitutions. *)
Lemma _sanitize_json_text_eq text :
  _sanitize_json_text text =
  Ret (strip
         (let text1 := sub_fuel (S (length text)) re_DOTALL fence_re
                         (parse_template (lit "\1")) text in
          sub_fuel (S (length text1)) re_DOTALL comment_re
            (parse_template (lit "")) text1)).
Proof.
  unfold _sanitize_json_text, re_sub.
  rewrite compile_fence. cbn [bindE].
  rewrite compile_comment. reflexivity.
Qed.

(** The fence pattern only matches where three backticks stand. *)
Lemma fence_needs_backticks s :
  startswith (lit "```") s = false -> match_here re_DOTALL fence_re s = None.
Proof.
  intros H. unfold match_here, fence_re.
  cbn [rmatch char_match re_DOTALL IGNORECASE].
  destruct s as [|a s]; [reflexivity|].
  destruct (96 =? a) eqn:Ha; [|reflexivity].
  destruct s as [|b s]; [reflexivity|].
  destruct (96 =? b) eqn:Hb; [|reflexivity].
  destruct s as [|c s]; [reflexivity|].
  destruct (96 =? c) eqn:Hc; [|reflexivity].
  apply N.eqb_eq in Ha, Hb, Hc. subst a b c. cbv in H. discriminate.
Qed.

(** The comment pattern only matches where [//] or [/*] stands. *)
Lemma comment_needs_opener s :
  startswith (lit "//") s = false -> startswith (lit "/*") s = false ->
  match_here re_DOTALL comment_re s = None.
Proof.
  intros H H'. unfold match_here, comment_re.
  cbn [rmatch char_match re_DOTALL IGNORECASE].
  destruct s as [|a s]; [reflexivity|].
  destruct (47 =? a) eqn:Ha; [|reflexivity].
  destruct s as [|b s]; [reflexivity|].
  apply N.eqb_eq in Ha. subst a.
  destruct (47 =? b) eqn:Hb.
  { apply N.eqb_eq in Hb. subst b. cbv in H. discriminate. }
  destruct (42 =? b) eqn:Hb'; [|reflexivity].
  apply N.eqb_eq in Hb'. subst b. cbv in H'. discriminate.
Qed.

Lemma contains_cons p x s :
  contains p (x :: s) = false ->
  startswith p (x :: s) = false /\ contains p s = false.
Proof. simpl contains. intros H. apply orb_false_iff in H. exact H. Qed.

Lemma contains_start p s : contains p s = false -> startswith p s = false.
Proof.
  destruct s; simpl contains; intros H; apply orb_false_iff in H; apply H.
Qed.

Lemma search_from_cons f r b x s :
  match_here f r (x :: s) = None ->
  search_from f r b (x :: s) = search_from f r (x :: b) s.
Proof. intros H. cbn [search_from]. rewrite H. reflexivity. Qed.

Lemma search_from_nil f r b :
  match_here f r [] = None -> search_from f r b [] = None.
Proof. intros H. cbn [search_from]. rewrite H. reflexivity. Qed.

Lemma search_fence_none s b :
  contains (lit "```") s = false -> search_from re_DOTALL fence_re b s = None.
Proof.
  revert b. induction s as [|x s IH]; intros b H.
  - apply search_from_nil, fence_needs_backticks, contains_start, H.
  - apply contains_cons in H. destruct H as [H1 H2].
    rewrite search_from_cons by (apply fence_needs_backticks; exact H1).
    apply IH, H2.
Qed.

Lemma search_comment_none s b :
  contains (lit "//") s = false -> contains (lit "/*") s = false ->
  search_from re_DOTALL comment_re b s = None.
Proof.
  revert b. induction s as [|x s IH]; intros b H H'.
  - apply search_from_nil, comment_needs_opener; apply contains_start; assumption.
  - apply contains_cons in H, H'. destruct H as [H1 H2], H' as [H1' H2'].
    rewrite search_from_cons by (apply comment_needs_opener; assumption).
    apply IH; assumption.
Qed.

Lemma sub_fuel_none n f r t s :
  search_from f r [] s = None -> sub_fuel n f r t s = s.
Proof. intros H. destruct n; simpl; [reflexivity|]. rewrite H. reflexivity. Qed.

(** A text without fence or comment opener is only stripped. *)
Lemma _sanitize_json_text_plain text :
  contains (lit "```") text = false ->
  contains (lit "//") text = false ->
  contains (lit "/*") text = false ->
  _sanitize_json_text text = Ret (strip text).
Proof.
  intros H1 H2 H3. rewrite _sanitize_json_text_eq. cbv zeta.
  rewrite (@sub_fuel_none _ _ _ _ _ (@search_fence_none text [] H1)).
  rewrite (@sub_fuel_none _ _ _ _ _ (@search_comment_none text [] H2 H3)).
  reflexivity.
Qed.

(** ** The JSON extractor *)

Lemma compile_recursive_pattern :
  re_compile (lit "\{(?:[^{}]|(?R))*\}") = Raise unknown_extension_R.
Proof. vm_compute. reflexivity. Qed.

(** The loop over the patterns stops at the first one: compiling it
    raises. *)
Lemma try_patterns_first_raises py rest text :
  try_patterns py (lit "\{(?:[^{}]|(?R))*\}" :: rest) text = Raise unknown_extension_R.
Proof.
  cbn [try_patterns]. unfold re_finditer at 1.
  rewrite compile_recursive_pattern. reflexivity.
Qed.

(** C3: the JSON extractor is specified to try its patterns in turn, to
    return the first candidate that [json.loads] accepts and to return
    [None] when no candidate parses.  The code does neither: its first
    pattern uses the construct [(?R)], which [re] refuses, so the call of
    [re.finditer] raises [re.error] for every text, before any candidate is
    looked at. *)
Theorem _extract_json_object_always_raises (py : interpreter) (text : str) :
  _extract_json_object py text = Raise unknown_extension_R.
Proof.
  unfold _extract_json_object, patterns. apply try_patterns_first_raises.
Qed.

(** What the two remaining patterns alone would give on a reply that
    embeds an object in prose: the candidate the specification expects. *)
Lemma remaining_patterns_find_candidate :
  try_patterns python_default (tl patterns) (litq "Result: {'score': 15} done") =
  Ret (Some (litq "{'score': 15}")).
Proof. vm_compute. reflexivity. Qed.

(** ** The response parser *)

Lemma bindE_Ret_inv A B (m : E A) (f : A -> E B) b :
  bindE m f = Ret b -> exists a, m = Ret a /\ f a = Ret b.
Proof. destruct m as [e|a]; simpl; [discriminate|]. intros H. exists a. auto. Qed.

(** The parser returns a value for every reply. *)
Lemma _parse_json_response_total py response :
  exists v, _parse_json_response py response = Ret v.
Proof.
  unfold _parse_json_response, try_except_Exception.
  destruct (parse_body py response) as [e|v]; eauto.
Qed.

(** When the sanitized reply is not JSON, the body of the parser raises
    the extractor's [re.error]. *)
Lemma parse_body_not_json py response cleaned e :
  _sanitize_json_text response = Ret cleaned ->
  json_loads py cleaned = Raise e ->
  parse_body py response =
  Raise (if isinstance e JSONDecodeError then unknown_extension_R else e).
Proof.
  intros Hs Hj. unfold parse_body. rewrite Hs. cbn [bindE].
  rewrite Hj. unfold try_except.
  destruct (isinstance e JSONDecodeError); [|reflexivity].
  unfold _extract_json_object, patterns.
  rewrite try_patterns_first_raises. reflexivity.
Qed.

(** C2: the reply "Based on review: Score: 15/20. Feedback: Good work
    overall." is specified to give score 15 and feedback "Good work
    overall.".  The code gives the parse-error record instead: score 0,
    feedback "Error parsing model response", the [re.error] of the
    extractor as the breakdown's error. *)
Theorem prose_reply_gives_error_record (py : interpreter) :
  let reply := lit "Based on review: Score: 15/20. Feedback: Good work overall." in
  _parse_json_response py reply =
  Ret (PDict
         [ (lit "score", PInt 0);
           (lit "feedback", PStr (lit "Error parsing model response"));
           (lit "improvements", PList [PStr (lit "Unable to parse model response")]);
           (lit "breakdown",
            PDict [(lit "error", PStr (lit "unknown extension ?R at position 12"))]);
           (lit "raw_llm_output", PStr reply) ]).
Proof. vm_compute. reflexivity. Qed.

(** The heuristic itself, were it reached, gives the specified record. *)
Lemma structured_extraction_prose_reply :
  let reply := lit "Based on review: Score: 15/20. Feedback: Good work overall." in
  structured_extraction reply reply =
  Ret (PDict
         [ (lit "score", PFloat (FDec false 15 0));
           (lit "feedback", PStr (lit "Good work overall."));
           (lit "improvements", PList []);
           (lit "breakdown", PDict []);
           (lit "raw_llm_output", PStr reply) ]).
Proof. vm_compute. reflexivity. Qed.

Lemma parse_error_record_eq e response :
  parse_error_record e response =
  PDict
    [ (lit "score", PInt 0);
      (lit "feedback", PStr (lit "Error parsing model response"));
      (lit "improvements", PList [PStr (lit "Unable to parse model response")]);
      (lit "breakdown", PDict [(lit "error", PStr (str_of_exn e))]);
      (lit "raw_llm_output", PStr response) ].
Proof. reflexivity. Qed.

(** C4: whenever anything inside the parser raises an exception [e], the
    parser returns exactly the terminal record: score 0, feedback "Error
    parsing model response", improvements ["Unable to parse model
    response"], breakdown [{'error': str(e)}] and the original reply as raw
    output; and the parser itself never raises. *)
Theorem _parse_json_response_failure (py : interpreter) (response : str) :
  (forall e, parse_body py response = Raise e ->
     _parse_json_response py response =
     Ret (PDict
            [ (lit "score", PInt 0);
              (lit "feedback", PStr (lit "Error parsing model response"));
              (lit "improvements",
               PList [PStr (lit "Unable to parse model response")]);
              (lit "breakdown", PDict [(lit "error", PStr (str_of_exn e))]);
              (lit "raw_llm_output", PStr response) ])) /\
  (exists v, _parse_json_response py response = Ret v).
Proof.
  split; [|apply _parse_json_response_total].
  intros e H. unfold _parse_json_response. rewrite H.
  cbn [try_except_Exception]. rewrite parse_error_record_eq. reflexivity.
Qed.

Lemma _parse_json_response_failure_witness :
  parse_body python_default (lit "not json") = Raise unknown_extension_R /\
  _parse_json_response python_default (lit "not json") =
  Ret (PDict
         [ (lit "score", PInt 0);
           (lit "feedback", PStr (lit "Error parsing model response"));
           (lit "improvements", PList [PStr (lit "Unable to parse model response")]);
           (lit "breakdown", PDict [(lit "error", PStr (str_of_exn unknown_extension_R))]);
           (lit "raw_llm_output", PStr (lit "not json")) ]).
Proof.
  split; [vm_compute; reflexivity|].
  apply (proj1 (@_parse_json_response_failure python_default (lit "not json"))).
  vm_compute. reflexivity.
Defined.

(** ** The score of a parsed record *)

Lemma dict_get_set_same V (d : odict V) k v : dict_get (dict_set d k v) k = Some v.
Proof.
  induction d as [|[k' v'] d IH]; simpl.
  - rewrite str_eqb_refl. reflexivity.
  - destruct (str_eqb k k') eqn:H; simpl.
    + rewrite str_eqb_refl. reflexivity.
    + rewrite H. exact IH.
Qed.

Lemma dict_get_set_other V (d : odict V) k k' v :
  str_eqb k' k = false -> dict_get (dict_set d k v) k' = dict_get d k'.
Proof.
  intros Hk. induction d as [|[k0 v0] d IH]; simpl.
  - rewrite Hk. reflexivity.
  - destruct (str_eqb k k0) eqn:H; simpl.
    + rewrite Hk. apply str_eqb_eq in H. subst k0. rewrite Hk. reflexivity.
    + destruct (str_eqb k' k0); [reflexivity|exact IH].
Qed.

(** [float] of a group of digits is never negative, infinite or NaN. *)
Lemma py_float_nonneg s x : py_float s = Ret x -> exists m e, x = FDec false m e.
Proof.
  unfold py_float. destruct (span_decimal s) as [ip rest].
  destruct ip as [|i ip]; [discriminate|].
  destruct rest as [|c r].
  - intros H. injection H as <-. eauto.
  - destruct (span_decimal r) as [fd rest'].
    destruct fd as [|d fd]; [discriminate|].
    destruct rest' as [|? ?]; [|discriminate].
    destruct (c =? 46); [|discriminate].
    intros H. injection H as <-. eauto.
Qed.

(** [min(float(g), 20)] is a number between 0 and 20. *)
Lemma min_20_in_range d s x :
  py_float s = Ret x -> score_ok (PDict (dict_set d (lit "score") (min_20 x))) = true.
Proof.
  intros H. apply py_float_nonneg in H. destruct H as (m & e & ->).
  unfold score_ok. rewrite dict_get_set_same. unfold min_20.
  destruct (float_gt_20 (FDec false m e)) eqn:Hgt; [reflexivity|].
  unfold float_in_range. rewrite Hgt. reflexivity.
Qed.

Lemma extract_score_in_range ps cleaned d d' :
  score_ok (PDict d) = true ->
  extract_score ps cleaned d = Ret d' -> score_ok (PDict d') = true.
Proof.
  intros Hd. induction ps as [|p ps IH]; simpl.
  - intros H. injection H as <-. exact Hd.
  - intros H. apply bindE_Ret_inv in H. destruct H as (found & _ & H).
    destruct found as [m|]; [|apply IH, H].
    apply bindE_Ret_inv in H. destruct H as (x & Hx & H).
    injection H as <-. apply (@min_20_in_range d _ x Hx).
Qed.

Lemma score_ok_set_other d k v :
  str_eqb (lit "score") k = false ->
  score_ok (PDict (dict_set d k v)) = score_ok (PDict d).
Proof. intros H. unfold score_ok. rewrite dict_get_set_other by exact H. reflexivity. Qed.

(** Every record the heuristic returns has a score between 0 and 20. *)
Lemma structured_extraction_score response cleaned v :
  structured_extraction response cleaned = Ret v -> score_ok v = true.
Proof.
  unfold structured_extraction. intros H.
  apply bindE_Ret_inv in H. destruct H as (d1 & H1 & H).
  apply extract_score_in_range in H1; [|reflexivity].
  apply bindE_Ret_inv in H. destruct H as (fm & _ & H).
  apply bindE_Ret_inv in H. destruct H as (im & _ & H).
  apply bindE_Ret_inv in H. destruct H as (d2 & H2 & H).
  apply bindE_Ret_inv in H. destruct H as (bm & _ & H).
  apply bindE_Ret_inv in H. destruct H as (d3 & H3 & H).
  injection H as <-.
  set (d1' := match fm with
              | Some m => dict_set d1 (lit "feedback")
                            (PStr (strip (match group m 1 with Some g => g | None => [] end)))
              | None => d1
              end) in *.
  assert (Hd1' : score_ok (PDict d1') = true).
  { subst d1'. destruct fm; [|exact H1].
    rewrite score_ok_set_other; [exact H1|reflexivity]. }
  assert (Hd2 : score_ok (PDict d2) = true).
  { destruct im as [m|].
    - apply bindE_Ret_inv in H2. destruct H2 as (imps & _ & H2).
      injection H2 as <-. rewrite score_ok_set_other; [exact Hd1'|reflexivity].
    - injection H2 as <-. exact Hd1'. }
  destruct bm as [|b bm].
  - injection H3 as <-. exact Hd2.
  - apply bindE_Ret_inv in H3. destruct H3 as (kvs & _ & H3).
    injection H3 as <-. rewrite score_ok_set_other; [exact Hd2|reflexivity].
Qed.

(** *** The limits of the interpreter and the digits of other scripts *)

(** A list nested a thousand deep is valid JSON, but under the default
    limits [json.loads] raises [RecursionError] on it and the parser
    returns the parse-failure record. *)
Lemma deep_reply_recursion_error :
  let reply := repeat 91 1000 ++ lit "1" ++ repeat 93 1000 in
  json_loads python_default reply = Raise (recursion_error (lit "array")) /\
  _parse_json_response python_default reply =
    Ret (parse_error_record (recursion_error (lit "array")) reply).
Proof. split; vm_compute; reflexivity. Qed.

(** An integer of 4300 digits is decoded; one of 4301 digits makes
    [json.loads] raise [ValueError], and the parser returns the
    parse-failure record. *)
Lemma long_integer_value_error :
  (exists z, json_loads python_default (repeat 49 4300) = Ret (PInt z)) /\
  json_loads python_default (repeat 49 4301) = Raise (int_limit_error 4300 4301) /\
  _parse_json_response python_default (repeat 49 4301) =
    Ret (parse_error_record (int_limit_error 4300 4301) (repeat 49 4301)).
Proof.
  split; [|split].
  - eexists. vm_compute. reflexivity.
  - vm_compute. reflexivity.
  - vm_compute. reflexivity.
Qed.

(** The sanitizer does not know where a JSON string begins and ends: a
    [//] inside one is cut as a comment up to the end of the line, and the
    reply, a valid list, is no longer one. *)
Lemma comment_inside_a_string :
  let reply := litq "['a//b'," ++ nl ++ lit "1]" in
  (exists v, json_loads python_default reply = Ret v) /\
  _sanitize_json_text reply = Ret (litq "['a1]") /\
  _parse_json_response python_default reply =
    Ret (parse_error_record unknown_extension_R reply).
Proof.
  split; [|split].
  - eexists. vm_compute. reflexivity.
  - vm_compute. reflexivity.
  - vm_compute. reflexivity.
Qed.

(** The heuristic extraction reads a score written with the digits of
    another script: here the Arabic-Indic digit three, U+0663. *)
Lemma score_in_arabic_digits :
  structured_extraction (lit "score: " ++ [1635]) (lit "score: " ++ [1635]) =
    Ret (PDict [ (lit "score", PFloat (FDec false 3 0));
                 (lit "feedback", PStr []);
                 (lit "improvements", PList []);
                 (lit "breakdown", PDict []);
                 (lit "raw_llm_output", PStr (lit "score: " ++ [1635])) ]).
Proof. vm_compute. reflexivity. Qed.


(** The example of the specification, "score: 37": the heuristic
    extraction caps the score at 20, but the parser never reaches it and
    returns the parse-failure record, with score 0. *)
Lemma score_37_in_prose (py : interpreter) :
  structured_extraction (lit "score: 37") (lit "score: 37") =
    Ret (PDict [ (lit "score", PInt 20);
                 (lit "feedback", PStr []);
                 (lit "improvements", PList []);
                 (lit "breakdown", PDict []);
                 (lit "raw_llm_output", PStr (lit "score: 37")) ]) /\
  _parse_json_response py (lit "score: 37") =
    Ret (parse_error_record unknown_extension_R (lit "score: 37")).
Proof. split; vm_compute; reflexivity. Qed.



(** ** Sanitizing twice *)

(** Counterexample to C6: sanitizing "//**/**/" gives "/**/", and
    sanitizing that gives the empty text. *)
Lemma sanitize_not_idempotent :
  _sanitize_json_text (lit "//**/**/") = Ret (lit "/**/") /\
  _sanitize_json_text (lit "/**/") = Ret [] /\
  lit "/**/" <> [].
Proof. repeat split; try (vm_compute; reflexivity). discriminate. Qed.

Lemma re_search_none pattern r s f :
  re_compile pattern = Ret r -> re_search pattern s f = Ret None ->
  search_from f r [] s = None.
Proof.
  intros Hc. unfold re_search. rewrite Hc. intros H. injection H as H. exact H.
Qed.

(** C6, as the code has it: sanitizing is idempotent on every text in
    whose sanitized form neither of the two patterns of the sanitizer
    finds a match ([re.search] gives [None] for both). *)
Theorem _sanitize_json_text_idempotent (text cleaned : str) :
  _sanitize_json_text text = Ret cleaned ->
  re_search (lit "```(?:json)?\n?(.*?)```") cleaned re_DOTALL = Ret None ->
  re_search (lit "//.*?\n|/\*.*?\*/") cleaned re_DOTALL = Ret None ->
  _sanitize_json_text cleaned = Ret cleaned.
Proof.
  intros Hs H1 H2.
  apply (@re_search_none _ _ _ _ compile_fence) in H1.
  apply (@re_search_none _ _ _ _ compile_comment) in H2.
  rewrite _sanitize_json_text_eq. cbv zeta.
  rewrite (@sub_fuel_none _ _ _ _ _ H1), (@sub_fuel_none _ _ _ _ _ H2).
  rewrite _sanitize_json_text_eq in Hs. injection Hs as <-.
  rewrite strip_idem. reflexivity.
Qed.

Lemma _sanitize_json_text_idempotent_witness :
  _sanitize_json_text (litq "{'feedback': 'see http://a.b/c', 'score': 5}") =
  Ret (litq "{'feedback': 'see http://a.b/c', 'score': 5}").
Proof.
  apply (@_sanitize_json_text_idempotent
           (litq "```json {'feedback': 'see http://a.b/c', 'score': 5} ```")
           (litq "{'feedback': 'see http://a.b/c', 'score': 5}"));
    vm_compute; reflexivity.
Defined.

(* ===================================================================== *)
(** ** Methods: running, framing *)

Ltac run_method :=
  unfold bindM, tryM, tryM_Exception, retM, raiseM, self, assign, liftE, net,
    state_of, calls_of, result_of in *.

(** Destructs the innermost scrutinee of a [match] of the goal. *)
Ltac step_match :=
  match goal with
  | |- context [match ?x with _ => _ end] =>
      lazymatch x with
      | context [match _ with _ => _ end] => fail
      | _ => destruct x eqn:?
      end
  end.

Lemma bindM_Ret_inv A B (m : M A) (f : A -> M B) gs gs' l b :
  bindM m f gs = (gs', l, Ret b) ->
  exists a gs1 l1 l2,
    m gs = (gs1, l1, Ret a) /\ f a gs1 = (gs', l2, Ret b) /\ l = l1 ++ l2.
Proof.
  unfold bindM. destruct (m gs) as [[gs1 l1] [e|a]]; [discriminate|].
  destruct (f a gs1) as [[gs2 l2] r] eqn:Hf. intros H. injection H as <- <- ->.
  exists a, gs1, l1, l2. auto.
Qed.

Lemma frame_retM A P (a : A) gs : frame_at P (retM a) gs.
Proof. split; [reflexivity|constructor]. Qed.

Lemma frame_raiseM A P e gs : frame_at P (@raiseM A e) gs.
Proof. split; [reflexivity|constructor]. Qed.

Lemma frame_liftE A P (r : E A) gs : frame_at P (liftE r) gs.
Proof. split; [reflexivity|constructor]. Qed.

Lemma frame_self A P (f : GradingSystem -> A) gs : frame_at P (self f) gs.
Proof. split; [reflexivity|constructor]. Qed.

Lemma frame_net A P c (r : E A) gs : P gs c -> frame_at P (net c r) gs.
Proof. intros H. split; [reflexivity|]. repeat constructor. exact H. Qed.

Lemma frame_bindM A B P (m : M A) (f : A -> M B) gs :
  frame_at P m gs ->
  (forall a, result_of (m gs) = Ret a -> frame_at P (f a) gs) ->
  frame_at P (bindM m f) gs.
Proof.
  unfold frame_at, bindM, state_of, calls_of, result_of.
  destruct (m gs) as [[gs1 l1] [e|a]]; simpl; intros [-> Hl] Hf; [auto|].
  specialize (Hf a eq_refl). destruct (f a gs) as [[gs2 l2] r]. simpl in *.
  destruct Hf as [-> Hl2]. split; [reflexivity|]. apply Forall_app. auto.
Qed.

Lemma frame_tryM_Exception A P (m : M A) (h : exn -> M A) gs :
  frame_at P m gs ->
  (forall e, result_of (m gs) = Raise e -> frame_at P (h e) gs) ->
  frame_at P (tryM_Exception m h) gs.
Proof.
  unfold frame_at, tryM_Exception, state_of, calls_of, result_of.
  destruct (m gs) as [[gs1 l1] [e|a]]; simpl; intros [-> Hl] Hh; [|auto].
  specialize (Hh e eq_refl). destruct (h e gs) as [[gs2 l2] r]. simpl in *.
  destruct Hh as [-> Hl2]. split; [reflexivity|]. apply Forall_app. auto.
Qed.

Lemma frame_tryM A P (m : M A) cls (h : exn -> M A) gs :
  frame_at P m gs ->
  (forall e, result_of (m gs) = Raise e -> frame_at P (h e) gs) ->
  frame_at P (tryM m cls h) gs.
Proof.
  unfold frame_at, tryM, state_of, calls_of, result_of.
  destruct (m gs) as [[gs1 l1] [e|a]]; simpl; intros [-> Hl] Hh; [|auto].
  destruct (isinstance e cls); [|auto].
  specialize (Hh e eq_refl). destruct (h e gs) as [[gs2 l2] r]. simpl in *.
  destruct Hh as [-> Hl2]. split; [reflexivity|]. apply Forall_app. auto.
Qed.

Lemma frame_weaken A (P Q : GradingSystem -> net_call -> Prop) (m : M A) gs :
  (forall c, P gs c -> Q gs c) -> frame_at P m gs -> frame_at Q m gs.
Proof.
  intros HPQ [Hs Hl]. split; [exact Hs|].
  eapply Forall_impl; [|exact Hl]. exact HPQ.
Qed.

Create HintDb frame.
#[local] Hint Resolve frame_retM frame_raiseM frame_liftE frame_self : frame.

Lemma frame__call_openai_api w prompt model gs :
  frame_at stored_credential (_call_openai_api w prompt model) gs.
Proof.
  unfold _call_openai_api. apply frame_bindM; [auto with frame|].
  intros client Hc. injection Hc as <-.
  destruct (openai_client gs) as [k|] eqn:Hk; [|auto with frame].
  apply frame_tryM_Exception; [|auto with frame].
  apply frame_bindM; [|auto with frame].
  apply frame_net. unfold stored_credential. simpl. auto.
Qed.

Lemma frame__call_claude_api w prompt model gs :
  frame_at stored_credential (_call_claude_api w prompt model) gs.
Proof.
  unfold _call_claude_api. apply frame_bindM; [auto with frame|].
  intros client Hc. injection Hc as <-.
  destruct (claude_client gs) as [k|] eqn:Hk; [|auto with frame].
  apply frame_tryM_Exception; [|auto with frame].
  apply frame_bindM; [|auto with frame].
  apply frame_net. unfold stored_credential. simpl. auto.
Qed.

Lemma frame__call_groq_api w prompt model gs :
  frame_at stored_credential (_call_groq_api w prompt model) gs.
Proof.
  unfold _call_groq_api. apply frame_bindM; [auto with frame|].
  intros key Hc. injection Hc as <-.
  destruct (groq_api_key gs) as [[|x k]|] eqn:Hk; [auto with frame| |auto with frame].
  apply frame_tryM_Exception; [|auto with frame].
  apply frame_bindM.
  - apply frame_net. unfold stored_credential. simpl. auto.
  - intros reply _. destruct (g_ok reply); auto with frame.
Qed.

Lemma frame__call_ollama_api w prompt model cb gs :
  frame_at stored_credential (_call_ollama_api w prompt model cb) gs.
Proof.
  unfold _call_ollama_api.
  apply frame_tryM_Exception; [|auto with frame].
  apply frame_bindM; [|auto with frame].
  apply frame_net. exact I.
Qed.

Lemma frame_call_and_parse w r prompt gs :
  frame_at stored_credential (call_and_parse w r prompt) gs.
Proof.
  unfold call_and_parse, call_and_parse_body, gateway_call.
  apply frame_tryM_Exception; [|auto with frame].
  apply frame_bindM; [auto with frame|]. intros gs0 _.
  apply frame_bindM.
  - repeat match goal with |- context [if ?b then _ else _] => destruct b end;
      auto using frame__call_openai_api, frame__call_claude_api,
        frame__call_groq_api, frame__call_ollama_api.
  - intros response _. apply frame_bindM; [auto with frame|]. intros res _.
    apply frame_bindM; [auto with frame|]. intros res' _.
    destruct (update_callback r); [|auto with frame].
    apply frame_bindM; auto with frame.
Qed.

(** ** Validation of a key *)

Lemma frame__validate_api_key w k provider gs :
  frame_at stored_credential (_validate_api_key w k provider) gs.
Proof.
  unfold _validate_api_key.
  apply frame_tryM_Exception; [|auto with frame].
  repeat match goal with |- context [if ?b then _ else _] => destruct b end;
    auto with frame.
  - apply frame_bindM; [apply frame_net; exact I|auto with frame].
  - apply frame_bindM; [apply frame_net; exact I|auto with frame].
  - apply frame_bindM; [auto with frame|]. intros _ _.
    apply frame_bindM; [apply frame_net; exact I|auto with frame].
Qed.

(** [_validate_api_key] returns a boolean, whatever happens, and changes
    no attribute. *)
Lemma _validate_api_key_run w k provider gs :
  exists l b, _validate_api_key w k provider gs = (gs, l, Ret b).
Proof.
  destruct (frame__validate_api_key w k provider gs) as [Hs _].
  revert Hs. unfold _validate_api_key, tryM_Exception, state_of.
  match goal with |- context [match ?m gs with _ => _ end] => destruct (m gs) as [[g l] [e|b]] end;
    simpl; intros ->; eauto.
Qed.

(** Only the three hosted tags can be validated, and a validated OpenAI
    key is one the client constructor accepts. *)
Lemma _validate_api_key_true w k provider gs :
  result_of (_validate_api_key w k provider gs) = Ret true ->
  lower provider = lit "groq" \/ lower provider = lit "anthropic" \/
  (lower provider = lit "openai" /\ openai_Client w k = Ret tt).
Proof.
  unfold _validate_api_key.
  destruct (str_eqb (lower provider) (lit "groq")) eqn:Hg.
  { apply str_eqb_eq in Hg. auto. }
  destruct (str_eqb (lower provider) (lit "anthropic")) eqn:Ha.
  { apply str_eqb_eq in Ha. auto. }
  destruct (str_eqb (lower provider) (lit "openai")) eqn:Ho.
  - apply str_eqb_eq in Ho. intros H. right. right. split; [exact Ho|].
    revert H. run_method. destruct (openai_Client w k) as [e|[]]; simpl.
    + discriminate.
    + reflexivity.
  - run_method. simpl. discriminate.
Qed.

(** ** [evaluate_submission] always returns a record *)

Lemma setitem_Ret v k x v' : setitem v k x = Ret v' -> exists d, v' = PDict d.
Proof. destruct v; simpl; try discriminate. intros H. injection H as <-. eauto. Qed.

Lemma liftE_Ret_inv A (x : E A) gs gs' l a :
  liftE x gs = (gs', l, Ret a) -> x = Ret a /\ gs' = gs /\ l = [].
Proof. unfold liftE. intros H. injection H as <- <- ->. auto. Qed.

Lemma call_and_parse_body_dict w r prompt gs gs' l v :
  call_and_parse_body w r prompt gs = (gs', l, Ret v) -> exists d, v = PDict d.
Proof.
  unfold call_and_parse_body. intros H.
  apply bindM_Ret_inv in H. destruct H as (g0 & gs1 & l1 & l2 & _ & H & _).
  apply bindM_Ret_inv in H. destruct H as (resp & gs2 & l3 & l4 & _ & H & _).
  apply bindM_Ret_inv in H. destruct H as (res & gs3 & l5 & l6 & _ & H & _).
  apply bindM_Ret_inv in H. destruct H as (res' & gs4 & l7 & l8 & Hset & H & _).
  apply liftE_Ret_inv in Hset. destruct Hset as (Hset & _ & _).
  apply setitem_Ret in Hset. destruct Hset as [d ->].
  destruct (update_callback r) as [cb|].
  - apply bindM_Ret_inv in H. destruct H as (u & gs5 & l9 & l10 & _ & H & _).
    unfold retM in H. injection H as _ _ <-. eauto.
  - unfold retM in H. injection H as _ _ <-. eauto.
Qed.

Lemma call_and_parse_dict w r prompt gs :
  exists d, result_of (call_and_parse w r prompt gs) = Ret (PDict d).
Proof.
  unfold call_and_parse, tryM_Exception, result_of.
  destruct (call_and_parse_body w r prompt gs) as [[g l] [e|v]] eqn:H; simpl.
  - eexists. reflexivity.
  - apply call_and_parse_body_dict in H. destruct H as [d ->]. eauto.
Qed.

Lemma system_error_record_eq e :
  system_error_record e =
  PDict
    [ (lit "score", PInt 0);
      (lit "feedback", PStr (lit "Error during grading: " ++ str_of_exn e));
      (lit "improvements", PList [PStr (lit "System error occurred")]);
      (lit "breakdown", PDict [(lit "error", PStr (str_of_exn e))]);
      (lit "raw_llm_output", PStr (str_of_exn e)) ].
Proof. reflexivity. Qed.

Lemma api_error_record_eq e :
  api_error_record e =
  PDict
    [ (lit "score", PInt 0);
      (lit "feedback", PStr (lit "Error calling API: " ++ str_of_exn e));
      (lit "improvements", PList [PStr (lit "API call failed")]);
      (lit "breakdown", PDict [(lit "error", PStr (str_of_exn e))]);
      (lit "raw_llm_output", PStr (str_of_exn e)) ].
Proof. reflexivity. Qed.

(** C1: for every request, in every state and whatever the outside world
    answers, [evaluate_submission] returns a record (a dict) and does not
    raise.  When the override stage raises [e], the record has score 0 and
    its feedback and its breakdown's [error] entry carry [str(e)]; when the
    call of the model, the parser or the callback raises [e], likewise. *)
Theorem evaluate_submission_never_raises (w : world) (r : request) (gs : GradingSystem) :
  (exists d, result_of (evaluate_submission w r gs) = Ret (PDict d)) /\
  (forall e, result_of (evaluate_body w r gs) = Raise e ->
     result_of (evaluate_submission w r gs) =
     Ret (PDict
            [ (lit "score", PInt 0);
              (lit "feedback", PStr (lit "Error during grading: " ++ str_of_exn e));
              (lit "improvements", PList [PStr (lit "System error occurred")]);
              (lit "breakdown", PDict [(lit "error", PStr (str_of_exn e))]);
              (lit "raw_llm_output", PStr (str_of_exn e)) ])) /\
  (forall gs1 l1 e,
     use_api_key w r gs = (gs1, l1, Ret tt) ->
     result_of (call_and_parse_body w r
                  (build_prompt r (_get_provider_from_model gs1 (model r))) gs1) = Raise e ->
     result_of (evaluate_submission w r gs) =
     Ret (PDict
            [ (lit "score", PInt 0);
              (lit "feedback", PStr (lit "Error calling API: " ++ str_of_exn e));
              (lit "improvements", PList [PStr (lit "API call failed")]);
              (lit "breakdown", PDict [(lit "error", PStr (str_of_exn e))]);
              (lit "raw_llm_output", PStr (str_of_exn e)) ])).
Proof.
  split; [|split].
  - unfold evaluate_submission, tryM_Exception, result_of.
    destruct (evaluate_body w r gs) as [[g l] [e|v]] eqn:H; simpl.
    + eexists. reflexivity.
    + unfold evaluate_body in H.
      apply bindM_Ret_inv in H. destruct H as (u & gs1 & l1 & l2 & _ & H & _).
      apply bindM_Ret_inv in H. destruct H as (p & gs2 & l3 & l4 & _ & H & _).
      destruct (call_and_parse_dict w r (build_prompt r p) gs2) as [d Hd].
      rewrite H in Hd. simpl in Hd. injection Hd as ->. eauto.
  - intros e. unfold evaluate_submission, tryM_Exception, result_of.
    destruct (evaluate_body w r gs) as [[g l] [e'|v]]; simpl; [|discriminate].
    intros H. injection H as ->. rewrite system_error_record_eq. reflexivity.
  - intros gs1 l1 e Hu.
    unfold evaluate_submission, evaluate_body, call_and_parse.
    unfold tryM_Exception, bindM at 1. rewrite Hu.
    unfold bindM, self, result_of.
    destruct (call_and_parse_body w r
                (build_prompt r (_get_provider_from_model gs1 (model r))) gs1)
      as [[g l] [e'|v]]; simpl; [|discriminate].
    intros H. injection H as ->. rewrite api_error_record_eq. reflexivity.
Qed.

Lemma evaluate_submission_never_raises_witness :
  result_of (evaluate_submission world_offline (sample_request (lit "llama3") None)
               GradingSystem_new) =
  Ret (PDict
         [ (lit "score", PInt 0);
           (lit "feedback", PStr (lit "Error calling API: connection refused"));
           (lit "improvements", PList [PStr (lit "API call failed")]);
           (lit "breakdown", PDict [(lit "error", PStr (lit "connection refused"))]);
           (lit "raw_llm_output", PStr (lit "connection refused")) ]).
Proof.
  apply (proj2 (proj2 (@evaluate_submission_never_raises world_offline
                         (sample_request (lit "llama3") None) GradingSystem_new))
           GradingSystem_new [] connection_refused);
    vm_compute; reflexivity.
Defined.

(** ** The override key *)

Lemma use_api_key_without_key w r :
  truthy (api_key r) = false -> use_api_key w r = retM tt.
Proof.
  unfold use_api_key, truthy. destruct (api_key r) as [[|x k]|]; try reflexivity.
  discriminate.
Qed.

(** Counterexample to C9: with an override key that the OpenAI endpoint
    rejects, the override stage raises a [ValueError] (the file defines no
    [InvalidCredentialError]), and [evaluate_submission] does not fail: it
    catches the error and returns a record. *)
Lemma invalid_key_returns_record :
  let w := world_openai_down in
  let r := sample_request (lit "gpt-4") (Some (lit "sk-wrong")) in
  result_of (_validate_api_key w (lit "sk-wrong")
               (_get_provider_from_model gs_openai (model r)) gs_openai) = Ret false /\
  result_of (evaluate_body w r gs_openai) =
    Raise (mk_exn ValueError (lit "Invalid API key for openai")) /\
  (exists d, result_of (evaluate_submission w r gs_openai) = Ret (PDict d)) /\
  (forall e, result_of (evaluate_submission w r gs_openai) <> Raise e).
Proof.
  cbv zeta. split; [|split; [|split]].
  - vm_compute. reflexivity.
  - vm_compute. reflexivity.
  - eexists. vm_compute. reflexivity.
  - intros e. vm_compute. discriminate.
Qed.

(** C9, as the code has it: when the caller supplies an override key and
    its validation for the resolved provider fails, the override stage
    raises the [ValueError] "Invalid API key for <provider>", which
    [evaluate_submission] catches: it returns the record with score 0
    whose feedback, breakdown and raw output carry that message.  No
    attribute is changed and no call other than those of the validation is
    made. *)
Theorem invalid_override_key (w : world) (r : request) (gs : GradingSystem) (k : str) :
  api_key r = Some k -> k <> [] ->
  result_of (_validate_api_key w k (_get_provider_from_model gs (model r)) gs) = Ret false ->
  let provider := _get_provider_from_model gs (model r) in
  let e := mk_exn ValueError (lit "Invalid API key for " ++ provider) in
  result_of (evaluate_body w r gs) = Raise e /\
  result_of (evaluate_submission w r gs) =
    Ret (PDict
           [ (lit "score", PInt 0);
             (lit "feedback",
              PStr (lit "Error during grading: " ++ lit "Invalid API key for " ++ provider));
             (lit "improvements", PList [PStr (lit "System error occurred")]);
             (lit "breakdown",
              PDict [(lit "error", PStr (lit "Invalid API key for " ++ provider))]);
             (lit "raw_llm_output", PStr (lit "Invalid API key for " ++ provider)) ]) /\
  state_of (evaluate_submission w r gs) = gs /\
  calls_of (evaluate_submission w r gs) =
    calls_of (_validate_api_key w k provider gs).
Proof.
  intros Hk Hne Hv provider e.
  destruct (_validate_api_key_run w k provider gs) as (l & b & Hrun).
  fold provider in Hv. rewrite Hrun in Hv. simpl in Hv. injection Hv as ->.
  assert (Hbody : evaluate_body w r gs = (gs, l, Raise e)).
  { unfold evaluate_body, use_api_key. rewrite Hk.
    destruct k as [|x k]; [contradiction|].
    unfold bindM at 1. unfold bindM at 1. unfold self at 1.
    fold provider. unfold bindM at 1. rewrite Hrun.
    unfold raiseM. simpl. rewrite app_nil_r. reflexivity. }
  unfold evaluate_submission, tryM_Exception. rewrite Hbody, Hrun.
  simpl. rewrite app_nil_r. repeat split; reflexivity.
Qed.

Lemma invalid_override_key_witness :
  result_of (evaluate_submission world_openai_down
               (sample_request (lit "gpt-4") (Some (lit "sk-wrong"))) gs_openai) =
  Ret (PDict
         [ (lit "score", PInt 0);
           (lit "feedback",
            PStr (lit "Error during grading: " ++ lit "Invalid API key for " ++ lit "openai"));
           (lit "improvements", PList [PStr (lit "System error occurred")]);
           (lit "breakdown",
            PDict [(lit "error", PStr (lit "Invalid API key for " ++ lit "openai"))]);
           (lit "raw_llm_output", PStr (lit "Invalid API key for " ++ lit "openai")) ]).
Proof.
  apply (@invalid_override_key world_openai_down
           (sample_request (lit "gpt-4") (Some (lit "sk-wrong")))
           gs_openai (lit "sk-wrong")).
  - reflexivity.
  - discriminate.
  - vm_compute. reflexivity.
Defined.

(** ** What a method leaves as it is *)

Lemma preserves_retM A X (f : GradingSystem -> X) (a : A) : preserves f (retM a).
Proof. intros gs. reflexivity. Qed.

Lemma preserves_raiseM A X (f : GradingSystem -> X) e : preserves f (@raiseM A e).
Proof. intros gs. reflexivity. Qed.

Lemma preserves_liftE A X (f : GradingSystem -> X) (r : E A) : preserves f (liftE r).
Proof. intros gs. reflexivity. Qed.

Lemma preserves_self A X (f : GradingSystem -> X) (g : GradingSystem -> A) :
  preserves f (self g).
Proof. intros gs. reflexivity. Qed.

Lemma preserves_net A X (f : GradingSystem -> X) c (r : E A) : preserves f (net c r).
Proof. intros gs. reflexivity. Qed.

Lemma preserves_assign X (f : GradingSystem -> X) g :
  (forall gs, f (g gs) = f gs) -> preserves f (assign g).
Proof. intros H gs. apply H. Qed.

Lemma preserves_bindM A B X (f : GradingSystem -> X) (m : M A) (k : A -> M B) :
  preserves f m -> (forall a, preserves f (k a)) -> preserves f (bindM m k).
Proof.
  intros Hm Hk gs. specialize (Hm gs). unfold bindM, state_of in *.
  destruct (m gs) as [[gs1 l1] [e|a]]; simpl in *; [exact Hm|].
  specialize (Hk a gs1). unfold state_of in Hk.
  destruct (k a gs1) as [[gs2 l2] r]. simpl in *. congruence.
Qed.

Lemma preserves_tryM_Exception A X (f : GradingSystem -> X) (m : M A) h :
  preserves f m -> (forall e, preserves f (h e)) -> preserves f (tryM_Exception m h).
Proof.
  intros Hm Hh gs. specialize (Hm gs). unfold tryM_Exception, state_of in *.
  destruct (m gs) as [[gs1 l1] [e|a]]; simpl in *; [|exact Hm].
  specialize (Hh e gs1). unfold state_of in Hh.
  destruct (h e gs1) as [[gs2 l2] r]. simpl in *. congruence.
Qed.

Lemma preserves_tryM A X (f : GradingSystem -> X) (m : M A) cls h :
  preserves f m -> (forall e, preserves f (h e)) -> preserves f (tryM m cls h).
Proof.
  intros Hm Hh gs. specialize (Hm gs). unfold tryM, state_of in *.
  destruct (m gs) as [[gs1 l1] [e|a]]; simpl in *; [|exact Hm].
  destruct (isinstance e cls); [|exact Hm].
  specialize (Hh e gs1). unfold state_of in Hh.
  destruct (h e gs1) as [[gs2 l2] r]. simpl in *. congruence.
Qed.

Create HintDb preserves.
#[local] Hint Resolve preserves_retM preserves_raiseM preserves_liftE
  preserves_self preserves_net : preserves.

(** Proves [preserves f m] for a method written with the combinators,
    leaving the assignments to [tac]. *)
Ltac preserves_tac tac :=
  repeat first
    [ solve [auto with preserves]
    | apply preserves_tryM_Exception
    | apply preserves_tryM
    | apply preserves_bindM
    | apply preserves_assign; solve [tac]
    | match goal with |- forall _, _ => intro end
    | match goal with
      | |- preserves _ (if ?b then _ else _) => destruct b
      | |- preserves _ (match ?x with _ => _ end) => destruct x
      end ].

Lemma refresh_local_preserves X (f : GradingSystem -> X) w :
  (forall l gs, f (set_local_models l gs) = f gs) -> preserves f (refresh_local w).
Proof. intros H. unfold refresh_local. preserves_tac ltac:(intros; apply H). Qed.

Lemma refresh_openai_preserves X (f : GradingSystem -> X) w :
  (forall l gs, f (set_online (lit "openai") l gs) = f gs) -> preserves f (refresh_openai w).
Proof. intros H. unfold refresh_openai. preserves_tac ltac:(intros; apply H). Qed.

Lemma refresh_claude_preserves X (f : GradingSystem -> X) w :
  (forall l gs, f (set_online (lit "claude") l gs) = f gs) -> preserves f (refresh_claude w).
Proof. intros H. unfold refresh_claude. preserves_tac ltac:(intros; apply H). Qed.

Lemma refresh_groq_preserves X (f : GradingSystem -> X) w :
  (forall l gs, f (set_online (lit "groq") l gs) = f gs) -> preserves f (refresh_groq w).
Proof. intros H. unfold refresh_groq. preserves_tac ltac:(intros; apply H). Qed.

(** A refresh never touches the clients and the Groq key. *)
Lemma refresh_available_models_preserves X (f : GradingSystem -> X) w :
  (forall l gs, f (set_local_models l gs) = f gs) ->
  (forall d gs, f (set_online_models d gs) = f gs) ->
  preserves f (refresh_available_models w).
Proof.
  intros H1 H2. unfold refresh_available_models, refresh_body.
  apply preserves_tryM_Exception.
  - assert (H3 : forall k l gs, f (set_online k l gs) = f gs)
      by (intros; unfold set_online; apply H2).
    apply preserves_bindM; [apply refresh_local_preserves, H1|intros _].
    apply preserves_bindM; [apply refresh_openai_preserves; intros; apply H3|intros _].
    apply preserves_bindM; [apply refresh_claude_preserves; intros; apply H3|intros _].
    apply refresh_groq_preserves; intros; apply H3.
  - intros e. apply preserves_bindM; [|intros]; apply preserves_assign; auto.
Qed.

(** [_init_api_clients] never touches the lists. *)
Lemma _init_api_clients_preserves X (f : GradingSystem -> X) w :
  (forall v gs, f (set_openai_client v gs) = f gs) ->
  (forall v gs, f (set_claude_client v gs) = f gs) ->
  (forall v gs, f (set_groq_api_key v gs) = f gs) ->
  preserves f (_init_api_clients w).
Proof.
  intros H1 H2 H3. unfold _init_api_clients, _validate_api_key.
  preserves_tac ltac:(intros; first [apply H1 | apply H2 | apply H3]).
Qed.

(** ** The refresh of the registry, step by step *)

Lemma cached_set_online_same k v gs : cached k (set_online k v gs) = Some v.
Proof. unfold cached, set_online. simpl. apply dict_get_set_same. Qed.

Lemma cached_set_online_other k k' v gs :
  str_eqb k' k = false -> cached k' (set_online k v gs) = cached k' gs.
Proof. intros H. unfold cached, set_online. simpl. apply dict_get_set_other, H. Qed.

Lemma refresh_local_run w gs :
  refresh_local w gs =
  let c := mk_call OllamaTags None in
  let failed e :=
    if isinstance e RequestException
    then (set_local_models [] gs, [c], Ret tt) else (gs, [c], Raise e) in
  match get_ollama_tags w with
  | Raise e => failed e
  | Ret resp =>
      if ok resp then
        match payload resp with
        | Ret names => (set_local_models names gs, [c], Ret tt)
        | Raise e => failed e
        end
      else (gs, [c], Ret tt)
  end.
Proof.
  unfold refresh_local. run_method. cbv zeta.
  destruct (get_ollama_tags w) as [e|resp]; simpl.
  - destruct (isinstance e RequestException); reflexivity.
  - destruct (ok resp); [|reflexivity].
    destruct (payload resp) as [e|names]; simpl; [|reflexivity].
    destruct (isinstance e RequestException); reflexivity.
Qed.

Lemma refresh_openai_run w gs :
  refresh_openai w gs =
  match openai_client gs with
  | Some k =>
      let c := mk_call OpenAIModels (Some k) in
      match openai_models_list w k with
      | Ret ids =>
          (set_online (lit "openai")
             (filter (fun id => startswith (lit "gpt-3") id || startswith (lit "gpt-4") id) ids)
             gs, [c], Ret tt)
      | Raise e => (gs, [c], Raise e)
      end
  | None => (gs, [], Ret tt)
  end.
Proof.
  unfold refresh_openai. run_method.
  destruct (openai_client gs) as [k|]; [|reflexivity].
  destruct (openai_models_list w k); reflexivity.
Qed.

Lemma refresh_claude_run w gs :
  refresh_claude w gs =
  match claude_client gs with
  | Some _ =>
      match environ w (lit "ANTHROPIC_API_KEY") with
      | Some key =>
          let c := mk_call AnthropicModels (Some key) in
          match get_anthropic_models w key with
          | Ret resp =>
              if ok resp then
                match payload resp with
                | Ret ids => (set_online (lit "claude") ids gs, [c], Ret tt)
                | Raise e => (gs, [c], Raise e)
                end
              else (gs, [c], Ret tt)
          | Raise e => (gs, [c], Raise e)
          end
      | None => (gs, [], Raise (mk_exn KeyError (lit "'ANTHROPIC_API_KEY'")))
      end
  | None => (gs, [], Ret tt)
  end.
Proof.
  unfold refresh_claude. run_method.
  destruct (claude_client gs) as [k|]; [|reflexivity].
  destruct (environ w (lit "ANTHROPIC_API_KEY")) as [key|]; [|reflexivity].
  destruct (get_anthropic_models w key) as [e|resp]; [reflexivity|].
  destruct (ok resp); [|reflexivity].
  destruct (payload resp); reflexivity.
Qed.

Lemma refresh_groq_run w gs :
  refresh_groq w gs =
  if truthy (groq_api_key gs) then
    let k := match groq_api_key gs with Some k => k | None => [] end in
    let c := mk_call GroqModels (Some k) in
    match get_groq_models w k with
    | Ret resp =>
        if ok resp then
          match payload resp with
          | Ret data => (set_online (lit "groq") (map fst (filter snd data)) gs, [c], Ret tt)
          | Raise e => (gs, [c], Raise e)
          end
        else (gs, [c], Ret tt)
    | Raise e => (gs, [c], Raise e)
    end
  else (gs, [], Ret tt).
Proof.
  unfold refresh_groq. run_method.
  destruct (groq_api_key gs) as [[|x k]|]; try reflexivity. simpl.
  destruct (get_groq_models w (x :: k)) as [e|resp]; [reflexivity|].
  destruct (ok resp); [|reflexivity].
  destruct (payload resp); reflexivity.
Qed.

(** Either a step of the refresh raises, or the four steps run in turn. *)
Lemma refresh_body_cases w gs :
  (exists e, result_of (refresh_body w gs) = Raise e) \/
  exists g1 g2 g3 g4 l1 l2 l3 l4,
    refresh_local w gs = (g1, l1, Ret tt) /\
    refresh_openai w g1 = (g2, l2, Ret tt) /\
    refresh_claude w g2 = (g3, l3, Ret tt) /\
    refresh_groq w g3 = (g4, l4, Ret tt) /\
    refresh_body w gs = (g4, l1 ++ l2 ++ l3 ++ l4, Ret tt).
Proof.
  unfold refresh_body, bindM, result_of.
  destruct (refresh_local w gs) as [[g1 l1] [e|[]]] eqn:H1; simpl; [eauto|].
  destruct (refresh_openai w g1) as [[g2 l2] [e|[]]] eqn:H2; simpl; [eauto|].
  destruct (refresh_claude w g2) as [[g3 l3] [e|[]]] eqn:H3; simpl; [eauto|].
  destruct (refresh_groq w g3) as [[g4 l4] [e|[]]] eqn:H4; simpl; [eauto|].
  right. exists g1, g2, g3, g4, l1, l2, l3, l4. repeat split; auto.
Qed.

(** The refresh never raises; when a step raised, both registries are
    emptied; otherwise the state is the one the steps left. *)
Lemma refresh_available_models_run w gs :
  result_of (refresh_available_models w gs) = Ret tt /\
  (forall e, result_of (refresh_body w gs) = Raise e ->
     local_models (state_of (refresh_available_models w gs)) = [] /\
     online_models (state_of (refresh_available_models w gs)) = []) /\
  (result_of (refresh_body w gs) = Ret tt ->
     state_of (refresh_available_models w gs) = state_of (refresh_body w gs)).
Proof.
  unfold refresh_available_models, tryM_Exception, result_of, state_of.
  destruct (refresh_body w gs) as [[g l] [e|[]]]; simpl.
  - repeat split; intros; try reflexivity. discriminate.
  - repeat split; intros; try reflexivity; discriminate.
Qed.

Lemma step_preserved A X (f : GradingSystem -> X) (m : M A) gs g l r :
  preserves f m -> m gs = (g, l, r) -> f g = f gs.
Proof. intros P H. specialize (P gs). rewrite H in P. exact P. Qed.

(** Solves [f g = f gs] where [g] is the state a step of the refresh
    left when started in [gs]. *)
Ltac by_step H :=
  eapply step_preserved; [|exact H];
  first [ apply refresh_local_preserves | apply refresh_openai_preserves
        | apply refresh_claude_preserves | apply refresh_groq_preserves ];
  intros; first [reflexivity | apply cached_set_online_other; reflexivity].

(** When the OpenAI listing raises, no refresh runs its four steps. *)
Lemma openai_failure_aborts w gs k e :
  openai_client gs = Some k -> openai_models_list w k = Raise e ->
  exists e', result_of (refresh_body w gs) = Raise e'.
Proof.
  intros Hk He.
  destruct (refresh_body_cases w gs)
    as [H | (g1 & g2 & g3 & g4 & l1 & l2 & l3 & l4 & H1 & H2 & _)]; [exact H|].
  assert (E1 : openai_client g1 = openai_client gs) by by_step H1.
  rewrite refresh_openai_run, E1, Hk, He in H2. discriminate.
Qed.

Lemma claude_failure_aborts w gs c key e :
  claude_client gs = Some c -> environ w (lit "ANTHROPIC_API_KEY") = Some key ->
  get_anthropic_models w key = Raise e ->
  exists e', result_of (refresh_body w gs) = Raise e'.
Proof.
  intros Hc Hkey He.
  destruct (refresh_body_cases w gs)
    as [H | (g1 & g2 & g3 & g4 & l1 & l2 & l3 & l4 & H1 & H2 & H3 & _)]; [exact H|].
  assert (E1 : claude_client g1 = claude_client gs) by by_step H1.
  assert (E2 : claude_client g2 = claude_client g1) by by_step H2.
  rewrite refresh_claude_run, E2, E1, Hc, Hkey, He in H3. discriminate.
Qed.

Lemma groq_failure_aborts w gs k e :
  groq_api_key gs = Some k -> k <> [] -> get_groq_models w k = Raise e ->
  exists e', result_of (refresh_body w gs) = Raise e'.
Proof.
  intros Hk Hne He.
  destruct (refresh_body_cases w gs)
    as [H | (g1 & g2 & g3 & g4 & l1 & l2 & l3 & l4 & H1 & H2 & H3 & H4 & _)]; [exact H|].
  assert (E1 : groq_api_key g1 = groq_api_key gs) by by_step H1.
  assert (E2 : groq_api_key g2 = groq_api_key g1) by by_step H2.
  assert (E3 : groq_api_key g3 = groq_api_key g2) by by_step H3.
  rewrite refresh_groq_run, E3, E2, E1, Hk in H4.
  destruct k as [|x k]; [contradiction|]. simpl in H4. rewrite He in H4. discriminate.
Qed.

(** The local list after a refresh in which no step raised. *)
Lemma refresh_local_outcome w gs g1 l1 :
  refresh_local w gs = (g1, l1, Ret tt) ->
  (forall e, get_ollama_tags w = Raise e -> local_models g1 = []) /\
  (forall resp, get_ollama_tags w = Ret resp -> ok resp = false ->
     local_models g1 = local_models gs) /\
  (forall resp names, get_ollama_tags w = Ret resp -> ok resp = true ->
     payload resp = Ret names -> local_models g1 = names).
Proof.
  rewrite refresh_local_run. cbv zeta. intros H. repeat split.
  - intros e He. rewrite He in H.
    destruct (isinstance e RequestException); [|discriminate].
    injection H as <- _. reflexivity.
  - intros resp Hr Hok. rewrite Hr, Hok in H. injection H as <- _. reflexivity.
  - intros resp names Hr Hok Hp. rewrite Hr, Hok, Hp in H.
    injection H as <- _. reflexivity.
Qed.

Lemma refresh_openai_outcome w gs g2 l2 k ids :
  refresh_openai w gs = (g2, l2, Ret tt) ->
  openai_client gs = Some k -> openai_models_list w k = Ret ids ->
  cached (lit "openai") g2 =
  Some (filter (fun id => startswith (lit "gpt-3") id || startswith (lit "gpt-4") id) ids).
Proof.
  rewrite refresh_openai_run. intros H Hk Hl. rewrite Hk, Hl in H.
  injection H as <- _. apply cached_set_online_same.
Qed.

Lemma refresh_claude_outcome w gs g3 l3 c key resp :
  refresh_claude w gs = (g3, l3, Ret tt) ->
  claude_client gs = Some c -> environ w (lit "ANTHROPIC_API_KEY") = Some key ->
  get_anthropic_models w key = Ret resp ->
  (ok resp = false -> cached (lit "claude") g3 = cached (lit "claude") gs) /\
  (forall ids, ok resp = true -> payload resp = Ret ids ->
     cached (lit "claude") g3 = Some ids).
Proof.
  rewrite refresh_claude_run. intros H Hc Hkey Hr. rewrite Hc, Hkey, Hr in H. split.
  - intros Hok. rewrite Hok in H. injection H as <- _. reflexivity.
  - intros ids Hok Hp. rewrite Hok, Hp in H. injection H as <- _.
    apply cached_set_online_same.
Qed.

Lemma refresh_groq_outcome w gs g4 l4 k resp :
  refresh_groq w gs = (g4, l4, Ret tt) ->
  groq_api_key gs = Some k -> k <> [] -> get_groq_models w k = Ret resp ->
  (ok resp = false -> cached (lit "groq") g4 = cached (lit "groq") gs) /\
  (forall data, ok resp = true -> payload resp = Ret data ->
     cached (lit "groq") g4 = Some (map fst (filter snd data))).
Proof.
  rewrite refresh_groq_run. intros H Hk Hne Hr. rewrite Hk in H.
  destruct k as [|x k]; [contradiction|]. simpl in H. rewrite Hr in H. split.
  - intros Hok. rewrite Hok in H. injection H as <- _. reflexivity.
  - intros data Hok Hp. rewrite Hok, Hp in H. injection H as <- _.
    apply cached_set_online_same.
Qed.

(** ** Failures during a refresh *)

(** Counterexample to C7: Ollama answers with [llama3], the OpenAI listing
    raises; after the refresh the local list is empty too, and so is the
    whole hosted registry. *)
Lemma openai_failure_empties_local :
  get_ollama_tags world_openai_down = Ret (mk_response true (Ret [lit "llama3"])) /\
  openai_client gs_openai = Some (lit "env-key") /\
  openai_models_list world_openai_down (lit "env-key") =
    Raise (mk_exn OtherException (lit "Connection error.")) /\
  local_models gs_openai = [lit "llama3"] /\
  local_models (state_of (refresh_available_models world_openai_down gs_openai)) = [] /\
  online_models (state_of (refresh_available_models world_openai_down gs_openai)) = [].
Proof. repeat split; vm_compute; reflexivity. Qed.

(** C7, as the code has it.  A refresh never raises.  An exception raised
    by the listing query of a hosted provider (OpenAI, Claude, Groq) aborts
    the refresh and empties every list, the local one included.  When no
    step raises: a connection error of the local query empties the local
    list only; a provider that answers with a status that is not OK keeps
    the list it had; every provider that answers is refreshed from its
    answer. *)
Theorem refresh_failure_modes (w : world) (gs : GradingSystem) :
  let gs' := state_of (refresh_available_models w gs) in
  let gpt := filter (fun id => startswith (lit "gpt-3") id || startswith (lit "gpt-4") id) in
  result_of (refresh_available_models w gs) = Ret tt /\
  (forall k e, openai_client gs = Some k -> openai_models_list w k = Raise e ->
     local_models gs' = [] /\ online_models gs' = []) /\
  (forall c key e, claude_client gs = Some c ->
     environ w (lit "ANTHROPIC_API_KEY") = Some key ->
     get_anthropic_models w key = Raise e ->
     local_models gs' = [] /\ online_models gs' = []) /\
  (forall k e, groq_api_key gs = Some k -> k <> [] -> get_groq_models w k = Raise e ->
     local_models gs' = [] /\ online_models gs' = []) /\
  (result_of (refresh_body w gs) = Ret tt ->
     (forall e, get_ollama_tags w = Raise e -> local_models gs' = []) /\
     (forall resp, get_ollama_tags w = Ret resp -> ok resp = false ->
        local_models gs' = local_models gs) /\
     (forall resp names, get_ollama_tags w = Ret resp -> ok resp = true ->
        payload resp = Ret names -> local_models gs' = names) /\
     (forall k ids, openai_client gs = Some k -> openai_models_list w k = Ret ids ->
        cached (lit "openai") gs' = Some (gpt ids)) /\
     (forall c key resp, claude_client gs = Some c ->
        environ w (lit "ANTHROPIC_API_KEY") = Some key ->
        get_anthropic_models w key = Ret resp ->
        (ok resp = false -> cached (lit "claude") gs' = cached (lit "claude") gs) /\
        (forall ids, ok resp = true -> payload resp = Ret ids ->
           cached (lit "claude") gs' = Some ids)) /\
     (forall k resp, groq_api_key gs = Some k -> k <> [] ->
        get_groq_models w k = Ret resp ->
        (ok resp = false -> cached (lit "groq") gs' = cached (lit "groq") gs) /\
        (forall data, ok resp = true -> payload resp = Ret data ->
           cached (lit "groq") gs' = Some (map fst (filter snd data))))).
Proof.
  intros gs' gpt.
  destruct (refresh_available_models_run w gs) as (Hres & Hwipe & Hkeep).
  fold gs' in Hwipe, Hkeep.
  split; [exact Hres|]. split; [|split; [|split]].
  - intros k e Hk He.
    destruct (@openai_failure_aborts w gs k e Hk He) as [e' He'].
    apply (Hwipe e' He').
  - intros c key e Hc Hkey He.
    destruct (@claude_failure_aborts w gs c key e Hc Hkey He) as [e' He'].
    apply (Hwipe e' He').
  - intros k e Hk Hne He.
    destruct (@groq_failure_aborts w gs k e Hk Hne He) as [e' He'].
    apply (Hwipe e' He').
  - intros Hok. specialize (Hkeep Hok).
    destruct (refresh_body_cases w gs)
      as [[e He] | (g1 & g2 & g3 & g4 & l1 & l2 & l3 & l4 & H1 & H2 & H3 & H4 & Hb)].
    { rewrite He in Hok. discriminate. }
    clearbody gs'. rewrite Hb in Hkeep. unfold state_of in Hkeep.
    simpl in Hkeep. subst gs'.
    destruct (@refresh_local_outcome w gs g1 l1 H1) as (L1 & L2 & L3).
    assert (EL : local_models g4 = local_models g1).
    { transitivity (local_models g3); [by_step H4|].
      transitivity (local_models g2); [by_step H3|by_step H2]. }
    split; [|split; [|split; [|split; [|split]]]].
    + intros e He. rewrite EL. eapply L1, He.
    + intros resp Hr Ho. rewrite EL. eapply L2; eassumption.
    + intros resp names Hr Ho Hp. rewrite EL. eapply L3; eassumption.
    + intros k ids Hk Hl.
      assert (E1 : openai_client g1 = openai_client gs) by by_step H1.
      rewrite <- E1 in Hk.
      transitivity (cached (lit "openai") g3); [by_step H4|].
      transitivity (cached (lit "openai") g2); [by_step H3|].
      eapply refresh_openai_outcome; eassumption.
    + intros c key resp Hc Hkey Hr.
      assert (E1 : claude_client g1 = claude_client gs) by by_step H1.
      assert (E2 : claude_client g2 = claude_client g1) by by_step H2.
      rewrite <- E1, <- E2 in Hc.
      destruct (@refresh_claude_outcome w g2 g3 l3 c key resp H3 Hc Hkey Hr) as [C1 C2].
      assert (E4 : cached (lit "claude") g4 = cached (lit "claude") g3) by by_step H4.
      split.
      * intros Ho. rewrite E4, (C1 Ho).
        transitivity (cached (lit "claude") g1); [by_step H2|by_step H1].
      * intros ids Ho Hp. rewrite E4. apply (C2 ids Ho Hp).
    + intros k resp Hk Hne Hr.
      assert (E1 : groq_api_key g1 = groq_api_key gs) by by_step H1.
      assert (E2 : groq_api_key g2 = groq_api_key g1) by by_step H2.
      assert (E3 : groq_api_key g3 = groq_api_key g2) by by_step H3.
      rewrite <- E1, <- E2, <- E3 in Hk.
      destruct (@refresh_groq_outcome w g3 g4 l4 k resp H4 Hk Hne Hr) as [G1 G2].
      split.
      * intros Ho. rewrite (G1 Ho).
        transitivity (cached (lit "groq") g2); [by_step H3|].
        transitivity (cached (lit "groq") g1); [by_step H2|by_step H1].
      * intros data Ho Hp. apply (G2 data Ho Hp).
Qed.

Lemma refresh_failure_modes_witness :
  local_models (state_of (refresh_available_models world_no_ollama gs_openai)) = [] /\
  cached (lit "openai") (state_of (refresh_available_models world_no_ollama gs_openai)) =
    Some [lit "gpt-4"].
Proof.
  destruct (@refresh_failure_modes world_no_ollama gs_openai)
    as (_ & _ & _ & _ & H).
  destruct H as (L & _ & _ & O & _); [vm_compute; reflexivity|].
  split.
  - apply (L connection_refused). reflexivity.
  - apply (O (lit "env-key") [lit "gpt-4"; lit "whisper-1"]); reflexivity.
Defined.

(** ** The registry of a reachable instance *)

Lemma dict_set_In V (d : odict V) k v p l :
  In (p, l) (dict_set d k v) -> (p = k /\ l = v) \/ In (p, l) d.
Proof.
  induction d as [|[k0 v0] d IH]; simpl.
  - intros [H|[]]. injection H as <- <-. auto.
  - destruct (str_eqb k k0); simpl.
    + intros [H|H]; [injection H as <- <-; auto|auto].
    + intros [H|H]; [auto|]. destruct (IH H); auto.
Qed.

Lemma registry_mid_ok gs : registry_mid gs -> registry_ok gs.
Proof.
  intros (H1 & H2 & H3). split; [exact H1|]. split; [exact H2|].
  intros H. right. apply H3, H.
Qed.

Lemma registry_ok_empty gs : online_models gs = [] -> registry_ok gs.
Proof.
  intros H. unfold registry_ok, cached. rewrite H. simpl.
  split; [intros p l []|]. split; auto.
Qed.

Lemma registry_ok_ext gs g :
  online_models g = online_models gs -> openai_client g = openai_client gs ->
  registry_ok gs -> registry_ok g.
Proof. unfold registry_ok, cached. intros -> ->. auto. Qed.

Lemma registry_mid_ext gs g :
  online_models g = online_models gs -> openai_client g = openai_client gs ->
  registry_mid gs -> registry_mid g.
Proof. unfold registry_mid, cached. intros -> ->. auto. Qed.

(** Writing the [openai] entry of a well-formed registry. *)
Lemma registry_set_openai gs v :
  openai_client gs <> None -> registry_ok gs ->
  registry_mid (set_online (lit "openai") v gs).
Proof.
  intros Hc (H1 & H2 & H3). unfold registry_mid, cached, set_online. simpl.
  split; [|split].
  - intros p l H. apply dict_set_In in H. destruct H as [[-> _]|H]; [auto|].
    apply (H1 p l H).
  - intros H. contradiction.
  - intros _. destruct (H3 Hc) as [-> | (l & rest & ->)]; simpl; eauto.
Qed.

(** Writing the [claude] or the [groq] entry leaves [openai] in front. *)
Lemma registry_set_other gs k v :
  k = lit "claude" \/ k = lit "groq" ->
  registry_mid gs -> registry_mid (set_online k v gs).
Proof.
  intros Hk (H1 & H2 & H3). unfold registry_mid.
  assert (Hne : str_eqb (lit "openai") k = false /\ str_eqb k (lit "openai") = false)
    by (destruct Hk as [-> | ->]; split; reflexivity).
  destruct Hne as [Hne Hne'].
  split; [|split].
  - unfold set_online. simpl. intros p l H. apply dict_set_In in H.
    destruct H as [[-> _]|H]; [tauto|]. apply (H1 p l H).
  - intros H. rewrite cached_set_online_other by exact Hne. apply H2, H.
  - intros H. destruct (H3 H) as (l & rest & E).
    unfold set_online. simpl. rewrite E. simpl. rewrite Hne'. eauto.
Qed.

Lemma refresh_openai_mid w gs g l :
  refresh_openai w gs = (g, l, Ret tt) -> registry_ok gs -> registry_mid g.
Proof.
  rewrite refresh_openai_run. intros H Hok.
  destruct (openai_client gs) as [k|] eqn:Hk.
  - destruct (openai_models_list w k); [discriminate|].
    injection H as <- _. apply registry_set_openai; [congruence|exact Hok].
  - injection H as <- _. destruct Hok as (H1 & H2 & H3).
    split; [exact H1|]. split; [exact H2|]. intros H. congruence.
Qed.

Lemma refresh_claude_mid w gs g l r :
  refresh_claude w gs = (g, l, r) -> registry_mid gs -> registry_mid g.
Proof.
  rewrite refresh_claude_run. intros H Hmid. cbv zeta in H.
  repeat match type of H with
         | context [match ?x with _ => _ end] => destruct x
         end;
    injection H as <- _ _; try exact Hmid.
  all: apply registry_set_other; auto.
Qed.

Lemma refresh_groq_mid w gs g l r :
  refresh_groq w gs = (g, l, r) -> registry_mid gs -> registry_mid g.
Proof.
  rewrite refresh_groq_run. intros H Hmid. cbv zeta in H.
  repeat match type of H with
         | context [match ?x with _ => _ end] => destruct x
         | context [if ?x then _ else _] => destruct x
         end;
    injection H as <- _ _; try exact Hmid.
  all: apply registry_set_other; auto.
Qed.

(** A refresh keeps the registry well formed. *)
Lemma refresh_available_models_ok w gs :
  registry_ok gs -> registry_ok (state_of (refresh_available_models w gs)).
Proof.
  intros Hok.
  destruct (refresh_available_models_run w gs) as (_ & Hwipe & Hkeep).
  destruct (refresh_body_cases w gs)
    as [[e He] | (g1 & g2 & g3 & g4 & l1 & l2 & l3 & l4 & H1 & H2 & H3 & H4 & Hb)].
  - apply registry_ok_empty. apply (Hwipe e He).
  - rewrite Hkeep by (rewrite Hb; reflexivity). rewrite Hb. unfold state_of. simpl.
    apply registry_mid_ok.
    apply (@refresh_groq_mid w g3 g4 l4 (Ret tt) H4).
    apply (@refresh_claude_mid w g2 g3 l3 (Ret tt) H3).
    apply (@refresh_openai_mid w g1 g2 l2 H2).
    apply (@registry_ok_ext gs g1); [by_step H1|by_step H1|exact Hok].
Qed.

Lemma first_provider_In d m p :
  first_provider d m = Some p -> exists l, In (p, l) d /\ str_in m l = true.
Proof.
  induction d as [|[p' l'] d IH]; simpl; [discriminate|].
  destruct (str_in m l') eqn:Hm.
  - intros H. injection H as <-. eauto.
  - intros H. destruct (IH H) as (l & Hl & Hin). eauto.
Qed.

Lemma first_provider_cached d m p :
  first_provider d m = Some p -> exists l, dict_get d p = Some l.
Proof.
  induction d as [|[p' l'] d IH]; simpl; [discriminate|].
  destruct (str_in m l').
  - intros H. injection H as <-. rewrite str_eqb_refl. eauto.
  - intros H. destruct (str_eqb p p'); eauto.
Qed.

(** The provider of a model is [local] or a tag of the registry. *)
Lemma _get_provider_from_model_cases gs m :
  _get_provider_from_model gs m = lit "local" \/
  (str_in m (local_models gs) = false /\
   first_provider (online_models gs) m = Some (_get_provider_from_model gs m)).
Proof.
  unfold _get_provider_from_model.
  destruct (str_in m (local_models gs)); [auto|].
  destruct (first_provider (online_models gs) m); auto.
Qed.

Lemma provider_tags gs m :
  registry_ok gs ->
  let p := _get_provider_from_model gs m in
  p = lit "local" \/ p = lit "openai" \/ p = lit "claude" \/ p = lit "groq".
Proof.
  intros (H1 & _) p. subst p.
  destruct (_get_provider_from_model_cases gs m) as [H|[_ H]]; [auto|].
  apply first_provider_In in H. destruct H as (l & Hl & _).
  right. apply (H1 _ _ Hl).
Qed.

(** A model resolves to [openai] only when a client is held. *)
Lemma provider_openai_client gs m :
  registry_ok gs -> _get_provider_from_model gs m = lit "openai" ->
  openai_client gs <> None.
Proof.
  intros (_ & H2 & _) Hp Hc.
  destruct (_get_provider_from_model_cases gs m) as [H|[_ H]].
  - rewrite Hp in H. discriminate.
  - rewrite Hp in H. apply first_provider_cached in H. destruct H as [l Hl].
    specialize (H2 Hc). unfold cached in H2. congruence.
Qed.

(** What the override stage does, case by case. *)
Lemma use_api_key_run w r gs k :
  api_key r = Some k -> k <> [] ->
  let provider := _get_provider_from_model gs (model r) in
  forall l valid, _validate_api_key w k provider gs = (gs, l, Ret valid) ->
  use_api_key w r gs =
  if valid then
    if str_eqb provider (lit "groq") then (set_groq_api_key (Some k) gs, l, Ret tt)
    else if str_eqb provider (lit "anthropic") then
      match anthropic_Client w k with
      | Ret _ => (set_claude_client (Some k) gs, l, Ret tt)
      | Raise e => (gs, l, Raise e)
      end
    else if str_eqb provider (lit "openai") then
      match openai_Client w k with
      | Ret _ => (set_openai_client (Some k) gs, l, Ret tt)
      | Raise e => (gs, l, Raise e)
      end
    else (gs, l, Ret tt)
  else (gs, l, Raise (mk_exn ValueError (lit "Invalid API key for " ++ provider))).
Proof.
  intros Hk Hne provider l valid Hv. unfold use_api_key. rewrite Hk.
  destruct k as [|x k]; [contradiction|].
  unfold bindM at 1. unfold self at 1. fold provider.
  unfold bindM at 1. rewrite Hv.
  destruct valid.
  - destruct (str_eqb provider (lit "groq")).
    { unfold assign. rewrite app_nil_r. reflexivity. }
    destruct (str_eqb provider (lit "anthropic")).
    { run_method. destruct (anthropic_Client w (x :: k)); simpl;
        rewrite app_nil_r; reflexivity. }
    destruct (str_eqb provider (lit "openai")).
    { run_method. destruct (openai_Client w (x :: k)); simpl;
        rewrite app_nil_r; reflexivity. }
    unfold retM. rewrite app_nil_r. reflexivity.
  - unfold raiseM. rewrite app_nil_r. reflexivity.
Qed.

(** After the override stage, an evaluation changes no attribute. *)
Lemma evaluate_submission_state w r gs :
  state_of (evaluate_submission w r gs) = state_of (use_api_key w r gs).
Proof.
  unfold evaluate_submission, evaluate_body, tryM_Exception.
  unfold bindM at 1.
  destruct (use_api_key w r gs) as [[g l] [e|[]]]; [reflexivity|].
  unfold bindM, self.
  destruct (frame_call_and_parse w r
              (build_prompt r (_get_provider_from_model g (model r))) g) as [Hs _].
  unfold state_of in *.
  destruct (call_and_parse w r (build_prompt r (_get_provider_from_model g (model r))) g)
    as [[g' l'] [e|v]]; simpl in *; exact Hs.
Qed.

(** An evaluation keeps the registry well formed. *)
Lemma evaluate_submission_ok w r gs :
  registry_ok gs -> registry_ok (state_of (evaluate_submission w r gs)).
Proof.
  intros Hok. rewrite evaluate_submission_state.
  destruct (truthy (api_key r)) eqn:Ht.
  2:{ rewrite use_api_key_without_key by exact Ht. exact Hok. }
  unfold truthy in Ht. destruct (api_key r) as [[|x k]|] eqn:Hk; try discriminate.
  destruct (_validate_api_key_run w (x :: k) (_get_provider_from_model gs (model r)) gs)
    as (l & valid & Hv).
  rewrite (@use_api_key_run w r gs (x :: k) Hk ltac:(discriminate) l valid Hv).
  destruct valid; [|exact Hok].
  destruct (str_eqb _ (lit "groq")).
  { apply (@registry_ok_ext gs); [reflexivity|reflexivity|exact Hok]. }
  destruct (str_eqb _ (lit "anthropic")).
  { destruct (anthropic_Client w (x :: k)); [exact Hok|].
    apply (@registry_ok_ext gs); [reflexivity|reflexivity|exact Hok]. }
  destruct (str_eqb _ (lit "openai")) eqn:Ho; [|exact Hok].
  destruct (openai_Client w (x :: k)); [exact Hok|].
  apply str_eqb_eq in Ho.
  pose proof (@provider_openai_client gs (model r) Hok Ho) as Hc.
  destruct Hok as (H1 & H2 & H3). unfold registry_ok, cached. simpl.
  split; [exact H1|]. split; [discriminate|]. intros _. apply H3, Hc.
Qed.

(** Every instance has a well-formed registry. *)
Lemma reachable_registry_ok gs : reachable gs -> registry_ok gs.
Proof.
  induction 1 as [w1 w2 | o gs Hr IH].
  - unfold GradingSystem_init, bindM, state_of.
    destruct (_init_api_clients w1 GradingSystem_new) as [[g l] [e|[]]] eqn:Hi.
    + simpl. apply registry_ok_empty.
      change (online_models g) with
        (online_models (state_of (g, l, @Raise unit e))).
      rewrite <- Hi. apply (@_init_api_clients_preserves _ online_models); reflexivity.
    + assert (Hg : registry_ok g).
      { apply registry_ok_empty.
        change (online_models g) with
          (online_models (state_of (g, l, Ret tt))).
        rewrite <- Hi. apply (@_init_api_clients_preserves _ online_models); reflexivity. }
      pose proof (@refresh_available_models_ok w2 g Hg) as H.
      unfold state_of in H.
      destruct (refresh_available_models w2 g) as [[g' l'] r']. exact H.
  - destruct o as [w|w r]; simpl.
    + apply refresh_available_models_ok, IH.
    + apply evaluate_submission_ok, IH.
Qed.

(** ** Provider resolution *)

Lemma str_in_false x l : ~ In x l -> str_in x l = false.
Proof.
  intros H. destruct (str_in x l) eqn:E; [|reflexivity].
  apply str_in_In in E. contradiction.
Qed.

(** C8: on the registry of every instance, a model id in the cached
    [openai] list and not in the local list resolves to "openai"; an id in
    the local list resolves to "local", and so does an id found in no
    list. *)
Theorem provider_resolution (gs : GradingSystem) :
  reachable gs ->
  (forall m, In m (online_get gs (lit "openai")) -> ~ In m (local_models gs) ->
     _get_provider_from_model gs m = lit "openai") /\
  (forall m, In m (local_models gs) -> _get_provider_from_model gs m = lit "local") /\
  (forall m, ~ In m (local_models gs) ->
     (forall p l, In (p, l) (online_models gs) -> ~ In m l) ->
     _get_provider_from_model gs m = lit "local").
Proof.
  intros Hr. apply reachable_registry_ok in Hr. destruct Hr as (H1 & H2 & H3).
  split; [|split].
  - intros m Hin Hloc. unfold _get_provider_from_model.
    rewrite (str_in_false _ _ Hloc).
    unfold online_get in Hin. unfold cached in H2.
    destruct (dict_get (online_models gs) (lit "openai")) as [l|] eqn:Hd; [|destruct Hin].
    assert (Hc : openai_client gs <> None).
    { intros Hc. specialize (H2 Hc). discriminate. }
    destruct (H3 Hc) as [E | (l' & rest & E)]; rewrite E in Hd; simpl in Hd.
    + discriminate.
    + injection Hd as ->. rewrite E. simpl.
      apply str_in_In in Hin. rewrite Hin. reflexivity.
  - intros m Hin. unfold _get_provider_from_model.
    apply str_in_In in Hin. rewrite Hin. reflexivity.
  - intros m Hloc Hnone. unfold _get_provider_from_model.
    rewrite (str_in_false _ _ Hloc).
    destruct (first_provider (online_models gs) m) as [p|] eqn:Hp; [|reflexivity].
    apply first_provider_In in Hp. destruct Hp as (l & Hl & Hin).
    apply str_in_In in Hin. destruct (Hnone p l Hl Hin).
Qed.

Lemma provider_resolution_witness :
  _get_provider_from_model gs_openai (lit "gpt-4") = lit "openai" /\
  _get_provider_from_model gs_openai (lit "mistral") = lit "local".
Proof.
  destruct (@provider_resolution gs_openai) as (A & _ & C).
  { unfold gs_openai. apply reach_init. }
  split.
  - apply A.
    + vm_compute. auto.
    + vm_compute. intros [H|[]]. discriminate H.
  - apply C.
    + vm_compute. intros [H|[]]. discriminate H.
    + vm_compute. intros p l [H|[]]. injection H as <- <-.
      intros [H|[]]. discriminate H.
Defined.

(** ** The network calls of an evaluation *)

Lemma silent_retM A (a : A) : silent (retM a).
Proof. intros gs. reflexivity. Qed.

Lemma silent_raiseM A e : silent (@raiseM A e).
Proof. intros gs. reflexivity. Qed.

Lemma silent_liftE A (r : E A) : silent (liftE r).
Proof. intros gs. reflexivity. Qed.

Lemma silent_bindM A B (m : M A) (f : A -> M B) :
  silent m -> (forall a, silent (f a)) -> silent (bindM m f).
Proof.
  intros Hm Hf gs. specialize (Hm gs). unfold bindM, calls_of in *.
  destruct (m gs) as [[g l] [e|a]]; simpl in *; [exact Hm|].
  specialize (Hf a g). unfold calls_of in Hf.
  destruct (f a g) as [[g' l'] r]. simpl in *. subst. reflexivity.
Qed.

Lemma calls_bindM_silent A B (m : M A) (f : A -> M B) gs :
  (forall a, silent (f a)) -> calls_of (bindM m f gs) = calls_of (m gs).
Proof.
  intros Hf. unfold bindM, calls_of.
  destruct (m gs) as [[g l] [e|a]]; simpl; [reflexivity|].
  specialize (Hf a g). unfold calls_of in Hf.
  destruct (f a g) as [[g' l'] r]. simpl in *. subst. apply app_nil_r.
Qed.

Lemma calls_tryM_Exception_silent A (m : M A) h gs :
  (forall e, silent (h e)) -> calls_of (tryM_Exception m h gs) = calls_of (m gs).
Proof.
  intros Hh. unfold tryM_Exception, calls_of.
  destruct (m gs) as [[g l] [e|a]]; simpl; [|reflexivity].
  specialize (Hh e g). unfold calls_of in Hh.
  destruct (h e g) as [[g' l'] r]. simpl in *. subst. apply app_nil_r.
Qed.

Lemma bindM_self A B (f : GradingSystem -> A) (k : A -> M B) gs :
  bindM (self f) k gs = k (f gs) gs.
Proof. unfold bindM, self. destruct (k (f gs) gs) as [[g l] r]. reflexivity. Qed.

Lemma bindM_retM A B (a : A) (k : A -> M B) gs : bindM (retM a) k gs = k a gs.
Proof. unfold bindM, retM. destruct (k a gs) as [[g l] r]. reflexivity. Qed.

(** The only network calls of the inner [try] are those of the call of
    the model. *)
Lemma call_and_parse_calls w r prompt gs :
  calls_of (call_and_parse w r prompt gs) = calls_of (gateway_call w r prompt gs gs).
Proof.
  unfold call_and_parse, call_and_parse_body.
  rewrite calls_tryM_Exception_silent by (intros; apply silent_retM).
  rewrite bindM_self.
  apply calls_bindM_silent. intros response.
  apply silent_bindM; [apply silent_liftE|]. intros res.
  apply silent_bindM; [apply silent_liftE|]. intros res'.
  destruct (update_callback r).
  - apply silent_bindM; [apply silent_liftE|]. intros. apply silent_retM.
  - apply silent_retM.
Qed.

(** Without an override key, an evaluation makes the calls of the call of
    the model and no other. *)
Lemma evaluate_submission_calls w r gs :
  truthy (api_key r) = false ->
  calls_of (evaluate_submission w r gs) =
  calls_of (gateway_call w r (build_prompt r (_get_provider_from_model gs (model r))) gs gs).
Proof.
  intros Ht. unfold evaluate_submission, evaluate_body.
  rewrite calls_tryM_Exception_silent by (intros; apply silent_retM).
  rewrite (@use_api_key_without_key w r Ht), bindM_retM, bindM_self.
  apply call_and_parse_calls.
Qed.

Lemma _call_openai_api_calls w prompt model gs k :
  openai_client gs = Some k ->
  calls_of (_call_openai_api w prompt model gs) = [mk_call OpenAIChat (Some k)].
Proof.
  intros Hk. unfold _call_openai_api. rewrite bindM_self, Hk.
  rewrite calls_tryM_Exception_silent by (intros; apply silent_raiseM).
  rewrite calls_bindM_silent by (intros; apply silent_retM). reflexivity.
Qed.

Lemma _call_groq_api_calls w prompt model gs k :
  groq_api_key gs = Some k -> k <> [] ->
  calls_of (_call_groq_api w prompt model gs) = [mk_call GroqChat (Some k)].
Proof.
  intros Hk Hne. unfold _call_groq_api. rewrite bindM_self, Hk.
  destruct k as [|x k]; [contradiction|].
  rewrite calls_tryM_Exception_silent by (intros; apply silent_raiseM).
  rewrite calls_bindM_silent; [reflexivity|].
  intros reply. destruct (g_ok reply); [apply silent_liftE|apply silent_raiseM].
Qed.

(** Without an override key, an evaluation changes no attribute, and its
    chat calls carry the credentials the instance holds. *)
Lemma evaluate_submission_frame w r gs :
  truthy (api_key r) = false ->
  frame_at stored_credential (evaluate_submission w r) gs.
Proof.
  intros Ht. unfold evaluate_submission, evaluate_body.
  rewrite (@use_api_key_without_key w r Ht).
  apply frame_tryM_Exception; [|auto with frame].
  apply frame_bindM; [auto with frame|]. intros _ _.
  apply frame_bindM; [auto with frame|]. intros p _.
  apply frame_call_and_parse.
Qed.

(** ** The override key, once validated *)

Lemma step_no_override o gs :
  no_override o = true ->
  openai_client (step o gs) = openai_client gs /\
  claude_client (step o gs) = claude_client gs /\
  groq_api_key (step o gs) = groq_api_key gs.
Proof.
  destruct o as [w|w r]; simpl; intros H.
  - repeat split; apply refresh_available_models_preserves; reflexivity.
  - apply negb_true_iff in H.
    destruct (@evaluate_submission_frame w r gs H) as [-> _]. auto.
Qed.

Lemma run_no_override ops gs :
  forallb no_override ops = true ->
  openai_client (run ops gs) = openai_client gs /\
  claude_client (run ops gs) = claude_client gs /\
  groq_api_key (run ops gs) = groq_api_key gs.
Proof.
  revert gs. induction ops as [|o ops IH]; intros gs H; simpl in *; [auto|].
  apply andb_true_iff in H. destruct H as [Ho Hops].
  destruct (@IH (step o gs) Hops) as (A & B & C).
  destruct (@step_no_override o gs Ho) as (A' & B' & C').
  unfold run in *. repeat split; congruence.
Qed.

Lemma reachable_run ops gs : reachable gs -> reachable (run ops gs).
Proof.
  revert gs. induction ops as [|o ops IH]; intros gs H; simpl; [exact H|].
  apply IH. apply reach_step, H.
Qed.

(** On an instance, only an [openai] or a [groq] model can have its key
    overridden; the validated key is then stored. *)
Lemma valid_override_cases w r gs k :
  registry_ok gs -> api_key r = Some k -> k <> [] ->
  result_of (_validate_api_key w k (_get_provider_from_model gs (model r)) gs) = Ret true ->
  (_get_provider_from_model gs (model r) = lit "openai" /\
   state_of (evaluate_submission w r gs) = set_openai_client (Some k) gs) \/
  (_get_provider_from_model gs (model r) = lit "groq" /\
   state_of (evaluate_submission w r gs) = set_groq_api_key (Some k) gs).
Proof.
  intros Hok Hk Hne Hv. rewrite evaluate_submission_state.
  destruct (_validate_api_key_run w k (_get_provider_from_model gs (model r)) gs)
    as (l & valid & Hrun).
  pose proof (@_validate_api_key_true w k _ gs Hv) as Hcases.
  rewrite Hrun in Hv. simpl in Hv. injection Hv as ->.
  rewrite (@use_api_key_run w r gs k Hk Hne l true Hrun).
  destruct (@provider_tags gs (model r) Hok) as [Hp|[Hp|[Hp|Hp]]];
    rewrite Hp in *; simpl.
  - destruct Hcases as [H|[H|[H _]]]; discriminate H.
  - left. destruct Hcases as [H|[H|[_ H]]]; try discriminate H.
    rewrite H. auto.
  - destruct Hcases as [H|[H|[H _]]]; discriminate H.
  - right. auto.
Qed.

(** C10: on every instance, when a supplied override key passes validation,
    the model is an OpenAI or a Groq one and the key replaces the stored
    client or key of that provider.  It stays stored through any later
    refreshes and evaluations without override; every chat call that such
    a later evaluation makes to that provider carries the override key,
    and an evaluation of a model of that provider makes exactly that
    call. *)
Theorem override_replaces_credential
    (w : world) (r : request) (gs : GradingSystem) (k : str)
    (ops : list op) (w' : world) (r' : request) :
  reachable gs ->
  api_key r = Some k -> k <> [] ->
  result_of (_validate_api_key w k (_get_provider_from_model gs (model r)) gs) = Ret true ->
  forallb no_override ops = true ->
  truthy (api_key r') = false ->
  let provider := _get_provider_from_model gs (model r) in
  let gs1 := state_of (evaluate_submission w r gs) in
  let gs2 := run ops gs1 in
  let later := evaluate_submission w' r' gs2 in
  (provider = lit "openai" /\
   openai_client gs1 = Some k /\ openai_client gs2 = Some k /\
   (forall c, In c (calls_of later) -> call_to c = OpenAIChat -> credential c = Some k) /\
   (str_in (model r') (online_get gs2 (lit "openai")) = true ->
    calls_of later = [mk_call OpenAIChat (Some k)])) \/
  (provider = lit "groq" /\
   groq_api_key gs1 = Some k /\ groq_api_key gs2 = Some k /\
   (forall c, In c (calls_of later) -> call_to c = GroqChat -> credential c = Some k) /\
   (str_in (model r') (online_get gs2 (lit "openai")) = false ->
    str_in (model r') (online_get gs2 (lit "claude")) = false ->
    str_in (model r') (online_get gs2 (lit "groq")) = true ->
    calls_of later = [mk_call GroqChat (Some k)])).
Proof.
  intros Hr Hk Hne Hv Hops Ht provider gs1 gs2 later.
  destruct (@run_no_override ops gs1 Hops) as (Ho & _ & Hg). fold gs2 in Ho, Hg.
  destruct (@evaluate_submission_frame w' r' gs2 Ht) as [_ Hcalls].
  fold later in Hcalls. rewrite Forall_forall in Hcalls.
  pose proof (@evaluate_submission_calls w' r' gs2 Ht) as Hlog. fold later in Hlog.
  destruct (@valid_override_cases w r gs k (@reachable_registry_ok gs Hr) Hk Hne Hv)
    as [[Hp Hs]|[Hp Hs]]; fold gs1 in Hs; fold provider in Hp.
  - left. assert (H1 : openai_client gs1 = Some k) by (rewrite Hs; reflexivity).
    assert (H2 : openai_client gs2 = Some k) by congruence.
    repeat split; try assumption.
    + intros c Hc Hto. specialize (Hcalls c Hc). unfold stored_credential in Hcalls.
      rewrite Hto in Hcalls. congruence.
    + intros Hin. rewrite Hlog. unfold gateway_call. rewrite Hin.
      apply _call_openai_api_calls, H2.
  - right. assert (H1 : groq_api_key gs1 = Some k) by (rewrite Hs; reflexivity).
    assert (H2 : groq_api_key gs2 = Some k) by congruence.
    repeat split; try assumption.
    + intros c Hc Hto. specialize (Hcalls c Hc). unfold stored_credential in Hcalls.
      rewrite Hto in Hcalls. congruence.
    + intros Hin1 Hin2 Hin3. rewrite Hlog. unfold gateway_call.
      rewrite Hin1, Hin2, Hin3. apply _call_groq_api_calls; assumption.
Qed.

Lemma override_replaces_credential_witness :
  calls_of
    (evaluate_submission world_openai (sample_request (lit "gpt-4") None)
       (run [Refresh world_openai;
             Evaluate world_openai (sample_request (lit "llama3") None)]
          (state_of
             (evaluate_submission world_openai
                (sample_request (lit "gpt-4") (Some (lit "sk-new"))) gs_openai)))) =
  [mk_call OpenAIChat (Some (lit "sk-new"))].
Proof.
  destruct (@override_replaces_credential
              world_openai (sample_request (lit "gpt-4") (Some (lit "sk-new")))
              gs_openai (lit "sk-new")
              [Refresh world_openai;
               Evaluate world_openai (sample_request (lit "llama3") None)]
              world_openai (sample_request (lit "gpt-4") None))
    as [(_ & _ & _ & _ & H)|(Hp & _)].
  - unfold gs_openai. apply reach_init.
  - reflexivity.
  - discriminate.
  - vm_compute. reflexivity.
  - reflexivity.
  - reflexivity.
  - apply H. vm_compute. reflexivity.
  - vm_compute in Hp. discriminate Hp.
Defined.

(* ===================================================================== *)
(** * Further properties of the grading system *)

(** ** [_validate_api_key] *)

Lemma _validate_api_key_eq w k provider gs :
  _validate_api_key w k provider gs =
  if str_eqb (lower provider) (lit "groq") then
    (gs, [mk_call GroqModels (Some k)],
     Ret (match get_groq_models w k with Ret resp => ok resp | Raise _ => false end))
  else if str_eqb (lower provider) (lit "anthropic") then
    (gs, [mk_call AnthropicModels (Some k)],
     Ret (match get_anthropic_models w k with Ret resp => ok resp | Raise _ => false end))
  else if str_eqb (lower provider) (lit "openai") then
    match openai_Client w k with
    | Raise _ => (gs, [], Ret false)
    | Ret _ =>
        (gs, [mk_call OpenAIModels (Some k)],
         Ret (match openai_models_list w k with Ret _ => true | Raise _ => false end))
    end
  else (gs, [], Ret false).
Proof.
  unfold _validate_api_key.
  destruct (str_eqb (lower provider) (lit "groq")).
  { run_method. destruct (get_groq_models w k); reflexivity. }
  destruct (str_eqb (lower provider) (lit "anthropic")).
  { run_method. destruct (get_anthropic_models w k); reflexivity. }
  destruct (str_eqb (lower provider) (lit "openai")); [|reflexivity].
  run_method. destruct (openai_Client w k); [reflexivity|].
  destruct (openai_models_list w k); reflexivity.
Qed.

(** X1: validating a key never raises and changes no attribute; it makes
    at most one network call, to a listing endpoint and with the key under
    test; and it answers true exactly when the listing endpoint of the
    provider (matched without regard to case) answers OK, or, for OpenAI,
    when the client can be built and the listing call returns.  The call is
    the Groq listing for "groq", the Anthropic listing for "anthropic", the
    OpenAI listing for "openai" once the client is built; for any other
    provider name no call is made and the answer is false. *)
Theorem _validate_api_key_spec (w : world) (k provider : str) (gs : GradingSystem) :
  exists l b,
    _validate_api_key w k provider gs = (gs, l, Ret b) /\
    (length l <= 1)%nat /\
    (forall c, In c l ->
       credential c = Some k /\
       (call_to c = GroqModels \/ call_to c = AnthropicModels \/ call_to c = OpenAIModels)) /\
    (b = true <->
     (lower provider = lit "groq" /\
      exists resp, get_groq_models w k = Ret resp /\ ok resp = true) \/
     (lower provider = lit "anthropic" /\
      exists resp, get_anthropic_models w k = Ret resp /\ ok resp = true) \/
     (lower provider = lit "openai" /\
      openai_Client w k = Ret tt /\ exists ids, openai_models_list w k = Ret ids)) /\
    (lower provider = lit "groq" -> l = [mk_call GroqModels (Some k)]) /\
    (lower provider = lit "anthropic" -> l = [mk_call AnthropicModels (Some k)]) /\
    (lower provider = lit "openai" ->
     l = match openai_Client w k with
         | Ret _ => [mk_call OpenAIModels (Some k)]
         | Raise _ => []
         end) /\
    (lower provider <> lit "groq" -> lower provider <> lit "anthropic" ->
     lower provider <> lit "openai" -> l = [] /\ b = false).
Proof.
  rewrite _validate_api_key_eq.
  destruct (str_eqb (lower provider) (lit "groq")) eqn:Hg.
  { apply str_eqb_eq in Hg. do 2 eexists. split; [reflexivity|].
    split; [simpl; lia|]. split; [|split].
    - intros c [<-|[]]. simpl. auto.
    - rewrite Hg. split.
      + destruct (get_groq_models w k) as [e|resp]; [discriminate|]. eauto 6.
      + intros [(_ & resp & -> & H)|[(H & _)|(H & _)]]; [exact H|discriminate H..].
    - rewrite Hg. repeat split; intros; try reflexivity; try discriminate;
        contradiction. }
  destruct (str_eqb (lower provider) (lit "anthropic")) eqn:Ha.
  { apply str_eqb_eq in Ha. do 2 eexists. split; [reflexivity|].
    split; [simpl; lia|]. split; [|split].
    - intros c [<-|[]]. simpl. auto.
    - rewrite Ha. split.
      + destruct (get_anthropic_models w k) as [e|resp]; [discriminate|]. eauto 7.
      + intros [(H & _)|[(_ & resp & -> & H)|(H & _)]];
          [discriminate H|exact H|discriminate H].
    - rewrite Ha. repeat split; intros; try reflexivity; try discriminate;
        contradiction. }
  destruct (str_eqb (lower provider) (lit "openai")) eqn:Ho.
  { apply str_eqb_eq in Ho. rewrite Ho.
    destruct (openai_Client w k) as [e|[]].
    - do 2 eexists. split; [reflexivity|]. split; [simpl; lia|]. split; [|split].
      + intros c [].
      + split; [discriminate|].
        intros [(H & _)|[(H & _)|(_ & H & _)]]; discriminate H.
      + repeat split; intros; try reflexivity; try discriminate; contradiction.
    - do 2 eexists. split; [reflexivity|]. split; [simpl; lia|]. split; [|split].
      + intros c [<-|[]]. simpl. auto.
      + split.
        * destruct (openai_models_list w k) as [e|ids]; [discriminate|]. eauto 8.
        * intros [(H & _)|[(H & _)|(_ & _ & ids & ->)]];
            [discriminate H|discriminate H|reflexivity].
      + repeat split; intros; try reflexivity; try discriminate; contradiction. }
  do 2 eexists. split; [reflexivity|]. split; [simpl; lia|]. split; [|split].
  - intros c [].
  - split; [discriminate|].
    intros [(H & _)|[(H & _)|(H & _)]]; rewrite H in *; discriminate.
  - repeat split; intros H; try reflexivity; rewrite H in *; discriminate.
Qed.

(** ** Override keys that can never be accepted *)

Lemma evaluate_submission_invalid w r gs k l :
  api_key r = Some k -> k <> [] ->
  _validate_api_key w k (_get_provider_from_model gs (model r)) gs = (gs, l, Ret false) ->
  evaluate_submission w r gs =
  (gs, l,
   Ret (system_error_record
          (mk_exn ValueError
             (lit "Invalid API key for " ++ _get_provider_from_model gs (model r))))).
Proof.
  intros Hk Hne Hv. unfold evaluate_submission, evaluate_body, tryM_Exception.
  unfold bindM at 1.
  rewrite (@use_api_key_run w r gs k Hk Hne l false Hv).
  unfold retM. rewrite app_nil_r. reflexivity.
Qed.

(** X2: on every instance, an override key supplied for a model that
    resolves neither to "openai" nor to "groq" (a local model, a Claude
    model, an unknown model) is rejected without any network call: the
    evaluation returns the record of the error "Invalid API key for
    <provider>" and changes no attribute, whatever the key. *)
Theorem override_key_rejected (w : world) (r : request) (gs : GradingSystem) (k : str) :
  reachable gs -> api_key r = Some k -> k <> [] ->
  _get_provider_from_model gs (model r) <> lit "openai" ->
  _get_provider_from_model gs (model r) <> lit "groq" ->
  evaluate_submission w r gs =
  (gs, [],
   Ret (system_error_record
          (mk_exn ValueError
             (lit "Invalid API key for " ++ _get_provider_from_model gs (model r))))).
Proof.
  intros Hr Hk Hne Ho Hg.
  apply (@evaluate_submission_invalid w r gs k [] Hk Hne).
  rewrite _validate_api_key_eq.
  destruct (@provider_tags gs (model r) (@reachable_registry_ok gs Hr))
    as [Hp|[Hp|[Hp|Hp]]]; try contradiction; rewrite Hp; reflexivity.
Qed.

Lemma override_key_rejected_witness :
  evaluate_submission world_openai
    (sample_request (lit "llama3") (Some (lit "sk-new"))) gs_openai =
  (gs_openai, [],
   Ret (system_error_record
          (mk_exn ValueError (lit "Invalid API key for " ++ lit "local")))).
Proof.
  apply (@override_key_rejected world_openai
           (sample_request (lit "llama3") (Some (lit "sk-new"))) gs_openai (lit "sk-new")).
  - unfold gs_openai. apply reach_init.
  - reflexivity.
  - discriminate.
  - vm_compute. discriminate.
  - vm_compute. discriminate.
Defined.

Lemma evaluate_submission_claude_client w r gs :
  registry_ok gs ->
  claude_client (state_of (evaluate_submission w r gs)) = claude_client gs.
Proof.
  intros Hok. destruct (truthy (api_key r)) eqn:Ht.
  2:{ destruct (@evaluate_submission_frame w r gs Ht) as [-> _]. reflexivity. }
  unfold truthy in Ht. destruct (api_key r) as [[|x k]|] eqn:Hk; try discriminate.
  destruct (_validate_api_key_run w (x :: k) (_get_provider_from_model gs (model r)) gs)
    as (l & [|] & Hv).
  - destruct (@valid_override_cases w r gs (x :: k) Hok Hk ltac:(discriminate))
      as [[_ ->]|[_ ->]]; try reflexivity; rewrite Hv; reflexivity.
  - rewrite (@evaluate_submission_invalid w r gs (x :: k) l Hk ltac:(discriminate) Hv).
    reflexivity.
Qed.

(** X3: the Claude client of an instance is fixed when the instance is
    built: no refresh and no evaluation, with or without an override key,
    ever replaces it. *)
Theorem claude_client_never_replaced (gs : GradingSystem) (ops : list op) :
  reachable gs -> claude_client (run ops gs) = claude_client gs.
Proof.
  revert gs. induction ops as [|o ops IH]; intros gs Hr; [reflexivity|].
  simpl. change (claude_client (run ops (step o gs)) = claude_client gs).
  rewrite IH by (apply reach_step, Hr).
  destruct o as [w|w r]; simpl.
  - apply refresh_available_models_preserves; reflexivity.
  - apply evaluate_submission_claude_client, reachable_registry_ok, Hr.
Qed.

Lemma claude_client_never_replaced_witness :
  claude_client
    (run [Evaluate world_openai (sample_request (lit "gpt-4") (Some (lit "sk-new")));
          Refresh world_openai_down] gs_openai) = None.
Proof.
  rewrite (@claude_client_never_replaced gs_openai).
  - reflexivity.
  - unfold gs_openai. apply reach_init.
Defined.

(** ** Building an instance *)

Lemma total_retM A (a : A) : total (retM a).
Proof. intros gs. eexists. reflexivity. Qed.

Lemma total_assign f : total (assign f).
Proof. intros gs. eexists. reflexivity. Qed.

Lemma total_bindM A B (m : M A) (f : A -> M B) :
  total m -> (forall a, total (f a)) -> total (bindM m f).
Proof.
  intros Hm Hf gs. destruct (Hm gs) as [a Ha]. unfold bindM, result_of in *.
  destruct (m gs) as [[g l] res]. simpl in Ha. subst res.
  destruct (Hf a g) as [b Hb]. unfold result_of in Hb.
  destruct (f a g) as [[g' l'] res']. simpl in *. eauto.
Qed.

Lemma total_tryM_Exception A (m : M A) h :
  (forall e, total (h e)) -> total (tryM_Exception m h).
Proof.
  intros Hh gs. unfold tryM_Exception, result_of.
  destruct (m gs) as [[g l] [e|a]]; [|simpl; eauto].
  destruct (Hh e g) as [b Hb]. unfold result_of in Hb.
  destruct (h e g) as [[g' l'] res']. simpl in *. eauto.
Qed.

Lemma total__validate_api_key w k provider : total (_validate_api_key w k provider).
Proof.
  intros gs. destruct (_validate_api_key_run w k provider gs) as (l & b & H).
  rewrite H. eexists. reflexivity.
Qed.

Lemma total__init_api_clients w : total (_init_api_clients w).
Proof.
  unfold _init_api_clients.
  repeat first
    [ apply total_retM | apply total_assign | apply total__validate_api_key
    | apply total_tryM_Exception | apply total_bindM
    | match goal with |- forall _, _ => intro end
    | match goal with
      | |- total (if ?b then _ else _) => destruct b
      | |- total (match ?x with _ => _ end) => destruct x
      end ].
Qed.

Lemma total_refresh_available_models w : total (refresh_available_models w).
Proof.
  unfold refresh_available_models. apply total_tryM_Exception. intros e.
  apply total_bindM; [apply total_assign|intros; apply total_assign].
Qed.

(** X4: building a [GradingSystem] never raises, whatever the environment
    holds and whatever the providers answer. *)
Theorem GradingSystem_init_never_raises (w_clients w_refresh : world) :
  result_of (GradingSystem_init w_clients w_refresh GradingSystem_new) = Ret tt.
Proof.
  assert (H : total (GradingSystem_init w_clients w_refresh)).
  { unfold GradingSystem_init. apply total_bindM; [apply total__init_api_clients|].
    intros _. apply total_refresh_available_models. }
  destruct (H GradingSystem_new) as [[] Ha]. exact Ha.
Qed.

Lemma _validate_api_key_openai w k gs :
  _validate_api_key w k (lit "openai") gs =
  match openai_Client w k with
  | Raise _ => (gs, [], Ret false)
  | Ret _ =>
      (gs, [mk_call OpenAIModels (Some k)],
       Ret (match openai_models_list w k with Ret _ => true | Raise _ => false end))
  end.
Proof. rewrite _validate_api_key_eq. reflexivity. Qed.

Lemma _validate_api_key_anthropic w k gs :
  _validate_api_key w k (lit "anthropic") gs =
  (gs, [mk_call AnthropicModels (Some k)],
   Ret (match get_anthropic_models w k with Ret resp => ok resp | Raise _ => false end)).
Proof. rewrite _validate_api_key_eq. reflexivity. Qed.

Lemma _validate_api_key_groq w k gs :
  _validate_api_key w k (lit "groq") gs =
  (gs, [mk_call GroqModels (Some k)],
   Ret (match get_groq_models w k with Ret resp => ok resp | Raise _ => false end)).
Proof. rewrite _validate_api_key_eq. reflexivity. Qed.

(** The attributes [_init_api_clients] leaves on a new instance. *)
Lemma _init_api_clients_state w :
  state_of (_init_api_clients w GradingSystem_new) =
  mk_GradingSystem [] []
    (match environ w (lit "OPENAI_API_KEY") with
     | Some ((_ :: _) as k) =>
         match openai_Client w k, openai_models_list w k with
         | Ret _, Ret _ => Some k
         | _, _ => None
         end
     | _ => None
     end)
    (match environ w (lit "ANTHROPIC_API_KEY") with
     | Some ((_ :: _) as k) =>
         match get_anthropic_models w k with
         | Ret resp => if ok resp
                       then match anthropic_Client w k with
                            | Ret _ => Some k
                            | Raise _ => None
                            end
                       else None
         | Raise _ => None
         end
     | _ => None
     end)
    (match environ w (lit "GROQ_API_KEY") with
     | Some ((_ :: _) as k) =>
         match get_groq_models w k with
         | Ret resp => if ok resp then Some k else None
         | Raise _ => None
         end
     | _ => None
     end).
Proof.
  destruct (environ w (lit "OPENAI_API_KEY")) as [[|x1 k1]|] eqn:E1;
    destruct (environ w (lit "ANTHROPIC_API_KEY")) as [[|x2 k2]|] eqn:E2;
    destruct (environ w (lit "GROQ_API_KEY")) as [[|x3 k3]|] eqn:E3;
    repeat match goal with
           | |- context [openai_Client w ?k] =>
               destruct (openai_Client w k) as [?|[]] eqn:?
           | |- context [openai_models_list w ?k] =>
               destruct (openai_models_list w k) eqn:?
           | |- context [get_anthropic_models w ?k] =>
               destruct (get_anthropic_models w k) as [?|[[|] ?]] eqn:?
           | |- context [anthropic_Client w ?k] =>
               destruct (anthropic_Client w k) as [?|[]] eqn:?
           | |- context [get_groq_models w ?k] =>
               destruct (get_groq_models w k) as [?|[[|] ?]] eqn:?
           end;
    unfold _init_api_clients, bindM, tryM_Exception, assign, retM, liftE, state_of;
    rewrite ?E1, ?E2, ?E3;
    repeat first
      [ rewrite _validate_api_key_openai
      | rewrite _validate_api_key_anthropic
      | rewrite _validate_api_key_groq
      | match goal with H : ?t = _ |- context [?t] => rewrite H end
      | progress cbn [fst snd ok payload] ];
    reflexivity.
Qed.

Lemma GradingSystem_init_credentials X (f : GradingSystem -> X) w1 w2 gs :
  (forall l g, f (set_local_models l g) = f g) ->
  (forall d g, f (set_online_models d g) = f g) ->
  f (state_of (GradingSystem_init w1 w2 gs)) = f (state_of (_init_api_clients w1 gs)).
Proof.
  intros H1 H2. unfold GradingSystem_init, bindM, state_of.
  destruct (_init_api_clients w1 gs) as [[g l] [e|[]]]; [reflexivity|].
  pose proof (@refresh_available_models_preserves X f w2 H1 H2 g) as P.
  unfold state_of in P. destruct (refresh_available_models w2 g) as [[g' l'] r].
  exact P.
Qed.

Ltac oracle_cases w :=
  repeat match goal with
         | |- context [match environ w ?n with _ => _ end] =>
             destruct (environ w n) as [[|? ?]|] eqn:?
         | |- context [match openai_Client w ?k with _ => _ end] =>
             destruct (openai_Client w k) as [?|[]] eqn:?
         | |- context [match openai_models_list w ?k with _ => _ end] =>
             destruct (openai_models_list w k) eqn:?
         | |- context [match get_anthropic_models w ?k with _ => _ end] =>
             destruct (get_anthropic_models w k) as [?|[[|] ?]] eqn:?
         | |- context [match anthropic_Client w ?k with _ => _ end] =>
             destruct (anthropic_Client w k) as [?|[]] eqn:?
         | |- context [match get_groq_models w ?k with _ => _ end] =>
             destruct (get_groq_models w k) as [?|[[|] ?]] eqn:?
         end.

(** X5: the credentials a new instance holds are exactly the keys of the
    environment that passed validation when it was built: an OpenAI client
    for the key [k] is held if and only if [OPENAI_API_KEY] is [k], not
    empty, the client could be built and the listing call returned; a
    Claude client or a Groq key, if and only if the variable holds [k] and
    the listing endpoint answered OK for it. *)
Theorem stored_credentials_validated (w_clients w_refresh : world) (k : str) :
  let gs := state_of (GradingSystem_init w_clients w_refresh GradingSystem_new) in
  (openai_client gs = Some k <->
   environ w_clients (lit "OPENAI_API_KEY") = Some k /\ k <> [] /\
   openai_Client w_clients k = Ret tt /\
   exists ids, openai_models_list w_clients k = Ret ids) /\
  (claude_client gs = Some k <->
   environ w_clients (lit "ANTHROPIC_API_KEY") = Some k /\ k <> [] /\
   anthropic_Client w_clients k = Ret tt /\
   exists resp, get_anthropic_models w_clients k = Ret resp /\ ok resp = true) /\
  (groq_api_key gs = Some k <->
   environ w_clients (lit "GROQ_API_KEY") = Some k /\ k <> [] /\
   exists resp, get_groq_models w_clients k = Ret resp /\ ok resp = true).
Proof.
  intros gs. subst gs.
  rewrite !GradingSystem_init_credentials by reflexivity.
  rewrite _init_api_clients_state. cbn [openai_client claude_client groq_api_key].
  split; [|split].
  - oracle_cases w_clients;
      (split;
       [ intros H; try discriminate H; injection H as <-;
         repeat split; eauto; discriminate
       | intros (Ha & Hb & Hc & ids & Hd); try congruence;
         try (injection Ha as <-; congruence) ]).
  - oracle_cases w_clients; cbn [ok];
      (split;
       [ intros H; try discriminate H; injection H as <-;
         repeat split; eauto; discriminate
       | intros (Ha & Hb & Hc & resp & Hd & He); try congruence;
         try (injection Ha as <-; try congruence;
              match goal with
              | H : get_anthropic_models _ _ = Ret _ |- _ =>
                  rewrite H in Hd; injection Hd as <-; discriminate He
              end) ]).
  - oracle_cases w_clients; cbn [ok];
      (split;
       [ intros H; try discriminate H; injection H as <-;
         repeat split; eauto; discriminate
       | intros (Ha & Hb & resp & Hd & He); try congruence;
         try (injection Ha as <-; try congruence;
              match goal with
              | H : get_groq_models _ _ = Ret _ |- _ =>
                  rewrite H in Hd; injection Hd as <-; discriminate He
              end) ]).
Qed.

(** ** [get_available_models] *)

Lemma get_available_models_run (w : world) (provider : str) (gs : GradingSystem) :
  get_available_models w provider gs =
  if str_eqb provider (lit "Local Only") then
    (gs, [mk_call OllamaTags None],
     Ret (match get_ollama_tags w with
          | Ret resp =>
              if ok resp
              then match payload resp with Ret names => names | Raise _ => [] end
              else []
          | Raise _ => []
          end))
  else (gs, [], Ret (online_get gs (lower provider))).
Proof.
  unfold get_available_models, online_get.
  destruct (str_eqb provider (lit "Local Only")).
  - run_method. destruct (get_ollama_tags w) as [e|resp]; simpl.
    + destruct (isinstance e RequestException); reflexivity.
    + destruct (ok resp); [|reflexivity].
      destruct (payload resp) as [e|names]; simpl; [|reflexivity].
      destruct (isinstance e RequestException); reflexivity.
  - run_method. destruct (dict_get (online_models gs) (lower provider)); reflexivity.
Qed.

(** X6: [get_available_models] never raises and changes no attribute.
    For "Local Only" it asks the Ollama server once and returns the names
    it lists when it answers OK, and the empty list in every other case
    (status not OK, connection error, unreadable payload); for any other
    provider it makes no network call and returns the list cached under
    the lower-cased name, the empty list when there is none. *)
Theorem get_available_models_spec (w : world) (provider : str) (gs : GradingSystem) :
  exists l models,
    get_available_models w provider gs = (gs, l, Ret models) /\
    (provider = lit "Local Only" ->
     l = [mk_call OllamaTags None] /\
     models = match get_ollama_tags w with
              | Ret resp =>
                  if ok resp
                  then match payload resp with Ret names => names | Raise _ => [] end
                  else []
              | Raise _ => []
              end) /\
    (provider <> lit "Local Only" ->
     l = [] /\ models = online_get gs (lower provider)).
Proof.
  rewrite get_available_models_run.
  destruct (str_eqb provider (lit "Local Only")) eqn:E.
  - do 2 eexists. split; [reflexivity|]. split; [auto|].
    apply str_eqb_eq in E. intros H. contradiction.
  - do 2 eexists. split; [reflexivity|]. split; [|auto].
    intros H. rewrite H in E. discriminate E.
Qed.

Lemma dict_get_In V (d : odict V) k v : dict_get d k = Some v -> In (k, v) d.
Proof.
  induction d as [|[k' v'] d IH]; simpl; [discriminate|].
  destruct (str_eqb k k') eqn:H.
  - apply str_eqb_eq in H. subst k'. intros E. injection E as ->. auto.
  - auto.
Qed.

(** X7: on every instance, asking for the models of a provider whose
    lower-cased name is not "openai", "claude" or "groq" (and is not
    "Local Only") gives the empty list; "Anthropic" is such a name: the
    Claude models are cached under "claude". *)
Theorem get_available_models_other_name (w : world) (provider : str) (gs : GradingSystem) :
  reachable gs ->
  provider <> lit "Local Only" ->
  lower provider <> lit "openai" ->
  lower provider <> lit "claude" ->
  lower provider <> lit "groq" ->
  get_available_models w provider gs = (gs, [], Ret []).
Proof.
  intros Hr Hl Ho Hc Hg. rewrite get_available_models_run.
  destruct (str_eqb provider (lit "Local Only")) eqn:E.
  { apply str_eqb_eq in E. contradiction. }
  unfold online_get.
  destruct (dict_get (online_models gs) (lower provider)) as [l|] eqn:Hd; [|reflexivity].
  apply dict_get_In in Hd.
  destruct (@reachable_registry_ok gs Hr) as (H1 & _).
  destruct (H1 _ _ Hd) as [H|[H|H]]; contradiction.
Qed.

Lemma get_available_models_other_name_witness :
  get_available_models world_openai (lit "Anthropic") gs_openai = (gs_openai, [], Ret []).
Proof.
  apply get_available_models_other_name.
  - unfold gs_openai. apply reach_init.
  - discriminate.
  - vm_compute. discriminate.
  - vm_compute. discriminate.
  - vm_compute. discriminate.
Defined.

(** ** The provider gateway *)

Lemma _call_openai_api_run w prompt model gs :
  _call_openai_api w prompt model gs =
  match openai_client gs with
  | None => (gs, [], Raise (mk_exn ValueError (lit "OpenAI client not initialized")))
  | Some k =>
      (gs, [mk_call OpenAIChat (Some k)],
       match openai_chat w k model prompt with
       | Raise e => Raise e
       | Ret (Some ((_ :: _) as c)) => Ret c
       | Ret _ => Ret (lit "{}")
       end)
  end.
Proof.
  unfold _call_openai_api. rewrite bindM_self.
  destruct (openai_client gs) as [k|]; [|reflexivity].
  run_method. destruct (openai_chat w k model prompt) as [e|[[|c cs]|]]; reflexivity.
Qed.

Lemma _call_claude_api_run w prompt model gs :
  _call_claude_api w prompt model gs =
  match claude_client gs with
  | None => (gs, [], Raise (mk_exn ValueError (lit "Claude client not initialized")))
  | Some k =>
      (gs, [mk_call ClaudeMessages (Some k)],
       match claude_messages w k model
               (lit "You are a grading assistant. Respond with JSON only."
                  ++ nl ++ nl ++ prompt) with
       | Raise e => Raise e
       | Ret (ClaudeContent text) => Ret text
       | Ret (ClaudeCompletion completion) => Ret completion
       | Ret ClaudeNeither => Ret (lit "{}")
       end)
  end.
Proof.
  unfold _call_claude_api. rewrite bindM_self.
  destruct (claude_client gs) as [k|]; [|reflexivity].
  run_method.
  destruct (claude_messages w k model _) as [e|[?|?|]]; reflexivity.
Qed.

Lemma _call_groq_api_run w prompt model gs :
  _call_groq_api w prompt model gs =
  if truthy (groq_api_key gs) then
    let k := match groq_api_key gs with Some k => k | None => [] end in
    (gs, [mk_call GroqChat (Some k)],
     match post_groq_chat w k model prompt with
     | Raise e => Raise e
     | Ret reply =>
         if g_ok reply then g_content reply
         else Raise (mk_exn OtherException (lit "Groq API error: " ++ g_text reply))
     end)
  else (gs, [], Raise (mk_exn ValueError (lit "Groq API key not configured"))).
Proof.
  unfold _call_groq_api. rewrite bindM_self.
  destruct (groq_api_key gs) as [[|x k]|]; try reflexivity. simpl.
  run_method. destruct (post_groq_chat w (x :: k) model prompt) as [e|reply];
    [reflexivity|].
  destruct (g_ok reply); [|reflexivity].
  destruct (g_content reply); reflexivity.
Qed.

Lemma _call_ollama_api_run w prompt model cb gs :
  _call_ollama_api w prompt model cb gs =
  (gs, [mk_call OllamaChat None],
   match ollama_chat w model prompt with
   | Raise e => Raise e
   | Ret chunks => consume_stream chunks cb []
   end).
Proof.
  unfold _call_ollama_api. run_method.
  destruct (ollama_chat w model prompt) as [e|chunks]; [reflexivity|].
  destruct (consume_stream chunks cb []); reflexivity.
Qed.

(** X8: a call of a hosted model without the credential of its provider
    raises the [ValueError] of that provider and makes no network call;
    with the credential, it makes exactly one chat call, which carries the
    stored credential.  In both cases no attribute changes. *)
Theorem hosted_calls_need_credential (w : world) (prompt model : str) (gs : GradingSystem) :
  (openai_client gs = None ->
   _call_openai_api w prompt model gs =
   (gs, [], Raise (mk_exn ValueError (lit "OpenAI client not initialized")))) /\
  (claude_client gs = None ->
   _call_claude_api w prompt model gs =
   (gs, [], Raise (mk_exn ValueError (lit "Claude client not initialized")))) /\
  (truthy (groq_api_key gs) = false ->
   _call_groq_api w prompt model gs =
   (gs, [], Raise (mk_exn ValueError (lit "Groq API key not configured")))) /\
  (forall k, openai_client gs = Some k ->
     state_of (_call_openai_api w prompt model gs) = gs /\
     calls_of (_call_openai_api w prompt model gs) = [mk_call OpenAIChat (Some k)]) /\
  (forall k, claude_client gs = Some k ->
     state_of (_call_claude_api w prompt model gs) = gs /\
     calls_of (_call_claude_api w prompt model gs) = [mk_call ClaudeMessages (Some k)]) /\
  (forall k, groq_api_key gs = Some k -> k <> [] ->
     state_of (_call_groq_api w prompt model gs) = gs /\
     calls_of (_call_groq_api w prompt model gs) = [mk_call GroqChat (Some k)]).
Proof.
  rewrite _call_openai_api_run, _call_claude_api_run, _call_groq_api_run.
  repeat split.
  - intros ->. reflexivity.
  - intros ->. reflexivity.
  - intros ->. reflexivity.
  - rewrite H. reflexivity.
  - rewrite H. reflexivity.
  - rewrite H. reflexivity.
  - rewrite H. reflexivity.
  - rewrite H. destruct k; [contradiction|]. reflexivity.
  - rewrite H. destruct k; [contradiction|]. reflexivity.
Qed.

Lemma hosted_calls_need_credential_witness :
  _call_groq_api world_openai (lit "Grade this.") (lit "llama2-70b") gs_openai =
  (gs_openai, [], Raise (mk_exn ValueError (lit "Groq API key not configured"))).
Proof.
  apply (@hosted_calls_need_credential world_openai (lit "Grade this.")
           (lit "llama2-70b") gs_openai).
  reflexivity.
Defined.

(** X9: the reply [_call_openai_api] returns is never empty: it is the
    content of the first choice, or "{}" when that content is absent or
    empty; an exception of the chat call is raised again as it is. *)
Theorem _call_openai_api_reply (w : world) (prompt model k : str) (gs : GradingSystem) :
  openai_client gs = Some k ->
  let result := result_of (_call_openai_api w prompt model gs) in
  (forall reply, result = Ret reply -> reply <> []) /\
  (forall c, openai_chat w k model prompt = Ret (Some c) -> c <> [] -> result = Ret c) /\
  (openai_chat w k model prompt = Ret (Some []) -> result = Ret (lit "{}")) /\
  (openai_chat w k model prompt = Ret None -> result = Ret (lit "{}")) /\
  (forall e, openai_chat w k model prompt = Raise e -> result = Raise e).
Proof.
  intros Hk result. subst result. rewrite _call_openai_api_run, Hk.
  unfold result_of. simpl. repeat split.
  - intros reply. destruct (openai_chat w k model prompt) as [e|[[|c cs]|]];
      intros H; try discriminate H; injection H as <-; discriminate.
  - intros c -> Hc. destruct c; [contradiction|reflexivity].
  - intros ->. reflexivity.
  - intros ->. reflexivity.
  - intros e ->. reflexivity.
Qed.

Lemma _call_openai_api_reply_witness :
  result_of (_call_openai_api world_openai (lit "Grade this.") (lit "gpt-4") gs_openai) =
  Ret (litq "{'score': 18, 'feedback': 'Good'}").
Proof.
  apply (@_call_openai_api_reply world_openai (lit "Grade this.") (lit "gpt-4")
           (lit "env-key") gs_openai).
  - reflexivity.
  - reflexivity.
  - discriminate.
Defined.

(** X10: when the Groq endpoint answers with a status that is not OK,
    [_call_groq_api] raises an exception whose message is "Groq API
    error: " followed by the body of the answer; when it answers OK, the
    reply is the content read from the answer. *)
Theorem _call_groq_api_reply (w : world) (prompt model k : str) (gs : GradingSystem)
    (reply : groq_reply) :
  groq_api_key gs = Some k -> k <> [] ->
  post_groq_chat w k model prompt = Ret reply ->
  result_of (_call_groq_api w prompt model gs) =
  if g_ok reply then g_content reply
  else Raise (mk_exn OtherException (lit "Groq API error: " ++ g_text reply)).
Proof.
  intros Hk Hne Hr. rewrite _call_groq_api_run, Hk.
  destruct k as [|x k]; [contradiction|]. simpl. rewrite Hr. reflexivity.
Qed.

Lemma _call_groq_api_reply_witness :
  result_of (_call_groq_api world_streaming (lit "Grade this.") (lit "llama2-70b") gs_groq) =
  Raise (mk_exn OtherException (lit "Groq API error: " ++ lit "rate limit exceeded")).
Proof.
  apply (@_call_groq_api_reply world_streaming (lit "Grade this.") (lit "llama2-70b")
           (lit "gsk-1") gs_groq
           (mk_groq_reply false (lit "rate limit exceeded") (Ret (lit "{}")))).
  - reflexivity.
  - discriminate.
  - reflexivity.
Defined.

Lemma consume_stream_no_callback chunks acc :
  stream_ends chunks = true ->
  consume_stream chunks None acc = Ret (acc ++ concat (message_contents chunks)).
Proof.
  revert acc. induction chunks as [|[content| |e] chunks IH]; intros acc H; simpl in *.
  - rewrite app_nil_r. reflexivity.
  - rewrite IH by exact H. rewrite app_assoc. reflexivity.
  - apply IH, H.
  - discriminate.
Qed.

Lemma consume_stream_callback chunks cb acc :
  stream_ends chunks = true -> (forall v, cb v = Ret tt) ->
  consume_stream chunks (Some cb) acc = Ret (acc ++ concat (message_contents chunks)).
Proof.
  intros H Hcb. revert acc H.
  induction chunks as [|[content| |e] chunks IH]; intros acc H; simpl in *.
  - rewrite app_nil_r. reflexivity.
  - rewrite Hcb. rewrite IH by exact H. rewrite app_assoc. reflexivity.
  - apply IH, H.
  - discriminate.
Qed.

(** X11: when the Ollama stream ends without an exception and the
    progress callback, if there is one, does not raise, the reply of
    [_call_ollama_api] is the concatenation, in order, of the contents of
    the message chunks; the other chunks are skipped.  The call sends no
    credential and changes no attribute. *)
Theorem _call_ollama_api_reply (w : world) (prompt model : str) (cb : option callback)
    (gs : GradingSystem) (chunks : list stream_item) :
  ollama_chat w model prompt = Ret chunks ->
  stream_ends chunks = true ->
  (forall f v, cb = Some f -> f v = Ret tt) ->
  _call_ollama_api w prompt model cb gs =
  (gs, [mk_call OllamaChat None], Ret (concat (message_contents chunks))).
Proof.
  intros Hc He Hcb. rewrite _call_ollama_api_run, Hc.
  destruct cb as [f|].
  - rewrite consume_stream_callback; [reflexivity|exact He|].
    intros v. apply (Hcb f v eq_refl).
  - rewrite consume_stream_no_callback by exact He. reflexivity.
Qed.

Lemma _call_ollama_api_reply_witness :
  _call_ollama_api world_streaming (lit "Grade this.") (lit "llama3") None
    GradingSystem_new =
  (GradingSystem_new, [mk_call OllamaChat None], Ret (litq "{'score': 7}")).
Proof.
  apply (@_call_ollama_api_reply world_streaming (lit "Grade this.") (lit "llama3") None
           GradingSystem_new
           [ChunkMessage (litq "{'score'"); ChunkOther; ChunkMessage (lit ": 7}")]).
  - reflexivity.
  - reflexivity.
  - intros f v H. discriminate H.
Defined.

(** ** An evaluation without override key *)

Lemma frame_gateway_call w r prompt g gs :
  frame_at stored_credential (gateway_call w r prompt g) gs.
Proof.
  unfold gateway_call.
  repeat match goal with |- context [if ?b then _ else _] => destruct b end;
    auto using frame__call_openai_api, frame__call_claude_api,
      frame__call_groq_api, frame__call_ollama_api.
Qed.

Lemma evaluate_submission_no_key w r gs :
  truthy (api_key r) = false ->
  evaluate_submission w r gs =
  call_and_parse w r (build_prompt r (_get_provider_from_model gs (model r))) gs.
Proof.
  intros Ht. unfold evaluate_submission, evaluate_body, tryM_Exception.
  rewrite (@use_api_key_without_key w r Ht), bindM_retM, bindM_self.
  destruct (call_and_parse_dict w r
              (build_prompt r (_get_provider_from_model gs (model r))) gs) as [d Hd].
  destruct (call_and_parse w r (build_prompt r (_get_provider_from_model gs (model r))) gs)
    as [[g l] [e|v]]; [discriminate Hd|reflexivity].
Qed.

(** What the inner [try] gives once the model has replied. *)
Lemma call_and_parse_reply w r prompt gs l response :
  gateway_call w r prompt gs gs = (gs, l, Ret response) ->
  call_and_parse w r prompt gs =
  (gs, l,
   match (result <- _parse_json_response (interp w) response ;;
          result <- setitem result (lit "raw_llm_output") (PStr response) ;;
          match update_callback r with
          | Some cb =>
              _ <- cb (PDict (dict_of [ (lit "raw_output", PStr response);
                                        (lit "parsed_result", result);
                                        (lit "status", PStr (lit "completed")) ])) ;;
              Ret result
          | None => Ret result
          end)%exn with
   | Ret result => Ret result
   | Raise e => Ret (api_error_record e)
   end).
Proof.
  intros Hg. unfold call_and_parse, call_and_parse_body, tryM_Exception.
  rewrite bindM_self. unfold bindM at 1. rewrite Hg.
  unfold bindM, liftE, retM.
  destruct (_parse_json_response (interp w) response) as [e|v]; simpl;
    [rewrite ?app_nil_r; reflexivity|].
  destruct (setitem v (lit "raw_llm_output") (PStr response)) as [e|v']; simpl;
    [rewrite ?app_nil_r; reflexivity|].
  destruct (update_callback r) as [cb|]; simpl; [|rewrite ?app_nil_r; reflexivity].
  destruct (cb _) as [e|[]]; simpl; rewrite ?app_nil_r; reflexivity.
Qed.

Lemma gateway_call_reply w r prompt gs response :
  result_of (gateway_call w r prompt gs gs) = Ret response ->
  gateway_call w r prompt gs gs = (gs, calls_of (gateway_call w r prompt gs gs), Ret response).
Proof.
  destruct (frame_gateway_call w r prompt gs gs) as [Hs _].
  unfold state_of, calls_of, result_of in *.
  destruct (gateway_call w r prompt gs gs) as [[g l] res]. simpl in *.
  intros ->. subst g. reflexivity.
Qed.

(** X12: when no override key is given, the model replies, the parser
    gives a dict and the progress callback, if there is one, does not
    raise, the evaluation returns that dict with its [raw_llm_output] entry
    set to the reply, every other entry being as parsed; no attribute
    changes. *)
Theorem evaluate_submission_success (w : world) (r : request) (gs : GradingSystem)
    (response : str) (d : dict) :
  truthy (api_key r) = false ->
  result_of (gateway_call w r (build_prompt r (_get_provider_from_model gs (model r)))
               gs gs) = Ret response ->
  _parse_json_response (interp w) response = Ret (PDict d) ->
  (forall cb v, update_callback r = Some cb -> cb v = Ret tt) ->
  state_of (evaluate_submission w r gs) = gs /\
  result_of (evaluate_submission w r gs) =
    Ret (PDict (dict_set d (lit "raw_llm_output") (PStr response))).
Proof.
  intros Ht Hg Hp Hcb. rewrite (@evaluate_submission_no_key w r gs Ht).
  rewrite (@call_and_parse_reply w r _ gs _ response (gateway_call_reply _ _ _ _ Hg)).
  rewrite Hp. simpl.
  destruct (update_callback r) as [cb|] eqn:Hu; [|auto].
  rewrite (Hcb cb _ eq_refl). auto.
Qed.

Lemma evaluate_submission_success_witness :
  result_of (evaluate_submission world_openai (sample_request (lit "gpt-4") None) gs_openai) =
  Ret (PDict [ (lit "score", PInt 18);
               (lit "feedback", PStr (lit "Good"));
               (lit "raw_llm_output", PStr (litq "{'score': 18, 'feedback': 'Good'}")) ]).
Proof.
  apply (@evaluate_submission_success world_openai (sample_request (lit "gpt-4") None)
           gs_openai (litq "{'score': 18, 'feedback': 'Good'}")
           [ (lit "score", PInt 18); (lit "feedback", PStr (lit "Good")) ]).
  - reflexivity.
  - vm_compute. reflexivity.
  - vm_compute. reflexivity.
  - intros cb v H. discriminate H.
Defined.

(** X13: when [json.loads] decodes the sanitized reply of the model to a
    value that is not an object (a number, a text, a list, [null]), the
    parser returns that value, the assignment of [raw_llm_output] raises a
    [TypeError], and the evaluation returns the record of a failed API call
    carrying the message of that error. *)
Theorem evaluate_submission_json_not_object (w : world) (r : request) (gs : GradingSystem)
    (response cleaned : str) (v : pyval) :
  truthy (api_key r) = false ->
  result_of (gateway_call w r (build_prompt r (_get_provider_from_model gs (model r)))
               gs gs) = Ret response ->
  _sanitize_json_text response = Ret cleaned ->
  json_loads (interp w) cleaned = Ret v ->
  (forall d, v <> PDict d) ->
  _parse_json_response (interp w) response = Ret v /\
  result_of (evaluate_submission w r gs) =
  Ret (api_error_record
         (mk_exn TypeError
            (match v with
             | PList _ => lit "list indices must be integers or slices, not str"
             | _ => lit "'" ++ type_name v ++ lit "' object does not support item assignment"
             end))).
Proof.
  intros Ht Hg Hs Hj Hv.
  assert (Hp : _parse_json_response (interp w) response = Ret v).
  { unfold _parse_json_response, parse_body. rewrite Hs. cbn [bindE].
    rewrite Hj. reflexivity. }
  split; [exact Hp|].
  rewrite (@evaluate_submission_no_key w r gs Ht).
  rewrite (@call_and_parse_reply w r _ gs _ response (gateway_call_reply _ _ _ _ Hg)).
  rewrite Hp. destruct v; try reflexivity. destruct (Hv d eq_refl).
Qed.

Lemma evaluate_submission_json_not_object_witness :
  result_of
    (evaluate_submission
       (mk_world (fun _ => None) (fun _ => Ret tt) (fun _ => Ret tt)
          (Raise connection_refused) (fun _ => Raise connection_refused)
          (fun _ => Raise connection_refused) (fun _ => Raise connection_refused)
          (fun _ _ _ => Raise connection_refused) (fun _ _ _ => Raise connection_refused)
          (fun _ _ _ => Raise connection_refused)
          (fun _ _ => Ret [ChunkMessage (lit " 15 ")]) python_default)
       (sample_request (lit "llama3") None) GradingSystem_new) =
  Ret (api_error_record
         (mk_exn TypeError (lit "'int' object does not support item assignment"))).
Proof.
  apply (@evaluate_submission_json_not_object _ (sample_request (lit "llama3") None)
           GradingSystem_new (lit " 15 ") (lit "15") (PInt 15)).
  - reflexivity.
  - vm_compute. reflexivity.
  - vm_compute. reflexivity.
  - vm_compute. reflexivity.
  - intros d H. discriminate H.
Defined.

Lemma gateway_call_calls w r prompt g gs :
  (length (calls_of (gateway_call w r prompt g gs)) <= 1)%nat /\
  forall c, In c (calls_of (gateway_call w r prompt g gs)) ->
    call_to c = OpenAIChat \/ call_to c = ClaudeMessages \/
    call_to c = GroqChat \/ call_to c = OllamaChat.
Proof.
  unfold gateway_call.
  repeat match goal with |- context [if ?b then _ else _] => destruct b end;
    rewrite ?_call_openai_api_run, ?_call_claude_api_run, ?_call_groq_api_run,
      ?_call_ollama_api_run.
  - destruct (openai_client gs); simpl; (split; [lia|]); intros c H;
      [destruct H as [<-|[]]; simpl; auto|destruct H].
  - destruct (claude_client gs); simpl; (split; [lia|]); intros c H;
      [destruct H as [<-|[]]; simpl; auto|destruct H].
  - destruct (truthy (groq_api_key gs)); simpl; (split; [lia|]); intros c H;
      [destruct H as [<-|[]]; simpl; auto|destruct H].
  - simpl. split; [lia|]. intros c [<-|[]]. simpl. auto.
Qed.

(** X14: an evaluation without override key changes no attribute and makes
    at most one network call; that call is a chat call (never a listing or
    validation call) and it carries the credential the instance holds for
    the provider it is sent to. *)
Theorem evaluate_submission_single_call (w : world) (r : request) (gs : GradingSystem) :
  truthy (api_key r) = false ->
  state_of (evaluate_submission w r gs) = gs /\
  (length (calls_of (evaluate_submission w r gs)) <= 1)%nat /\
  forall c, In c (calls_of (evaluate_submission w r gs)) ->
    (call_to c = OpenAIChat /\ credential c = openai_client gs) \/
    (call_to c = ClaudeMessages /\ credential c = claude_client gs) \/
    (call_to c = GroqChat /\ credential c = groq_api_key gs) \/
    (call_to c = OllamaChat).
Proof.
  intros Ht. destruct (@evaluate_submission_frame w r gs Ht) as [Hs Hc].
  split; [exact Hs|]. rewrite Forall_forall in Hc.
  rewrite (@evaluate_submission_calls w r gs Ht) in *.
  destruct (gateway_call_calls w r
              (build_prompt r (_get_provider_from_model gs (model r))) gs gs) as [Hl Hk].
  split; [exact Hl|].
  intros c Hin. specialize (Hc c Hin). unfold stored_credential in Hc.
  destruct (Hk c Hin) as [H|[H|[H|H]]]; rewrite H in Hc; auto.
Qed.

Lemma evaluate_submission_single_call_witness :
  state_of (evaluate_submission world_openai (sample_request (lit "gpt-4") None) gs_openai)
  = gs_openai.
Proof.
  apply (@evaluate_submission_single_call world_openai
           (sample_request (lit "gpt-4") None) gs_openai).
  reflexivity.
Defined.


(** ** The HTTP endpoints *)

Lemma evaluate_submission_dict w r gs :
  exists d, result_of (evaluate_submission w r gs) = Ret (PDict d).
Proof.
  unfold evaluate_submission, tryM_Exception, result_of.
  destruct (evaluate_body w r gs) as [[g l] [e|v]] eqn:H; simpl.
  - eexists. reflexivity.
  - unfold evaluate_body in H.
    apply bindM_Ret_inv in H. destruct H as (u & gs1 & l1 & l2 & _ & H & _).
    apply bindM_Ret_inv in H. destruct H as (p & gs2 & l3 & l4 & _ & H & _).
    destruct (call_and_parse_dict w r (build_prompt r p) gs2) as [d Hd].
    rewrite H in Hd. simpl in Hd. injection Hd as ->. eauto.
Qed.

(** X16: [grade_submission] never answers with an HTTP error: whatever the
    request and whatever happens during the grading, it returns an
    [APIResponse] with status "success" and message "Grading completed
    successfully", whose data is the record of [evaluate_submission] (the
    record of the error, when the grading failed); the attributes of the
    grading system are left as they are. *)
Theorem grade_submission_always_success
    (validate_Dict : pyval -> E dict) (str_of_HTTPException : N -> str -> str)
    (w : world) (request : GradingRequest) (gs : GradingSystem) :
  (forall d, validate_Dict (PDict d) = Ret d) ->
  exists l d,
    grade_submission validate_Dict str_of_HTTPException w request gs =
    (gs, l, Done (mk_APIResponse (lit "success") d (lit "Grading completed successfully"))) /\
    result_of (evaluate_submission w
                 (mk_request (request_student_solution request)
                    (request_ideal_solution request)
                    (request_grading_instructions request)
                    (request_model request) None None) gs) = Ret (PDict d).
Proof.
  intros Hv. unfold grade_submission.
  set (r := mk_request _ _ _ _ None None).
  destruct (evaluate_submission_dict w r gs) as [d Hd].
  destruct (@evaluate_submission_frame w r gs eq_refl) as [Hs _].
  unfold state_of, result_of in *.
  destruct (evaluate_submission w r gs) as [[g l] res]. simpl in *. subst g res.
  exists l, d. split; [|reflexivity].
  unfold APIResponse_new. simpl. rewrite Hv. reflexivity.
Qed.

Lemma grade_submission_always_success_witness :
  exists l d,
    grade_submission
      (fun v => match v with
                | PDict d => Ret d
                | _ => Raise (mk_exn ValueError (lit "value is not a valid dict"))
                end)
      (fun _ detail => detail)
      world_offline
      (mk_GradingRequest (lit "x = 2") (lit "x = 2") (lit "One mark.") DEFAULT_MODEL)
      GradingSystem_new =
    (GradingSystem_new, l,
     Done (mk_APIResponse (lit "success") d (lit "Grading completed successfully"))) /\
    result_of (evaluate_submission world_offline
                 (mk_request (lit "x = 2") (lit "x = 2") (lit "One mark.") DEFAULT_MODEL
                    None None) GradingSystem_new) = Ret (PDict d).
Proof.
  apply (@grade_submission_always_success _ _ world_offline
           (mk_GradingRequest (lit "x = 2") (lit "x = 2") (lit "One mark.") DEFAULT_MODEL)
           GradingSystem_new).
  reflexivity.
Defined.

(** X17: every failure of [list_models] is answered with status 500 and a
    detail that starts with "Failed to fetch models: ".  In particular the
    [HTTPException] raised for an answer of Ollama that is not OK, which
    carries the status code of that answer, is caught by the endpoint's own
    [except] clause and replaced: the status code of Ollama is never passed
    on. *)
Theorem list_models_failures (str_of_HTTPException : N -> str -> str)
    (get : E tags_response) :
  (forall e, list_models str_of_HTTPException get = Fail e ->
     exists msg, e = HTTPException 500 (lit "Failed to fetch models: " ++ msg)) /\
  (forall response, get = Ret response -> tags_ok response = false ->
     list_models str_of_HTTPException get =
     Fail (HTTPException 500
             (lit "Failed to fetch models: " ++
              str_of_HTTPException (tags_status_code response)
                (lit "Failed to fetch models")))) /\
  (forall response v, get = Ret response -> tags_ok response = true ->
     tags_json response = Ret v -> list_models str_of_HTTPException get = Done v).
Proof.
  unfold list_models, try_except_R, bindR, liftR. repeat split.
  - intros e. destruct get as [e0|response].
    + intros H. injection H as <-. eexists. reflexivity.
    + destruct (tags_ok response); simpl.
      * destruct (tags_json response); intros H; [|discriminate H].
        injection H as <-. eexists. reflexivity.
      * intros H. injection H as <-. eexists. reflexivity.
  - intros response -> ->. reflexivity.
  - intros response v -> -> ->. reflexivity.
Qed.

Lemma list_models_failures_witness :
  list_models (fun _ detail => detail)
    (Ret (mk_tags_response false 503 (Ret PNone))) =
  Fail (HTTPException 500 (lit "Failed to fetch models: " ++ lit "Failed to fetch models")).
Proof.
  apply (proj1 (proj2 (@list_models_failures (fun _ detail => detail)
                         (Ret (mk_tags_response false 503 (Ret PNone)))))
           (mk_tags_response false 503 (Ret PNone)));
    reflexivity.
Defined.

(** ** The sanitizer and the heuristic, once more *)

(** X18: [_sanitize_json_text] never raises; what it returns has no white
    space at either end; and a text that holds no fence marker and no
    comment opener is only stripped. *)
Theorem _sanitize_json_text_spec (text : str) :
  exists cleaned,
    _sanitize_json_text text = Ret cleaned /\
    strip cleaned = cleaned /\
    (contains (lit "```") text = false ->
     contains (lit "//") text = false ->
     contains (lit "/*") text = false ->
     cleaned = strip text).
Proof.
  rewrite _sanitize_json_text_eq. eexists. split; [reflexivity|].
  split; [apply strip_idem|].
  intros H1 H2 H3.
  pose proof (@_sanitize_json_text_plain text H1 H2 H3) as H.
  rewrite _sanitize_json_text_eq in H. injection H as H. exact H.
Qed.

Lemma _sanitize_json_text_spec_witness :
  exists cleaned,
    _sanitize_json_text (litq "  {'score': 5}  ") = Ret cleaned /\
    strip cleaned = cleaned /\
    cleaned = strip (litq "  {'score': 5}  ").
Proof.
  destruct (_sanitize_json_text_spec (litq "  {'score': 5}  ")) as (c & H1 & H2 & H3).
  exists c. repeat split; [exact H1|exact H2|].
  apply H3; reflexivity.
Defined.

Lemma extract_score_cases ps cleaned d d' :
  extract_score ps cleaned d = Ret d' ->
  d' = d \/ exists v, d' = dict_set d (lit "score") v.
Proof.
  induction ps as [|p ps IH]; simpl.
  - intros H. injection H as <-. auto.
  - intros H. apply bindE_Ret_inv in H. destruct H as (found & _ & H).
    destruct found as [m|]; [|apply IH, H].
    apply bindE_Ret_inv in H. destruct H as (x & _ & H).
    injection H as <-. eauto.
Qed.

(** The heuristic only writes the four entries it extracts. *)
Lemma structured_extraction_keeps (P : dict -> Prop) response cleaned v :
  (forall d k x,
     k = lit "score" \/ k = lit "feedback" \/ k = lit "improvements" \/
     k = lit "breakdown" ->
     P d -> P (dict_set d k x)) ->
  P (dict_of [ (lit "score", PInt 0); (lit "feedback", PStr []);
               (lit "improvements", PList []); (lit "breakdown", PDict []);
               (lit "raw_llm_output", PStr response) ]) ->
  structured_extraction response cleaned = Ret v ->
  exists d, v = PDict d /\ P d.
Proof.
  intros Hset H0. unfold structured_extraction. intros H.
  apply bindE_Ret_inv in H. destruct H as (d1 & H1 & H).
  apply bindE_Ret_inv in H. destruct H as (fm & _ & H).
  apply bindE_Ret_inv in H. destruct H as (im & _ & H).
  apply bindE_Ret_inv in H. destruct H as (d2 & H2 & H).
  apply bindE_Ret_inv in H. destruct H as (bm & _ & H).
  apply bindE_Ret_inv in H. destruct H as (d3 & H3 & H).
  injection H as <-. exists d3. split; [reflexivity|].
  assert (P1 : P d1).
  { apply extract_score_cases in H1. destruct H1 as [-> | [x ->]]; auto. }
  assert (P2 : P d2).
  { destruct im as [m|].
    - apply bindE_Ret_inv in H2. destruct H2 as (imps & _ & H2).
      injection H2 as <-. apply Hset; [auto|]. destruct fm; auto.
    - injection H2 as <-. destruct fm; auto. }
  destruct bm as [|b bm].
  - injection H3 as <-. exact P2.
  - apply bindE_Ret_inv in H3. destruct H3 as (kvs & _ & H3).
    injection H3 as <-. auto.
Qed.

(** X19: whenever the heuristic extraction returns, its record has a
    numeric score between 0 and 20 and carries the reply it was given,
    unchanged, as [raw_llm_output]. *)
Theorem structured_extraction_record (response cleaned : str) (v : pyval) :
  structured_extraction response cleaned = Ret v ->
  score_ok v = true /\
  exists d, v = PDict d /\ dict_get d (lit "raw_llm_output") = Some (PStr response).
Proof.
  intros H. split; [apply (@structured_extraction_score response cleaned v H)|].
  apply (@structured_extraction_keeps
           (fun d => dict_get d (lit "raw_llm_output") = Some (PStr response))
           response cleaned v); [|reflexivity|exact H].
  intros d k x Hk Hd. rewrite dict_get_set_other; [exact Hd|].
  destruct Hk as [-> | [-> | [-> | ->]]]; reflexivity.
Qed.

Lemma structured_extraction_record_witness :
  score_ok (PDict
              [ (lit "score", PInt 20);
                (lit "feedback", PStr []);
                (lit "improvements", PList []);
                (lit "breakdown", PDict []);
                (lit "raw_llm_output", PStr (lit "score: 37")) ]) = true.
Proof.
  apply (@structured_extraction_record (lit "score: 37") (lit "score: 37")).
  vm_compute. reflexivity.
Defined.

(** ** Listed models can be called *)

Lemma registry_creds_empty gs : online_models gs = [] -> registry_creds gs.
Proof. intros H. unfold registry_creds, cached. rewrite H. auto. Qed.

Lemma refresh_available_models_creds w gs :
  registry_creds gs -> registry_creds (state_of (refresh_available_models w gs)).
Proof.
  intros [Hc Hg].
  destruct (refresh_available_models_run w gs) as (_ & Hwipe & Hkeep).
  destruct (refresh_body_cases w gs)
    as [[e He] | (g1 & g2 & g3 & g4 & l1 & l2 & l3 & l4 & H1 & H2 & H3 & H4 & Hb)].
  - apply registry_creds_empty. apply (Hwipe e He).
  - rewrite Hkeep by (rewrite Hb; reflexivity). rewrite Hb. unfold state_of. simpl.
    assert (C1 : claude_client g1 = claude_client gs) by by_step H1.
    assert (C2 : claude_client g2 = claude_client g1) by by_step H2.
    assert (C3 : claude_client g3 = claude_client g2) by by_step H3.
    assert (C4 : claude_client g4 = claude_client g3) by by_step H4.
    assert (G1 : groq_api_key g1 = groq_api_key gs) by by_step H1.
    assert (G2 : groq_api_key g2 = groq_api_key g1) by by_step H2.
    assert (G3 : groq_api_key g3 = groq_api_key g2) by by_step H3.
    assert (G4 : groq_api_key g4 = groq_api_key g3) by by_step H4.
    split.
    + intros Hn. rewrite C4, C3 in Hn.
      transitivity (cached (lit "claude") g3); [by_step H4|].
      rewrite refresh_claude_run, Hn in H3. injection H3 as <- _.
      transitivity (cached (lit "claude") g1); [by_step H2|].
      transitivity (cached (lit "claude") gs); [by_step H1|].
      apply Hc. congruence.
    + intros Hn. rewrite G4 in Hn.
      rewrite refresh_groq_run, Hn in H4. injection H4 as <- _.
      transitivity (cached (lit "groq") g2); [by_step H3|].
      transitivity (cached (lit "groq") g1); [by_step H2|].
      transitivity (cached (lit "groq") gs); [by_step H1|].
      apply Hg. congruence.
Qed.

Lemma evaluate_submission_creds w r gs :
  registry_creds gs -> registry_creds (state_of (evaluate_submission w r gs)).
Proof.
  intros Hok. rewrite evaluate_submission_state.
  destruct (truthy (api_key r)) eqn:Ht.
  2:{ rewrite use_api_key_without_key by exact Ht. exact Hok. }
  unfold truthy in Ht. destruct (api_key r) as [[|x k]|] eqn:Hk; try discriminate.
  destruct (_validate_api_key_run w (x :: k) (_get_provider_from_model gs (model r)) gs)
    as (l & valid & Hv).
  rewrite (@use_api_key_run w r gs (x :: k) Hk ltac:(discriminate) l valid Hv).
  destruct Hok as [Hc Hg].
  destruct valid; [|split; assumption].
  destruct (str_eqb _ (lit "groq")).
  { split; [exact Hc|]. simpl. discriminate. }
  destruct (str_eqb _ (lit "anthropic")).
  { destruct (anthropic_Client w (x :: k)); [split; assumption|].
    split; [simpl; discriminate|exact Hg]. }
  destruct (str_eqb _ (lit "openai")); [|split; assumption].
  destruct (openai_Client w (x :: k)); split; assumption.
Qed.

Lemma reachable_registry_creds gs : reachable gs -> registry_creds gs.
Proof.
  induction 1 as [w1 w2 | o gs Hr IH].
  - unfold GradingSystem_init, bindM, state_of.
    destruct (_init_api_clients w1 GradingSystem_new) as [[g l] [e|[]]] eqn:Hi.
    + simpl. apply registry_creds_empty.
      change (online_models g) with (online_models (state_of (g, l, @Raise unit e))).
      rewrite <- Hi. apply (@_init_api_clients_preserves _ online_models); reflexivity.
    + assert (Hg : registry_creds g).
      { apply registry_creds_empty.
        change (online_models g) with (online_models (state_of (g, l, Ret tt))).
        rewrite <- Hi. apply (@_init_api_clients_preserves _ online_models); reflexivity. }
      pose proof (@refresh_available_models_creds w2 g Hg) as H.
      unfold state_of in H.
      destruct (refresh_available_models w2 g) as [[g' l'] r']. exact H.
  - destruct o as [w|w r]; simpl.
    + apply refresh_available_models_creds, IH.
    + apply evaluate_submission_creds, IH.
Qed.

Lemma _call_claude_api_calls w prompt model gs k :
  claude_client gs = Some k ->
  calls_of (_call_claude_api w prompt model gs) = [mk_call ClaudeMessages (Some k)].
Proof. intros Hk. rewrite _call_claude_api_run, Hk. reflexivity. Qed.

Lemma online_get_cached gs tag m :
  In m (online_get gs tag) -> cached tag gs <> None.
Proof.
  unfold online_get, cached. destruct (dict_get (online_models gs) tag); [discriminate|].
  intros [].
Qed.

(** X15: on every instance, an evaluation without override key makes
    exactly one network call, chosen by the first of the cached lists
    [openai], [claude], [groq] that holds the model, and the Ollama chat
    call when none does.  For a listed model the instance always holds the
    credential, which the call carries: the errors "client not
    initialized" and "key not configured" cannot occur for a listed
    model. *)
Theorem listed_model_is_called (w : world) (r : request) (gs : GradingSystem) :
  reachable gs ->
  truthy (api_key r) = false ->
  let calls := calls_of (evaluate_submission w r gs) in
  let listed tag := In (model r) (online_get gs (lit tag)) in
  (listed "openai"%string ->
   exists k, openai_client gs = Some k /\ calls = [mk_call OpenAIChat (Some k)]) /\
  (~ listed "openai"%string -> listed "claude"%string ->
   exists k, claude_client gs = Some k /\ calls = [mk_call ClaudeMessages (Some k)]) /\
  (~ listed "openai"%string -> ~ listed "claude"%string -> listed "groq"%string ->
   exists k, groq_api_key gs = Some k /\ k <> [] /\ calls = [mk_call GroqChat (Some k)]) /\
  (~ listed "openai"%string -> ~ listed "claude"%string -> ~ listed "groq"%string ->
   calls = [mk_call OllamaChat None]).
Proof.
  intros Hr Ht calls listed. subst calls listed. cbv beta.
  rewrite (@evaluate_submission_calls w r gs Ht). unfold gateway_call.
  destruct (@reachable_registry_ok gs Hr) as (_ & H2 & _).
  destruct (@reachable_registry_creds gs Hr) as (Hc & Hg).
  split; [|split; [|split]].
  - intros Hin. pose proof (online_get_cached _ _ _ Hin) as Hne.
    apply str_in_In in Hin. rewrite Hin.
    destruct (openai_client gs) as [k|] eqn:Hk; [|destruct (Hne (H2 eq_refl))].
    exists k. split; [reflexivity|]. apply _call_openai_api_calls, Hk.
  - intros Ho Hin. pose proof (online_get_cached _ _ _ Hin) as Hne.
    apply str_in_In in Hin. rewrite (str_in_false _ _ Ho), Hin.
    destruct (claude_client gs) as [k|] eqn:Hk; [|destruct (Hne (Hc eq_refl))].
    exists k. split; [reflexivity|]. apply _call_claude_api_calls, Hk.
  - intros Ho Hcl Hin. pose proof (online_get_cached _ _ _ Hin) as Hne.
    apply str_in_In in Hin.
    rewrite (str_in_false _ _ Ho), (str_in_false _ _ Hcl), Hin.
    destruct (groq_api_key gs) as [[|x k]|] eqn:Hk;
      [destruct (Hne (Hg eq_refl))| |destruct (Hne (Hg eq_refl))].
    exists (x :: k). split; [reflexivity|]. split; [discriminate|].
    apply _call_groq_api_calls; [exact Hk|discriminate].
  - intros Ho Hcl Hgr.
    rewrite (str_in_false _ _ Ho), (str_in_false _ _ Hcl), (str_in_false _ _ Hgr).
    rewrite _call_ollama_api_run. reflexivity.
Qed.

Lemma listed_model_is_called_witness :
  exists k, openai_client gs_openai = Some k /\
            calls_of (evaluate_submission world_openai_down
                        (sample_request (lit "gpt-4") None) gs_openai) =
            [mk_call OpenAIChat (Some k)].
Proof.
  apply (@listed_model_is_called world_openai_down
           (sample_request (lit "gpt-4") None) gs_openai).
  - unfold gs_openai. apply reach_init.
  - reflexivity.
  - vm_compute. auto.
Defined.

(** X20: on every instance, the registry only holds the tags "openai",
    "claude" and "groq"; a list is cached under a tag only when the
    instance holds the client or the key of that provider; and every model
    resolves to one of "local", "openai", "claude", "groq". *)
Theorem registry_of_an_instance (gs : GradingSystem) :
  reachable gs ->
  (forall p l, In (p, l) (online_models gs) ->
     p = lit "openai" \/ p = lit "claude" \/ p = lit "groq") /\
  (cached (lit "openai") gs <> None -> openai_client gs <> None) /\
  (cached (lit "claude") gs <> None -> claude_client gs <> None) /\
  (cached (lit "groq") gs <> None -> truthy (groq_api_key gs) = true) /\
  (forall m,
     _get_provider_from_model gs m = lit "local" \/
     _get_provider_from_model gs m = lit "openai" \/
     _get_provider_from_model gs m = lit "claude" \/
     _get_provider_from_model gs m = lit "groq").
Proof.
  intros Hr.
  pose proof (@reachable_registry_ok gs Hr) as Hok.
  destruct (@reachable_registry_creds gs Hr) as (Hc & Hg).
  destruct Hok as (H1 & H2 & H3).
  split; [exact H1|]. split; [|split; [|split]].
  - intros Hne Hn. apply Hne, H2, Hn.
  - intros Hne Hn. apply Hne, Hc, Hn.
  - intros Hne. destruct (truthy (groq_api_key gs)); [reflexivity|].
    destruct (Hne (Hg eq_refl)).
  - intros m. apply (@provider_tags gs m). split; [exact H1|]. split; assumption.
Qed.

Lemma registry_of_an_instance_witness :
  openai_client gs_openai <> None.
Proof.
  destruct (@registry_of_an_instance gs_openai) as (_ & H & _).
  - unfold gs_openai. apply reach_init.
  - apply H. vm_compute. discriminate.
Defined.

Lemma claude_key_missing_aborts w gs c :
  claude_client gs = Some c -> environ w (lit "ANTHROPIC_API_KEY") = None ->
  exists e', result_of (refresh_body w gs) = Raise e'.
Proof.
  intros Hc Hkey.
  destruct (refresh_body_cases w gs)
    as [H | (g1 & g2 & g3 & g4 & l1 & l2 & l3 & l4 & H1 & H2 & H3 & _)]; [exact H|].
  assert (E1 : claude_client g1 = claude_client gs) by by_step H1.
  assert (E2 : claude_client g2 = claude_client g1) by by_step H2.
  rewrite refresh_claude_run, E2, E1, Hc, Hkey in H3. discriminate.
Qed.

(** X21: a refresh never changes the clients nor the Groq key.  The
    listing of the Claude models does not use the key of the client held
    but the variable ANTHROPIC_API_KEY as it is when the refresh runs: when
    a Claude client is held and the variable is not set any more, the
    refresh empties every list. *)
Theorem refresh_and_credentials (w : world) (gs : GradingSystem) :
  let gs' := state_of (refresh_available_models w gs) in
  openai_client gs' = openai_client gs /\
  claude_client gs' = claude_client gs /\
  groq_api_key gs' = groq_api_key gs /\
  (forall c, claude_client gs = Some c ->
     environ w (lit "ANTHROPIC_API_KEY") = None ->
     local_models gs' = [] /\ online_models gs' = []).
Proof.
  intros gs'. subst gs'.
  split; [apply refresh_available_models_preserves; reflexivity|].
  split; [apply refresh_available_models_preserves; reflexivity|].
  split; [apply refresh_available_models_preserves; reflexivity|].
  intros c Hc Hkey.
  destruct (@claude_key_missing_aborts w gs c Hc Hkey) as [e He].
  destruct (refresh_available_models_run w gs) as (_ & Hwipe & _).
  apply (Hwipe e He).
Qed.

Lemma refresh_and_credentials_witness :
  local_models
    (state_of (refresh_available_models world_streaming
                 (mk_GradingSystem [lit "llama3"] [(lit "claude", [lit "claude-2.1"])]
                    None (Some (lit "sk-ant")) None))) = [].
Proof.
  destruct (@refresh_and_credentials world_streaming
              (mk_GradingSystem [lit "llama3"] [(lit "claude", [lit "claude-2.1"])]
                 None (Some (lit "sk-ant")) None)) as (_ & _ & _ & H).
  apply (H (lit "sk-ant")); reflexivity.
Defined.

(** ** Fenced replies *)

Lemma rmatch_lazy_any f s c k :
  rmatch f (RStar false RAny) s c k = lazy_any f k (length s) s c.
Proof. reflexivity. Qed.

Lemma lazy_any_skip f k body s c n res :
  DOTALL f = true ->
  (forall t1 x t2, body = t1 ++ x :: t2 -> k (x :: t2 ++ s) c = None) ->
  k s c = Some res ->
  (length body <= n)%nat ->
  lazy_any f k n (body ++ s) c = Some res.
Proof.
  intros Hd. revert n. induction body as [|x body IH]; intros n Hk Hs Hn.
  - simpl. destruct n; simpl; rewrite Hs; reflexivity.
  - destruct n as [|n]; [simpl in Hn; lia|].
    simpl. rewrite (Hk [] x body eq_refl). rewrite Hd. simpl.
    assert (L : (length (body ++ s) <? S (length (body ++ s)))%nat = true)
      by (apply Nat.ltb_lt; lia).
    rewrite L. apply IH.
    + intros t1 y t2 E. apply (Hk (x :: t1) y t2). rewrite E. reflexivity.
    + exact Hs.
    + simpl in Hn. lia.
Qed.

Lemma no_backtick_suffix body t1 x t2 :
  no_backtick body = true -> body = t1 ++ x :: t2 -> (96 =? x) = false.
Proof.
  intros H ->. unfold no_backtick in H. rewrite forallb_app in H.
  apply andb_true_iff in H. destruct H as [_ H]. simpl in H.
  apply andb_true_iff in H. destruct H as [H _].
  rewrite N.eqb_sym. apply negb_true_iff, H.
Qed.

Lemma consumed_app body s : consumed (body ++ s) s = body.
Proof.
  unfold consumed. rewrite length_app, Nat.add_sub.
  rewrite firstn_app, Nat.sub_diag, firstn_all. simpl. apply app_nil_r.
Qed.

Lemma fence_tail body c0 :
  no_backtick body = true ->
  rmatch re_DOTALL tail_re (body ++ [96; 96; 96]) c0 (fun s' c' => Some (s', c')) =
  Some ([], (1%nat, body) :: c0).
Proof.
  intros Hb. unfold tail_re.
  change (rmatch re_DOTALL (RCat (RGroup 1 (RStar false RAny)) ?b) ?s ?c ?k)
    with (rmatch re_DOTALL (RStar false RAny) s c
            (fun s' c' => rmatch re_DOTALL b s' ((1%nat, consumed s s') :: c') k)).
  rewrite rmatch_lazy_any.
  rewrite (@lazy_any_skip re_DOTALL _ body [96; 96; 96] c0 _ ([], (1%nat, body) :: c0)).
  - reflexivity.
  - reflexivity.
  - intros t1 x t2 E. cbn [rmatch char_match re_DOTALL IGNORECASE].
    rewrite (@no_backtick_suffix _ _ _ _ Hb E). reflexivity.
  - cbn [rmatch char_match re_DOTALL IGNORECASE]. simpl N.eqb. cbv iota.
    rewrite consumed_app. reflexivity.
  - rewrite length_app. lia.
Qed.

Lemma fence_re_tail :
  fence_re =
  RCat (RLit 96) (RCat (RLit 96) (RCat (RLit 96)
    (RCat (RAlt (RCat (RLit 106) (RCat (RLit 115) (RCat (RLit 111) (RLit 110)))) REmpty)
       (RCat (RAlt (RLit 10) REmpty) tail_re)))).
Proof. reflexivity. Qed.

Lemma fence_match body :
  no_backtick body = true ->
  match_here re_DOTALL fence_re
    (96 :: 96 :: 96 :: 106 :: 115 :: 111 :: 110 :: 10 :: body ++ [96; 96; 96]) =
  Some ([], [(1%nat, body)]).
Proof.
  intros Hb. unfold match_here. rewrite fence_re_tail.
  cbn [rmatch char_match re_DOTALL IGNORECASE]. simpl N.eqb. cbv iota.
  rewrite (@fence_tail body [] Hb). reflexivity.
Qed.

Lemma consumed_nil s : consumed s [] = s.
Proof. unfold consumed. simpl. rewrite Nat.sub_0_r. apply firstn_all. Qed.

Lemma fenced_sub body :
  no_backtick body = true ->
  re_sub (lit "```(?:json)?\n?(.*?)```") (lit "\1")
    (lit "```json" ++ nl ++ body ++ lit "```") re_DOTALL = Ret body.
Proof.
  intros Hb. unfold re_sub. rewrite compile_fence.
  change (lit "```json" ++ nl ++ body ++ lit "```")
    with (96 :: 96 :: 96 :: 106 :: 115 :: 111 :: 110 :: 10 :: body ++ [96; 96; 96]).
  cbn [sub_fuel search_from]. rewrite (@fence_match body Hb).
  cbn [m_before m_group0 m_after]. rewrite consumed_nil.
  rewrite sub_fuel_none
    by (apply search_from_nil, fence_needs_backticks; reflexivity).
  change (parse_template (lit "\1")) with [TGroup 1].
  cbn [expand group m_caps cap_get Nat.eqb rev app]. rewrite !app_nil_r. reflexivity.
Qed.

(** X22: a reply that is one fenced block, "```json", a newline, a body
    and the closing fence, where the body holds no backtick and no comment
    opener, is sanitized to the stripped body; and when that is valid
    JSON, the parser returns its value. *)
Theorem fenced_reply (body : str) :
  no_backtick body = true ->
  contains (lit "//") body = false -> contains (lit "/*") body = false ->
  _sanitize_json_text (lit "```json" ++ nl ++ body ++ lit "```") = Ret (strip body) /\
  (forall py v, json_loads py (strip body) = Ret v ->
     _parse_json_response py (lit "```json" ++ nl ++ body ++ lit "```") = Ret v).
Proof.
  intros Hb H2 H3.
  assert (Hs : _sanitize_json_text (lit "```json" ++ nl ++ body ++ lit "```")
               = Ret (strip body)).
  { unfold _sanitize_json_text. rewrite (@fenced_sub body Hb). cbn [bindE].
    unfold re_sub. rewrite compile_comment. cbn [bindE].
    rewrite sub_fuel_none by (apply search_comment_none; assumption). reflexivity. }
  split; [exact Hs|].
  intros py v Hv. unfold _parse_json_response, parse_body. rewrite Hs. cbn [bindE].
  rewrite Hv. reflexivity.
Qed.

Lemma fenced_reply_witness :
  _parse_json_response python_default
    (lit "```json" ++ nl ++ litq "{'score': 12.5}" ++ nl ++ lit "```") =
  Ret (PDict [(lit "score", PFloat (FDec false 125 (-1)))]).
Proof.
  apply (proj2 (@fenced_reply (litq "{'score': 12.5}" ++ nl) eq_refl eq_refl eq_refl)
           python_default).
  vm_compute. reflexivity.
Defined.

(** ** A callback that fails *)

(** X23: when the model has replied and the parser has given a dict, but
    the progress callback raises on the final "completed" notification,
    the evaluation returns the record of a failed API call with the
    message of the callback's exception: the parsed grade is lost. *)
Theorem evaluate_submission_callback_fails (w : world) (r : request) (gs : GradingSystem)
    (response : str) (d : dict) (cb : callback) (e : exn) :
  truthy (api_key r) = false ->
  result_of (gateway_call w r (build_prompt r (_get_provider_from_model gs (model r)))
               gs gs) = Ret response ->
  _parse_json_response (interp w) response = Ret (PDict d) ->
  update_callback r = Some cb ->
  cb (PDict (dict_of [ (lit "raw_output", PStr response);
                       (lit "parsed_result",
                        PDict (dict_set d (lit "raw_llm_output") (PStr response)));
                       (lit "status", PStr (lit "completed")) ])) = Raise e ->
  result_of (evaluate_submission w r gs) = Ret (api_error_record e).
Proof.
  intros Ht Hg Hp Hu Hcb. rewrite (@evaluate_submission_no_key w r gs Ht).
  rewrite (@call_and_parse_reply w r _ gs _ response (gateway_call_reply _ _ _ _ Hg)).
  rewrite Hp, Hu. simpl. rewrite Hcb. reflexivity.
Qed.

Lemma evaluate_submission_callback_fails_witness :
  result_of
    (evaluate_submission world_openai
       (mk_request (lit "x = 2") (lit "x = 2") (lit "One mark.") (lit "gpt-4")
          (Some (fun _ => Raise (mk_exn OtherException (lit "widget closed")))) None)
       gs_openai) =
  Ret (api_error_record (mk_exn OtherException (lit "widget closed"))).
Proof.
  apply (@evaluate_submission_callback_fails world_openai _ gs_openai
           (litq "{'score': 18, 'feedback': 'Good'}")
           [ (lit "score", PInt 18); (lit "feedback", PStr (lit "Good")) ]
           (fun _ => Raise (mk_exn OtherException (lit "widget closed")))).
  - reflexivity.
  - vm_compute. reflexivity.
  - vm_compute. reflexivity.
  - reflexivity.
  - reflexivity.
Defined.

(** ** Further instances *)

Lemma _validate_api_key_spec_witness :
  exists l,
    _validate_api_key world_openai (lit "sk-new") (lit "OpenAI") gs_openai =
    (gs_openai, l, Ret true).
Proof.
  destruct (_validate_api_key_spec world_openai (lit "sk-new") (lit "OpenAI") gs_openai)
    as (l & b & H & _ & _ & Hb & _).
  exists l. rewrite H. f_equal. f_equal. apply Hb.
  right. right. repeat split; eexists; reflexivity.
Defined.

Lemma stored_credentials_validated_witness :
  openai_client gs_openai = Some (lit "env-key").
Proof.
  apply (@stored_credentials_validated world_openai world_openai (lit "env-key")).
  repeat split; [discriminate|eexists; reflexivity].
Defined.

Lemma get_available_models_spec_witness :
  exists l,
    get_available_models world_openai (lit "OpenAI") gs_openai =
    (gs_openai, l, Ret [lit "gpt-4"]).
Proof.
  destruct (get_available_models_spec world_openai (lit "OpenAI") gs_openai)
    as (l & models & H & _ & Hother).
  exists l. rewrite H. f_equal. f_equal.
  apply Hother. discriminate.
Defined.
